(** * uptime-ping: the health-check engine

    A shallow embedding of [src/monitor.py], [src/storage.py] and the check
    cycle of [src/main.py], with the properties of the engine's
    specification stated and proved over it.

    Conventions of the embedding.
    - A Python [str] is a [string]: the bytes of its UTF-8 encoding.
    - A Python [float] is a rational ([Q], kept reduced).  Binary rounding is
      not modelled; [round(x, 2)] is rounding to the nearest hundredth, ties
      to even.
    - A naive [datetime] is the record of its seven fields, compared field by
      field as CPython does.
    - The file system, the tracker's module-level dictionary and the clock
      are threaded explicitly through a state-and-exception monad. *)

From Stdlib Require Import ZArith QArith Qround String Ascii List Lia Bool.
From Stdlib Require Import Lqa Qabs Qpower.
From Stdlib Require Import Sorting.Sorted Sorting.Permutation.
From Stdlib Require Import DecimalString DecimalZ DecimalPos.
From stdpp Require Import gmap strings list.

Open Scope Z_scope.

(* ================================================================== *)
(** * Dates and times (the part of [datetime] the engine uses) *)
(* ================================================================== *)

Record date := mkdate { d_year : Z; d_month : Z; d_day : Z }.

Record datetime := mkdt {
  year : Z; month : Z; day : Z;
  hour : Z; minute : Z; second : Z; microsecond : Z
}.

(** [datetime.date()] *)
Definition dt_date (t : datetime) : date :=
  mkdate (year t) (month t) (day t).

(** The exceptions the modelled code can raise. *)
Inductive exn :=
| JSONDecodeError | KeyError | TypeError | ValueError | OverflowError.

Inductive result (A : Type) :=
| Ok (a : A)
| Raise (e : exn).
Arguments Ok {A} a.
Arguments Raise {A} e.

#[global] Instance result_ret : MRet result := @Ok.
#[global] Instance result_bind : MBind result := fun A B f m =>
  match m with
  | Ok a => f a
  | Raise e => Raise e
  end.
#[global] Instance result_fmap : FMap result := fun A B f m =>
  match m with
  | Ok a => Ok (f a)
  | Raise e => Raise e
  end.

(** ** The proleptic Gregorian calendar, after CPython's [_pydatetime] *)

Definition is_leap (y : Z) : bool :=
  (y mod 4 =? 0) && (negb (y mod 100 =? 0) || (y mod 400 =? 0)).

Definition days_before_year (y : Z) : Z :=
  let y := y - 1 in y * 365 + y / 4 - y / 100 + y / 400.

(** [_DAYS_IN_MONTH] with the leap day added in *)
Definition days_in_month (y m : Z) : Z :=
  if m =? 2 then (if is_leap y then 29 else 28)
  else if (m =? 4) || (m =? 6) || (m =? 9) || (m =? 11) then 30
  else 31.

(** [_DAYS_BEFORE_MONTH] *)
Definition days_before_month_tbl (m : Z) : Z :=
  match m with
  | 1 => 0 | 2 => 31 | 3 => 59 | 4 => 90 | 5 => 120 | 6 => 151
  | 7 => 181 | 8 => 212 | 9 => 243 | 10 => 273 | 11 => 304 | 12 => 334
  | _ => 0
  end.

Definition days_before_month (y m : Z) : Z :=
  days_before_month_tbl m + (if (2 <? m) && is_leap y then 1 else 0).

(** [_ymd2ord]: 0001-01-01 is day 1. *)
Definition ymd2ord (y m d : Z) : Z :=
  days_before_year y + days_before_month y m + d.

(** [_ord2ymd] *)
Definition ord2ymd (ordinal : Z) : date :=
  let n := ordinal - 1 in
  let n400 := n / 146097 in let n := n mod 146097 in
  let y := n400 * 400 + 1 in
  let n100 := n / 36524 in let n := n mod 36524 in
  let n4 := n / 1461 in let n := n mod 1461 in
  let n1 := n / 365 in let n := n mod 365 in
  let y := y + n100 * 100 + n4 * 4 + n1 in
  if (n1 =? 4) || (n100 =? 4) then mkdate (y - 1) 12 31
  else
    let leapyear := (n1 =? 3) && (negb (n4 =? 24) || (n100 =? 3)) in
    let m := Z.shiftr (n + 50) 5 in
    let preceding :=
      days_before_month_tbl m + (if (2 <? m) && leapyear then 1 else 0) in
    if n <? preceding then
      let m := m - 1 in
      let preceding :=
        preceding - (days_in_month 1 m + (if (m =? 2) && leapyear then 1 else 0)) in
      mkdate y m (n - preceding + 1)
    else mkdate y m (n - preceding + 1).

Definition MAXORDINAL : Z := 3652059.
Definition US_PER_DAY : Z := 86400000000.

(** A [datetime] object that the constructor accepts. *)
Definition dt_valid (t : datetime) : bool :=
  (1 <=? year t) && (year t <=? 9999) &&
  (1 <=? month t) && (month t <=? 12) &&
  (1 <=? day t) && (day t <=? days_in_month (year t) (month t)) &&
  (0 <=? hour t) && (hour t <? 24) &&
  (0 <=? minute t) && (minute t <? 60) &&
  (0 <=? second t) && (second t <? 60) &&
  (0 <=? microsecond t) && (microsecond t <? 1000000).

(** Microseconds since the start of day 0 of the calendar. *)
Definition dt_to_us (t : datetime) : Z :=
  (((ymd2ord (year t) (month t) (day t) * 24 + hour t) * 60 + minute t) * 60
   + second t) * 1000000 + microsecond t.

Definition dt_of_us (u : Z) : datetime :=
  let d := ord2ymd (u / US_PER_DAY) in
  let r := u mod US_PER_DAY in
  mkdt (d_year d) (d_month d) (d_day d)
       (r / 3600000000) (r / 60000000 mod 60) (r / 1000000 mod 60)
       (r mod 1000000).

(** [timedelta(days=d, hours=h)] in microseconds; the constructor refuses
    more than 999999999 days either way. *)
Definition timedelta (days hours : Z) : result Z :=
  let us := days * US_PER_DAY + hours * 3600000000 in
  let nd := us / US_PER_DAY in
  if (-999999999 <=? nd) && (nd <=? 999999999) then Ok us
  else Raise OverflowError.

(** [t - delta] for a [timedelta] of [delta] microseconds. *)
Definition dt_sub (t : datetime) (delta : Z) : result datetime :=
  let u := dt_to_us t - delta in
  let days := u / US_PER_DAY in
  if (0 <? days) && (days <=? MAXORDINAL) then Ok (dt_of_us u)
  else Raise OverflowError.

(** Comparison of naive datetimes: lexicographic on the seven fields. *)
Definition dt_fields (t : datetime) : list Z :=
  [year t; month t; day t; hour t; minute t; second t; microsecond t].

Fixpoint lex_compare (a b : list Z) : comparison :=
  match a, b with
  | [], [] => Eq
  | [], _ :: _ => Lt
  | _ :: _, [] => Gt
  | x :: a', y :: b' =>
      match x ?= y with
      | Eq => lex_compare a' b'
      | c => c
      end
  end.

Definition dt_compare (a b : datetime) : comparison :=
  lex_compare (dt_fields a) (dt_fields b).

(** [a <= b] and [a < b] *)
Definition dt_leb (a b : datetime) : bool :=
  match dt_compare a b with Gt => false | _ => true end.
Definition dt_ltb (a b : datetime) : bool :=
  match dt_compare a b with Lt => true | _ => false end.

(** ** Fixed-width decimal fields *)

Definition digit_char (d : Z) : ascii := ascii_of_N (48 + Z.to_N d).

Definition is_digit (c : ascii) : bool :=
  (48 <=? N_of_ascii c)%N && (N_of_ascii c <=? 57)%N.

Definition digit_val (c : ascii) : Z := Z.of_N (N_of_ascii c) - 48.

(** ["%0wd" % n] for [0 <= n < 10^w]: the [w] low decimal digits of [n],
    most significant first. *)
Fixpoint pad_digits (w : nat) (n : Z) : string :=
  match w with
  | O => ""
  | S w' => String (digit_char (n / 10 ^ Z.of_nat w' mod 10)) (pad_digits w' n)
  end.

(** Read exactly [w] decimal digits. *)
Fixpoint take_digits (w : nat) (acc : Z) (s : string) : option (Z * string) :=
  match w with
  | O => Some (acc, s)
  | S w' =>
      match s with
      | String c s' =>
          if is_digit c then take_digits w' (acc * 10 + digit_val c) s'
          else None
      | EmptyString => None
      end
  end.

Definition expect (c : ascii) (s : string) : option string :=
  match s with
  | String c' s' => if Ascii.eqb c c' then Some s' else None
  | EmptyString => None
  end.

(** [date.isoformat()] *)
Definition date_isoformat (d : date) : string :=
  pad_digits 4 (d_year d) +:+ "-" +:+ pad_digits 2 (d_month d) +:+ "-"
    +:+ pad_digits 2 (d_day d).

(** [datetime.isoformat()]: the fraction is printed only when the
    microsecond field is not zero. *)
Definition isoformat (t : datetime) : string :=
  date_isoformat (dt_date t) +:+ "T"
    +:+ pad_digits 2 (hour t) +:+ ":" +:+ pad_digits 2 (minute t) +:+ ":"
    +:+ pad_digits 2 (second t)
    +:+ (if microsecond t =? 0 then "" else "." +:+ pad_digits 6 (microsecond t)).

(** [_parse_isoformat_date] *)
Definition parse_isoformat_date (s : string) : option (date * string) :=
  '(y, s) ← take_digits 4 0 s;
  s ← expect "-" s;
  '(m, s) ← take_digits 2 0 s;
  s ← expect "-" s;
  '(d, s) ← take_digits 2 0 s;
  Some (mkdate y m d, s).

(** The fraction of [_parse_hh_mm_ss_ff]: three or six digits after the
    point, to the end of the string. *)
Definition parse_fraction (s : string) : option Z :=
  match String.length s with
  | 3%nat => '(f, _) ← take_digits 3 0 s; Some (f * 1000)
  | 6%nat => '(f, _) ← take_digits 6 0 s; Some f
  | _ => None
  end.

(** [_parse_hh_mm_ss_ff]: [HH[:MM[:SS[.fff[fff]]]]] *)
Definition parse_hh_mm_ss_ff (s : string) : option (Z * Z * Z * Z) :=
  '(h, s) ← take_digits 2 0 s;
  match s with
  | EmptyString => Some (h, 0, 0, 0)
  | String c s =>
      if negb (Ascii.eqb c ":") then None else
      '(mi, s) ← take_digits 2 0 s;
      match s with
      | EmptyString => Some (h, mi, 0, 0)
      | String c s =>
          if negb (Ascii.eqb c ":") then None else
          '(sec, s) ← take_digits 2 0 s;
          match s with
          | EmptyString => Some (h, mi, sec, 0)
          | String c s =>
              if negb (Ascii.eqb c ".") then None else
              f ← parse_fraction s; Some (h, mi, sec, f)
          end
      end
  end.

(** [datetime.fromisoformat(s)], for the strings every Python from 3.7 on
    reads the same way: [YYYY-MM-DD], optionally followed by one separator
    character and [HH[:MM[:SS[.fff[fff]]]]].  A string with a UTC offset, or
    of one of the further ISO 8601 shapes that later versions also read, is
    outside the model and is refused here.  The constructor then checks the
    field ranges. *)
Definition fromisoformat (s : string) : result datetime :=
  match parse_isoformat_date s with
  | None => Raise ValueError
  | Some (d, rest) =>
      let tstr := match rest with String _ t => t | EmptyString => "" end in
      let time :=
        match tstr with
        | EmptyString => Some (0, 0, 0, 0)
        | _ => parse_hh_mm_ss_ff tstr
        end in
      match time with
      | None => Raise ValueError
      | Some (h, mi, sec, us) =>
          let t := mkdt (d_year d) (d_month d) (d_day d) h mi sec us in
          if dt_valid t then Ok t else Raise ValueError
      end
  end.

(* ================================================================== *)
(** * monitor.py *)
(* ================================================================== *)

(** [class Status(str, Enum)] *)
Inductive Status := UP | DOWN | DEGRADED.

(** [Status.value] *)
Definition status_value (s : Status) : string :=
  match s with
  | UP => "up"
  | DOWN => "down"
  | DEGRADED => "degraded"
  end.

Definition Status_eqb (a b : Status) : bool :=
  match a, b with
  | UP, UP | DOWN, DOWN | DEGRADED, DEGRADED => true
  | _, _ => false
  end.

(** [@dataclass class CheckResult] *)
Record CheckResult := mkCheckResult {
  url : string;
  status : Status;
  status_code : option Z;
  response_time_ms : Q;
  error : option string;
  checked_at : datetime
}.

(** [CheckResult.is_healthy] *)
Definition is_healthy (r : CheckResult) : bool := Status_eqb (status r) UP.

(** [@dataclass class Endpoint] *)
Record Endpoint := mkEndpoint {
  ep_url : string;
  ep_name : option string;
  expected_status : Z;
  timeout_ms : Z;
  degraded_threshold_ms : Z
}.

(** [Endpoint.display_name]: [self.name or self.url]; the empty name is
    falsy. *)
Definition display_name (e : Endpoint) : string :=
  match ep_name e with
  | Some n => if String.eqb n "" then ep_url e else n
  | None => ep_url e
  end.

(** What one [client.get] can do inside the [try] of [check_endpoint]. *)
Inductive Outcome :=
| Responded (code : Z)        (* a response came back with this status code *)
| TimedOut                    (* [httpx.TimeoutException] *)
| Failed (msg : string).      (* any other [Exception e]; [msg] is [str(e)] *)

(** What one probe observes of the outside world: the outcome of the
    request, the [perf_counter] difference in milliseconds, and the reading
    of [datetime.utcnow] taken when the [CheckResult] is built. *)
Record Observation := mkObservation {
  outcome : Outcome;
  elapsed_ms : Q;
  finished_at : datetime
}.

(** [x > y] on floats. *)
Definition Qgtb (x y : Q) : bool := negb (Qle_bool x y).

(** Nearest integer, ties to even. *)
Definition round_half_even (q : Q) : Z :=
  let f := Qfloor q in
  match Qcompare (q - inject_Z f) (1 # 2) with
  | Lt => f
  | Gt => f + 1
  | Eq => if Z.even f then f else f + 1
  end.

(** [round(x, 2)], for [q] the exact value of the float [x]: the number of
    two decimals nearest to [q], ties going to the even last digit, as
    CPython computes it from the exact value of the double.  The result
    stands for the float nearest to it, the one that prints with these two
    decimals. *)
Definition round2 (q : Q) : Q :=
  Qred (round_half_even (q * 100) # 100).

(** Decimal text of an integer, as [str(int)] and an f-string print it. *)
Definition str_of_Z (z : Z) : string :=
  NilZero.string_of_int (Z.to_int z).

(** [async def check_endpoint(endpoint)] *)
Definition check_endpoint (endpoint : Endpoint) (o : Observation) : CheckResult :=
  match outcome o with
  | Responded code =>
      let st :=
        if code =? expected_status endpoint then
          if Qgtb (elapsed_ms o) (inject_Z (degraded_threshold_ms endpoint))
          then DEGRADED else UP
        else DOWN in
      mkCheckResult (ep_url endpoint) st (Some code) (round2 (elapsed_ms o))
        (if negb (Status_eqb st DOWN) then None
         else Some ("Expected " +:+ str_of_Z (expected_status endpoint)
                      +:+ ", got " +:+ str_of_Z code))
        (finished_at o)
  | TimedOut =>
      mkCheckResult (ep_url endpoint) DOWN None (round2 (elapsed_ms o))
        (Some "Timeout") (finished_at o)
  | Failed msg =>
      mkCheckResult (ep_url endpoint) DOWN None (round2 (elapsed_ms o))
        (Some msg) (finished_at o)
  end.

(** [asyncio.gather] over the unpacked list of children.  Each child owns a
    future; the children
    complete in the order [schedule] (a list of child indices), and a
    completion stores the child's result in its own future.  When every
    future is filled, the outer result is read off the futures in argument
    order.  [None]: some child never completes, and the [await] never
    returns. *)
Definition complete_child {A} (children : list A) (futs : list (option A))
    (i : nat) : list (option A) :=
  match children !! i with
  | Some r => <[i := Some r]> futs
  | None => futs
  end.

Definition gather {A} (children : list A) (schedule : list nat) : option (list A) :=
  let futures :=
    foldl (complete_child children) (replicate (length children) None) schedule in
  mapM id futures.

(** The futures after the children in [fin] have completed. *)
Definition futures_after {A} (children : list A) (fin : list nat)
    (futs : list (option A)) : Prop :=
  forall i,
    futs !! i =
    (fun c => if bool_decide (i ∈ fin) then Some c else None) <$> children !! i.

(** [async def check_all(endpoints)]: the i-th coroutine probes the i-th
    endpoint and observes [obs i]. *)
Definition check_all (endpoints : list Endpoint) (obs : nat -> Observation)
    (schedule : list nat) : option (list CheckResult) :=
  let tasks := imap (fun i ep => check_endpoint ep (obs i)) endpoints in
  gather tasks schedule.

(* ================================================================== *)
(** * Binary floating point (the part of [float] the aggregator uses) *)
(* ================================================================== *)

(** A [float] is an IEEE 754 binary64 number.  A finite one is held by its
    exact value, a rational.  [pow2 e] is [2 ** e]. *)
Definition pow2 (e : Z) : Q := (2 ^ e)%Q.

(** The binade of a value other than zero: the [e] with
    [2 ** e <= |q| < 2 ** (e + 1)]. *)
Definition binade (q : Q) : Z :=
  let e0 := Z.log2 (Z.abs (Qnum q)) - Z.log2 (Zpos (Qden q)) in
  if Qle_bool (pow2 e0) (Qabs q) then e0 else e0 - 1.

(** The binary64 value nearest to [q], ties going to the even significand:
    53 significant bits, and no bit below [2 ** -1074].  This is the
    rounding of every arithmetic operation on floats and of the conversion
    of a decimal text or of an [int].  (A result of magnitude [2 ** 1024]
    or more is an infinity in Python; infinities and the sign of a zero
    are not represented.) *)
Definition b64 (q : Q) : Q :=
  if Qeq_bool q 0 then 0%Q
  else
    let e := Z.max (binade q - 52) (-1074) in
    Qred (inject_Z (round_half_even (q / pow2 e)) * pow2 e).

(** A rounded magnitude no [float] holds. *)
Definition float_overflows (x : Q) : bool := Qle_bool (pow2 1024) (Qabs x).

(** A Python number in an addition: an [int], or a finite [float] held by
    its value. *)
Inductive number :=
| PyInt (z : Z)
| PyFloat (x : Q).

(** [float(z)] of an [int]: the nearest float, and [OverflowError] when
    the [int] is too large for one. *)
Definition float_of_int (z : Z) : result Q :=
  let x := b64 (inject_Z z) in
  if float_overflows x then Raise OverflowError else Ok x.

(** [a + b]: exact on two [int]s; otherwise the float sum of the two as
    floats. *)
Definition py_add (a b : number) : result number :=
  match a, b with
  | PyInt x, PyInt y => Ok (PyInt (x + y))
  | PyInt x, PyFloat y => x' ← float_of_int x; Ok (PyFloat (b64 (x' + y)))
  | PyFloat x, PyInt y => y' ← float_of_int y; Ok (PyFloat (b64 (x + y')))
  | PyFloat x, PyFloat y => Ok (PyFloat (b64 (x + y)))
  end.

(** [a / n] for an [int] [n] other than zero.  The quotient of two [int]s
    is the float nearest to the exact quotient, and [OverflowError] when
    none is; a float is divided by [float(n)]. *)
Definition py_truediv (a : number) (n : Z) : result Q :=
  match a with
  | PyInt x =>
      let q := b64 (inject_Z x / inject_Z n) in
      if float_overflows q then Raise OverflowError else Ok q
  | PyFloat x => n' ← float_of_int n; Ok (b64 (x / n'))
  end.

(* ================================================================== *)
(** * JSON text (the part of [json] the engine uses) *)
(* ================================================================== *)

(** A decoded JSON value.  An object keeps its members in the order read. *)
#[warnings="-register-all"]
Inductive json :=
| JNull
| JBool (b : bool)
| JInt (z : Z)
| JFloat (q : Q)
| JStr (s : string)
| JArr (items : list json)
| JObj (members : list (string * json)).

Definition dquote : ascii := "034"%char.
Definition backslash : ascii := "092"%char.

Definition hex_char (d : N) : ascii :=
  if (d <? 10)%N then ascii_of_N (48 + d) else ascii_of_N (87 + d).

(** [ESCAPE_DCT] of [json.encoder], as used with [ensure_ascii=False]: the
    quote, the backslash and the control characters are escaped, every
    other character is written as it is. *)
Definition escape_char (c : ascii) : string :=
  if Ascii.eqb c dquote then String backslash (String dquote "")
  else if Ascii.eqb c backslash then String backslash (String backslash "")
  else if Ascii.eqb c "008" then String backslash "b"
  else if Ascii.eqb c "012" then String backslash "f"
  else if Ascii.eqb c "010" then String backslash "n"
  else if Ascii.eqb c "013" then String backslash "r"
  else if Ascii.eqb c "009" then String backslash "t"
  else if (N_of_ascii c <? 32)%N then
    String backslash
      (String "u" (String "0" (String "0"
        (String (hex_char (N_of_ascii c / 16))
          (String (hex_char (N_of_ascii c mod 16)) "")))))
  else String c "".

Fixpoint escape_string (s : string) : string :=
  match s with
  | EmptyString => ""
  | String c s' => escape_char c +:+ escape_string s'
  end.

(** [py_encode_basestring] *)
Definition encode_basestring (s : string) : string :=
  String dquote (escape_string s +:+ String dquote "").

(** [float.__repr__] on a value that [round(x, 2)] returned, the only
    floats the engine serialises: the integer part, a point, and one or two
    fractional digits.  (On another rational the model prints its rounding
    to hundredths; the shortest-digits and exponent forms of [repr] are not
    modelled.) *)
Definition frac_digits (h : Z) : string :=
  if h mod 10 =? 0 then String (digit_char (h / 10)) "" else pad_digits 2 h.

Definition float_repr (q : Q) : string :=
  let c := round_half_even (q * 100) in
  let a := Z.abs c in
  (if c <? 0 then "-" else "") +:+ str_of_Z (a / 100) +:+ "."
    +:+ frac_digits (a mod 100).

(** [json.dumps(v, ensure_ascii=False)], default separators. *)
Fixpoint json_dumps (v : json) : string :=
  match v with
  | JNull => "null"
  | JBool true => "true"
  | JBool false => "false"
  | JInt z => str_of_Z z
  | JFloat q => float_repr q
  | JStr s => encode_basestring s
  | JArr items =>
      "[" +:+
      (fix go (l : list json) : string :=
         match l with
         | [] => ""
         | [x] => json_dumps x
         | x :: l' => json_dumps x +:+ ", " +:+ go l'
         end) items +:+ "]"
  | JObj members =>
      "{" +:+
      (fix go (l : list (string * json)) : string :=
         match l with
         | [] => ""
         | [(k, x)] => encode_basestring k +:+ ": " +:+ json_dumps x
         | (k, x) :: l' =>
             encode_basestring k +:+ ": " +:+ json_dumps x +:+ ", " +:+ go l'
         end) members +:+ "}"
  end.

(** ** Decoding *)

(** [WHITESPACE] of [json.decoder] *)
Definition is_json_ws (c : ascii) : bool :=
  Ascii.eqb c " " || Ascii.eqb c "009" || Ascii.eqb c "010" || Ascii.eqb c "013".

Fixpoint skip_ws (s : string) : string :=
  match s with
  | String c s' => if is_json_ws c then skip_ws s' else s
  | EmptyString => ""
  end.

Definition hex_val (c : ascii) : option N :=
  let n := N_of_ascii c in
  if (48 <=? n)%N && (n <=? 57)%N then Some (n - 48)%N
  else if (97 <=? n)%N && (n <=? 102)%N then Some (n - 87)%N
  else if (65 <=? n)%N && (n <=? 70)%N then Some (n - 55)%N
  else None.

(** UTF-8 bytes of a code point of the basic plane. *)
Definition utf8_encode (cp : N) : string :=
  if (cp <? 128)%N then String (ascii_of_N cp) ""
  else if (cp <? 2048)%N then
    String (ascii_of_N (192 + cp / 64))
      (String (ascii_of_N (128 + cp mod 64)) "")
  else
    String (ascii_of_N (224 + cp / 4096))
      (String (ascii_of_N (128 + cp / 64 mod 64))
        (String (ascii_of_N (128 + cp mod 64)) "")).

(** [BACKSLASH] of [json.decoder] *)
Definition unescape (e : ascii) : option ascii :=
  if Ascii.eqb e dquote then Some dquote
  else if Ascii.eqb e backslash then Some backslash
  else if Ascii.eqb e "/" then Some "/"%char
  else if Ascii.eqb e "b" then Some "008"%char
  else if Ascii.eqb e "f" then Some "012"%char
  else if Ascii.eqb e "n" then Some "010"%char
  else if Ascii.eqb e "r" then Some "013"%char
  else if Ascii.eqb e "t" then Some "009"%char
  else None.

(** [py_scanstring] in strict mode, from just after the opening quote: the
    decoded string and the text after the closing quote.  A [\u] escape of
    a surrogate is outside the model and is refused. *)
Fixpoint scanstring (s : string) : option (string * string) :=
  match s with
  | EmptyString => None
  | String c s' =>
      if Ascii.eqb c dquote then Some ("", s')
      else if Ascii.eqb c backslash then
        match s' with
        | EmptyString => None
        | String e s'' =>
            if Ascii.eqb e "u" then
              match s'' with
              | String h1 (String h2 (String h3 (String h4 r))) =>
                  match hex_val h1, hex_val h2, hex_val h3, hex_val h4 with
                  | Some a, Some b, Some c', Some d =>
                      let cp := (((a * 16 + b) * 16 + c') * 16 + d)%N in
                      if (55296 <=? cp)%N && (cp <=? 57343)%N then None
                      else
                        match scanstring r with
                        | Some (t, rest) => Some (utf8_encode cp +:+ t, rest)
                        | None => None
                        end
                  | _, _, _, _ => None
                  end
              | _ => None
              end
            else
              match unescape e with
              | Some ch =>
                  match scanstring s'' with
                  | Some (t, rest) => Some (String ch t, rest)
                  | None => None
                  end
              | None => None
              end
        end
      else if (N_of_ascii c <? 32)%N then None
      else
        match scanstring s' with
        | Some (t, rest) => Some (String c t, rest)
        | None => None
        end
  end.

(** The longest prefix of decimal digits, and what follows it. *)
Fixpoint span_digits (s : string) : string * string :=
  match s with
  | String c s' =>
      if is_digit c then
        let '(d, r) := span_digits s' in (String c d, r)
      else ("", s)
  | EmptyString => ("", "")
  end.

(** Value of a string of decimal digits. *)
Definition uint_val (ds : string) : Z :=
  match NilEmpty.uint_of_string ds with
  | Some u => Z.of_uint u
  | None => 0
  end.

(** The three groups of [NUMBER_RE]: an optional minus sign and an integer
    part that is a lone zero or starts with a non-zero digit; an optional
    point with one digit or more; an optional exponent with an optional
    sign and one digit or more. *)
Definition parse_int_part (s : string) : option (string * string) :=
  match s with
  | String "0" r => Some ("0", r)
  | _ =>
      let '(d, r) := span_digits s in
      match d with EmptyString => None | _ => Some (d, r) end
  end.

Definition parse_frac (s : string) : option (string * string) :=
  match s with
  | String "." r =>
      let '(d, r') := span_digits r in
      match d with EmptyString => None | _ => Some (d, r') end
  | _ => None
  end.

Definition parse_exp (s : string) : option (Z * string) :=
  match s with
  | String c r =>
      if Ascii.eqb c "e" || Ascii.eqb c "E" then
        let '(sg, r1) :=
          match r with
          | String "-" r' => (-1, r')
          | String "+" r' => (1, r')
          | _ => (1, r)
          end in
        let '(d, r2) := span_digits r1 in
        match d with
        | EmptyString => None
        | _ => Some (sg * uint_val d, r2)
        end
      else None
  | EmptyString => None
  end.

(** The digits of a number, after its sign [sg]: an [int] unless there is
    a fraction or an exponent. *)
Definition parse_unsigned (sg : Z) (s1 : string) : option (json * string) :=
  '(ip, s2) ← parse_int_part s1;
  let '(frac, s3) :=
    match parse_frac s2 with
    | Some (fd, r) => (Some fd, r)
    | None => (None, s2)
    end in
  let '(ex, s4) :=
    match parse_exp s3 with
    | Some (e, r) => (Some e, r)
    | None => (None, s3)
    end in
  match frac, ex with
  | None, None => Some (JInt (sg * uint_val ip), s4)
  | _, _ =>
      let fd := default "" frac in
      let e := default 0 ex in
      let scale := 10 ^ Z.of_nat (String.length fd) in
      Some (JFloat
              (Qred (((sg * (uint_val ip * scale + uint_val fd))
                        # Z.to_pos scale) * (10 # 1) ^ e)%Q),
            s4)
  end.

Definition parse_number (s : string) : option (json * string) :=
  match s with
  | String "-" r => parse_unsigned (-1) r
  | _ => parse_unsigned 1 s
  end.

(** A text that cannot continue a number. *)
Definition ends_number (s : string) : Prop :=
  match s with
  | String c _ =>
      is_digit c = false /\ c <> "."%char /\ c <> "e"%char /\ c <> "E"%char
  | EmptyString => True
  end.

Fixpoint strip_prefix (p s : string) : option string :=
  match p with
  | EmptyString => Some s
  | String c p' =>
      match s with
      | String c' s' => if Ascii.eqb c c' then strip_prefix p' s' else None
      | EmptyString => None
      end
  end.

(** [scan_once] with [JSONObject] and [JSONArray].  [fuel] bounds the
    number of values, members and items read; the literals [NaN],
    [Infinity] and [-Infinity] have no rational value and are refused. *)
Fixpoint parse_value (fuel : nat) (s : string) {struct fuel}
    : option (json * string) :=
  match fuel with
  | O => None
  | S f =>
      match s with
      | EmptyString => None
      | String c r =>
          if Ascii.eqb c dquote then
            '(t, rest) ← scanstring r; Some (JStr t, rest)
          else if Ascii.eqb c "{" then
            match skip_ws r with
            | String "}" rest => Some (JObj [], rest)
            | r' => '(ms, rest) ← parse_members f r'; Some (JObj ms, rest)
            end
          else if Ascii.eqb c "[" then
            match skip_ws r with
            | String "]" rest => Some (JArr [], rest)
            | r' => '(xs, rest) ← parse_items f r'; Some (JArr xs, rest)
            end
          else
            match strip_prefix "null" s, strip_prefix "true" s,
                  strip_prefix "false" s with
            | Some rest, _, _ => Some (JNull, rest)
            | _, Some rest, _ => Some (JBool true, rest)
            | _, _, Some rest => Some (JBool false, rest)
            | None, None, None => parse_number s
            end
      end
  end
with parse_members (fuel : nat) (s : string) {struct fuel}
    : option (list (string * json) * string) :=
  match fuel with
  | O => None
  | S f =>
      r ← expect dquote s;
      '(k, r1) ← scanstring r;
      r2 ← expect ":" (skip_ws r1);
      '(v, r3) ← parse_value f (skip_ws r2);
      match skip_ws r3 with
      | String "}" rest => Some ([(k, v)], rest)
      | String "," r4 =>
          '(ms, rest) ← parse_members f (skip_ws r4); Some ((k, v) :: ms, rest)
      | _ => None
      end
  end
with parse_items (fuel : nat) (s : string) {struct fuel}
    : option (list json * string) :=
  match fuel with
  | O => None
  | S f =>
      '(v, r1) ← parse_value f s;
      match skip_ws r1 with
      | String "]" rest => Some ([v], rest)
      | String "," r2 =>
          '(xs, rest) ← parse_items f (skip_ws r2); Some (v :: xs, rest)
      | _ => None
      end
  end.

(** [json.loads(s)]: one value, with only white space around it. *)
Definition json_loads (s : string) : result json :=
  match parse_value (S (String.length s)) (skip_ws s) with
  | Some (v, rest) =>
      match skip_ws rest with
      | EmptyString => Ok v
      | _ => Raise JSONDecodeError
      end
  | None => Raise JSONDecodeError
  end.

(** The values the engine writes into its records: no nested containers,
    and floats with two decimals. *)
Inductive simple : json -> Prop :=
| simple_null : simple JNull
| simple_bool b : simple (JBool b)
| simple_int z : simple (JInt z)
| simple_float q : round2 q = q -> simple (JFloat q)
| simple_str s : simple (JStr s).

(** The members of an object as [json.dumps] writes them between the
    braces. *)
Fixpoint dumps_members (l : list (string * json)) : string :=
  match l with
  | [] => ""
  | [(k, x)] => encode_basestring k +:+ ": " +:+ json_dumps x
  | (k, x) :: l' =>
      encode_basestring k +:+ ": " +:+ json_dumps x +:+ ", " +:+ dumps_members l'
  end.

(** A text that follows a value inside an object. *)
Definition after_value (s : string) : Prop :=
  exists r, s = String "," r \/ s = String "}" r.

(** ** Operations on decoded values *)

(** The value a key ends up with in the [dict] built from the members:
    the last one read. *)
Fixpoint dict_get (k : string) (ms : list (string * json)) : option json :=
  match ms with
  | [] => None
  | (k', v) :: ms' =>
      match dict_get k ms' with
      | Some v' => Some v'
      | None => if String.eqb k k' then Some v else None
      end
  end.

(** [c[k]] for a string key [k] *)
Definition getitem (c : json) (k : string) : result json :=
  match c with
  | JObj ms =>
      match dict_get k ms with
      | Some v => Ok v
      | None => Raise KeyError
      end
  | _ => Raise TypeError
  end.

(** [v == s] for a string [s] *)
Definition json_eq_str (v : json) (s : string) : bool :=
  match v with
  | JStr t => String.eqb t s
  | _ => false
  end.


Definition as_str (v : json) : result string :=
  match v with
  | JStr s => Ok s
  | _ => Raise TypeError
  end.

(** The Python number a decoded value is: [bool] is an [int], and the
    text of a float stands for the float nearest to it. *)
Definition number_of (v : json) : result number :=
  match v with
  | JInt z => Ok (PyInt z)
  | JBool b => Ok (PyInt (if b then 1 else 0))
  | JFloat q => Ok (PyFloat (b64 q))
  | _ => Raise TypeError
  end.

(* ================================================================== *)
(** * The world the engine runs in *)
(* ================================================================== *)

(** Per-URL entry of [_incident_state]. *)
Record TrackState := mkTrackState {
  ts_status : string;
  ts_since : string;
  ts_notified : bool
}.

(** The [incident] dictionary of [track_incident]. *)
Record Incident := mkIncident {
  inc_url : string;
  prev_status : string;
  new_status : string;
  changed_at : string;
  was_down_since : option string;
  inc_error : option string
}.

(** What an observer of the process sees, in order. *)
Inductive Event :=
| EvAppend (path line : string)            (* [f.write(line)] in append mode *)
| EvNotify (inc : Incident) (sent : bool). (* [notify_incident(inc)] returned [sent] *)

(** The clock of the host: the readings of [datetime.utcnow()] and of
    [date.today()] at the n-th look at the clock.  [date.today()] is the
    local date, so the two need not agree. *)
Record Clock := mkClock {
  utcnow_at : nat -> datetime;
  today_at : nat -> date
}.

Record World := mkWorld {
  files : gmap string string;               (* path ↦ text of the file *)
  incident_state : gmap string TrackState;  (* [_incident_state] *)
  ticks : nat;                              (* looks at the clock so far *)
  trace : list Event
}.

(** Computations that read and change the world and may raise. *)
Definition M (A : Type) : Type := World -> result A * World.

Definition ret {A} (a : A) : M A := fun w => (Ok a, w).
Definition raise {A} (e : exn) : M A := fun w => (Raise e, w).
Definition bind {A B} (m : M A) (k : A -> M B) : M B :=
  fun w =>
    match m w with
    | (Ok a, w') => k a w'
    | (Raise e, w') => (Raise e, w')
    end.
Definition lift {A} (r : result A) : M A := fun w => (r, w).

Notation "'do' x <- m ; k" := (bind m (fun x => k))
  (at level 10, x name, m at level 100, k at level 200,
   format "'[v' 'do'  x  <-  m ; '/' k ']'").
Notation "'do_' m ; k" := (bind m (fun _ => k))
  (at level 10, m at level 100, k at level 200,
   format "'[v' 'do_'  m ; '/' k ']'").

(** [for x in xs: acc = body(x, acc)] *)
Fixpoint for_each {A S} (body : A -> S -> M S) (xs : list A) (acc : S) : M S :=
  match xs with
  | [] => ret acc
  | x :: xs' => do acc' <- body x acc; for_each body xs' acc'
  end.

Section Engine.

Variable clk : Clock.

(** [DATA_DIR] *)
Variable DATA_DIR : string.

(** [date.today()] *)
Definition date_today : M date := fun w =>
  (Ok (today_at clk (ticks w)),
   mkWorld (files w) (incident_state w) (S (ticks w)) (trace w)).

(** [datetime.utcnow()] *)
Definition datetime_utcnow : M datetime := fun w =>
  (Ok (utcnow_at clk (ticks w)),
   mkWorld (files w) (incident_state w) (S (ticks w)) (trace w)).

(** [with open(path, "a") as f: f.write(text)]: the file is created when
    missing.  Failures of the file system itself are not modelled. *)
Definition append_file (path text : string) : M unit := fun w =>
  (Ok tt,
   mkWorld (<[path := default "" (files w !! path) +:+ text]> (files w))
           (incident_state w) (ticks w) (trace w ++ [EvAppend path text])).

(** [path.exists()] and reading the whole file *)
Definition read_file (path : string) : M (option string) := fun w =>
  (Ok (files w !! path), w).

(* ================================================================== *)
(** * storage.py *)
(* ================================================================== *)

(** [ensure_dirs]: directories have no content of their own here. *)
Definition ensure_dirs : M unit := ret tt.

Definition checks_path (date_str : string) : string :=
  DATA_DIR +:+ "/checks/" +:+ date_str +:+ ".jsonl".

Definition incidents_path (date_str : string) : string :=
  DATA_DIR +:+ "/incidents/" +:+ date_str +:+ ".jsonl".

(** [_today_file] *)
Definition _today_file : M string :=
  do d <- date_today; ret (checks_path (date_isoformat d)).

Definition json_opt {A} (f : A -> json) (o : option A) : json :=
  match o with
  | Some a => f a
  | None => JNull
  end.

(** The [record] dictionary of [save_check]. *)
Definition check_record (r : CheckResult) : json :=
  JObj [("url", JStr (url r));
        ("status", JStr (status_value (status r)));
        ("status_code", json_opt JInt (status_code r));
        ("response_time_ms", JFloat (response_time_ms r));
        ("error", json_opt JStr (error r));
        ("checked_at", JStr (isoformat (checked_at r)))].

Definition newline : string := String "010" "".

(** [save_check] *)
Definition save_check (r : CheckResult) : M unit :=
  do_ ensure_dirs;
  let record := check_record r in
  do path <- _today_file;
  append_file path (json_dumps record +:+ newline).

(** [save_checks] *)
Definition save_checks (results : list CheckResult) : M unit :=
  for_each (fun r (_ : unit) => save_check r) results tt.

(** Iterating over a text file: the lines, without their terminators.  A
    carriage return ends a line as a line feed does (universal newlines);
    the empty line this makes of a CR LF pair is dropped by the caller
    with the other blank lines. *)
Definition is_newline (c : ascii) : bool :=
  Ascii.eqb c "010" || Ascii.eqb c "013".

Fixpoint split_lines (s : string) : list string :=
  match s with
  | EmptyString => [""]
  | String c s' =>
      if is_newline c then "" :: split_lines s'
      else
        match split_lines s' with
        | l :: ls => String c l :: ls
        | [] => [String c ""]
        end
  end.

(** White space that [str.strip()] removes, among the ASCII characters;
    the white space beyond ASCII (a no-break space, for one) is not
    recognised. *)
Definition is_py_space (c : ascii) : bool :=
  let n := N_of_ascii c in
  ((9 <=? n)%N && (n <=? 13)%N) || ((28 <=? n)%N && (n <=? 32)%N).

(** [not line.strip()] *)
Fixpoint is_blank (s : string) : bool :=
  match s with
  | EmptyString => true
  | String c s' => is_py_space c && is_blank s'
  end.

(** The loop of [load_checks_for_date] over the lines of the file. *)
Fixpoint parse_lines (lines : list string) : result (list json) :=
  match lines with
  | [] => Ok []
  | line :: rest =>
      if is_blank line then parse_lines rest
      else
        match json_loads line with
        | Ok c =>
            match parse_lines rest with
            | Ok cs => Ok (c :: cs)
            | Raise e => Raise e
            end
        | Raise e => Raise e
        end
  end.

(** [load_checks_for_date] *)
Definition load_checks_for_date (date_str : string) : M (list json) :=
  do content <- read_file (checks_path date_str);
  match content with
  | None => ret []
  | Some text => lift (parse_lines (split_lines text))
  end.

(** [sorted(xs, key=..., reverse=True)] on the keys already computed: a
    stable sort into descending key order (elements with equal keys keep
    their order). *)
Fixpoint insert_desc {A} (x : string * A) (l : list (string * A))
    : list (string * A) :=
  match l with
  | [] => [x]
  | y :: l' =>
      if String.ltb (fst x) (fst y) then y :: insert_desc x l'
      else x :: l
  end.

Definition sort_desc {A} (l : list (string * A)) : list (string * A) :=
  foldr insert_desc [] l.

(** Descending order of the keys: the later element has the smaller or
    the same key. *)
Definition key_desc {A} (a b : string * A) : Prop :=
  String.leb (fst b) (fst a) = true.

(** The key of the final sort: [x["checked_at"]], a string. *)
Definition sort_key (c : json) : result string :=
  getitem c "checked_at" ≫= as_str.

(** [datetime.fromisoformat(c["checked_at"])] *)
Definition check_time (c : json) : result datetime :=
  match sort_key c with
  | Ok s => fromisoformat s
  | Raise e => Raise e
  end.

(** [now - timedelta(days=k)] and [now - timedelta(hours=h)] *)
Definition days_before (now : datetime) (k : Z) : result datetime :=
  timedelta k 0 ≫= dt_sub now.

Definition hours_before (now : datetime) (h : Z) : result datetime :=
  timedelta 0 h ≫= dt_sub now.

(** [check_time >= cutoff], for a record whose timestamp can be read. *)
Definition recent (cutoff : datetime) (c : json) : bool :=
  match check_time c with
  | Ok t => dt_leb cutoff t
  | Raise _ => false
  end.

(** A record with a readable timestamp, and one whose timestamp text was
    written by [isoformat]. *)
Definition has_time (c : json) : Prop := exists t, check_time c = Ok t.

Definition stamped_by_isoformat (c : json) : Prop :=
  exists t, dt_valid t = true /\ sort_key c = Ok (isoformat t).

(** Most recent first, by the timestamp text and by the timestamp. *)
Definition stamp_desc (a b : json) : Prop :=
  exists ka kb,
    sort_key a = Ok ka /\ sort_key b = Ok kb /\ String.leb kb ka = true.

Definition time_desc (a b : json) : Prop :=
  exists ta tb,
    check_time a = Ok ta /\ check_time b = Ok tb /\ dt_leb tb ta = true.

(** [mapM] for [result] *)
Fixpoint map_result {A B} (f : A -> result B) (l : list A) : result (list B) :=
  match l with
  | [] => Ok []
  | x :: l' =>
      match f x with
      | Ok y =>
          match map_result f l' with
          | Ok ys => Ok (y :: ys)
          | Raise e => Raise e
          end
      | Raise e => Raise e
      end
  end.

Definition sorted_by_checked_at_desc (checks : list json) : result (list json) :=
  match map_result (fun c => match sort_key c with
                             | Ok k => Ok (k, c)
                             | Raise e => Raise e
                             end) checks with
  | Ok keyed => Ok (map snd (sort_desc keyed))
  | Raise e => Raise e
  end.

(** The body of the inner loop of [load_recent_checks]. *)
Definition keep_if_recent (cutoff : datetime) (c : json) (checks : list json)
    : M (list json) :=
  do v <- lift (getitem c "checked_at");
  do s <- lift (as_str v);
  do check_time <- lift (fromisoformat s);
  if dt_leb cutoff check_time then ret (checks ++ [c]) else ret checks.

(** The body of the outer loop of [load_recent_checks]. *)
Definition load_day (now : datetime) (hours : Z) (days_ago : Z)
    (checks : list json) : M (list json) :=
  do delta <- lift (timedelta days_ago 0);
  do d <- lift (dt_sub now delta);
  do day_checks <- load_checks_for_date (date_isoformat (dt_date d));
  do hdelta <- lift (timedelta 0 hours);
  do cutoff <- lift (dt_sub now hdelta);
  for_each (keep_if_recent cutoff) day_checks checks.

(** [load_recent_checks] *)
Definition load_recent_checks (hours : Z) : M (list json) :=
  do now <- datetime_utcnow;
  do checks <- for_each (load_day now hours) [0; 1] [];
  lift (sorted_by_checked_at_desc checks).

(** The dictionary [calculate_uptime] returns; a key that is absent from
    the dictionary is [None] here. *)
Record UptimeReport := mkUptimeReport {
  up_url : string;
  uptime_pct : option Q;
  check_count : Z;
  avg_response_ms : option Q;
  last_check : option json
}.

(** [[c for c in checks if c["url"] == url]] *)
Fixpoint filter_url (u : string) (checks : list json) : result (list json) :=
  match checks with
  | [] => Ok []
  | c :: rest =>
      match getitem c "url" with
      | Ok v =>
          match filter_url u rest with
          | Ok cs => Ok (if json_eq_str v u then c :: cs else cs)
          | Raise e => Raise e
          end
      | Raise e => Raise e
      end
  end.

(** [sum(1 for c in url_checks if c["status"] == "up")] *)
Fixpoint count_up (checks : list json) : result Z :=
  match checks with
  | [] => Ok 0
  | c :: rest =>
      match getitem c "status" with
      | Ok v =>
          match count_up rest with
          | Ok n => Ok (if json_eq_str v "up" then 1 + n else n)
          | Raise e => Raise e
          end
      | Raise e => Raise e
      end
  end.

(** [sum(c["response_time_ms"] for c in url_checks)]: from the [int] 0,
    the values are added to the running total from left to right, each
    float addition rounding its result.  (This is the [sum] of CPython up
    to 3.11; from 3.12 on it carries a correction term along a float
    total.) *)
Fixpoint sum_response_from (acc : number) (checks : list json)
    : result number :=
  match checks with
  | [] => Ok acc
  | c :: rest =>
      match getitem c "response_time_ms" ≫= number_of with
      | Ok x =>
          match py_add acc x with
          | Ok s => sum_response_from s rest
          | Raise e => Raise e
          end
      | Raise e => Raise e
      end
  end.

Definition sum_response (checks : list json) : result number :=
  sum_response_from (PyInt 0) checks.

(** [calculate_uptime].  The two values it rounds are floats: [round]
    gives the float nearest to the decimal with two fractional digits
    nearest to its argument, and the report holds that decimal, which is
    how the float prints. *)
Definition calculate_uptime (u : string) (hours : Z) : M UptimeReport :=
  do checks <- load_recent_checks hours;
  do url_checks <- lift (filter_url u checks);
  match url_checks with
  | [] => ret (mkUptimeReport u None 0 None None)
  | first :: _ =>
      do up_count <- lift (count_up url_checks);
      let total := Z.of_nat (length url_checks) in
      do s <- lift (sum_response url_checks);
      do avg_response <- lift (py_truediv s total);
      do ratio <- lift (py_truediv (PyInt up_count) total);
      ret (mkUptimeReport u
             (Some (round2 (b64 (ratio * 100))))
             total
             (Some (round2 avg_response))
             (Some first))
  end.

(** The [incident] dictionary as [json.dumps] sees it. *)
Definition incident_record (i : Incident) : json :=
  JObj [("url", JStr (inc_url i));
        ("prev_status", JStr (prev_status i));
        ("new_status", JStr (new_status i));
        ("changed_at", JStr (changed_at i));
        ("was_down_since", json_opt JStr (was_down_since i));
        ("error", json_opt JStr (inc_error i))].

Definition get_state (u : string) : M (option TrackState) := fun w =>
  (Ok (incident_state w !! u), w).

Definition set_state (u : string) (st : TrackState) : M unit := fun w =>
  (Ok tt, mkWorld (files w) (<[u := st]> (incident_state w)) (ticks w) (trace w)).

(** [track_incident] *)
Definition track_incident (r : CheckResult) : M (option Incident) :=
  let u := url r in
  let current_status := status_value (status r) in
  do st <- get_state u;
  match st with
  | None =>
      do_ set_state u
            (mkTrackState current_status (isoformat (checked_at r)) false);
      ret None
  | Some prev =>
      if negb (String.eqb (ts_status prev) current_status) then
        let incident :=
          mkIncident u (ts_status prev) current_status
            (isoformat (checked_at r))
            (if String.eqb (ts_status prev) "down" then Some (ts_since prev)
             else None)
            (error r) in
        do_ set_state u
              (mkTrackState current_status (isoformat (checked_at r)) true);
        do_ ensure_dirs;
        do d <- date_today;
        do_ append_file (incidents_path (date_isoformat d))
              (json_dumps (incident_record incident) +:+ newline);
        ret (Some incident)
      else ret None
  end.

(* ================================================================== *)
(** * notifier.py and the check cycle of main.py *)
(* ================================================================== *)

(** [notify_incident]: [send_telegram] catches every exception of the
    transport and answers [False]; [telegram] is what the transport does
    with each incident. *)
Definition notify_incident (telegram : Incident -> bool) (i : Incident) : M bool :=
  fun w =>
    (Ok (telegram i),
     mkWorld (files w) (incident_state w) (ticks w)
             (trace w ++ [EvNotify i (telegram i)])).

(** The loop of [run_checks] over the results. *)
Definition track_and_notify (telegram : Incident -> bool) (r : CheckResult)
    (_ : unit) : M unit :=
  do incident <- track_incident r;
  match incident with
  | Some i => do_ notify_incident telegram i; ret tt
  | None => ret tt
  end.

(** [run_checks], after [check_all] has returned [results]. *)
Definition run_cycle (telegram : Incident -> bool) (results : list CheckResult)
    : M unit :=
  do_ save_checks results;
  for_each (track_and_notify telegram) results tt.

(** [run_checks]: [None] when the [await] of [check_all] never returns. *)
Definition run_checks (endpoints : list Endpoint) (obs : nat -> Observation)
    (schedule : list nat) (telegram : Incident -> bool) (w : World)
    : option (result unit * World) :=
  match endpoints with
  | [] => Some (Ok tt, w)
  | _ =>
      match check_all endpoints obs schedule with
      | Some results => Some (run_cycle telegram results w)
      | None => None
      end
  end.

(** Feeding the tracker a sequence of results, one at a time, collecting
    the incidents it returns. *)
Definition feed_tracker (rs : list CheckResult) : M (list Incident) :=
  for_each
    (fun r evs =>
       do i <- track_incident r;
       ret (match i with Some inc => evs ++ [inc] | None => evs end))
    rs [].

End Engine.

(** What [track_incident] does to [_incident_state], on its own. *)
Definition tracker_step (st : gmap string TrackState) (r : CheckResult)
    : gmap string TrackState :=
  match st !! url r with
  | None =>
      <[url r := mkTrackState (status_value (status r))
                   (isoformat (checked_at r)) false]> st
  | Some prev =>
      if String.eqb (ts_status prev) (status_value (status r)) then st
      else
        <[url r := mkTrackState (status_value (status r))
                     (isoformat (checked_at r)) true]> st
  end.

(** Following the specification's words: the current unbroken run of a URL
    is the most recent result for the URL together with the results for it
    just before that have the same status; the run started at the oldest of
    them. *)
Fixpoint take_run (s : Status) (newest_first : list CheckResult)
    : list CheckResult :=
  match newest_first with
  | r :: older =>
      if Status_eqb (status r) s then r :: take_run s older else []
  | [] => []
  end.

Definition current_run (u : string) (rs : list CheckResult) : list CheckResult :=
  match reverse (filter (fun r => url r = u) rs) with
  | r :: older => r :: take_run (status r) older
  | [] => []
  end.

Definition run_start (u : string) (rs : list CheckResult) : option CheckResult :=
  last (current_run u rs).

(** The file system after the writes of a trace; a notification, sent or
    not, leaves it alone. *)
Definition replay_event (fs : gmap string string) (ev : Event)
    : gmap string string :=
  match ev with
  | EvAppend path text => <[path := default "" (fs !! path) +:+ text]> fs
  | EvNotify _ _ => fs
  end.

Definition replay (evs : list Event) (fs : gmap string string)
    : gmap string string :=
  foldl replay_event fs evs.

(** What a computation of the cycle does to the world: it returns, it
    extends the trace by [evs], and the files are the old files with the
    writes of [evs] replayed. *)
Definition extends_by {A} (m : M A) (w : World) (evs : list Event) : Prop :=
  (exists a, fst (m w) = Ok a) /\
  trace (snd (m w)) = trace w ++ evs /\
  files (snd (m w)) = replay evs (files w).

(** The texts of a list of pieces, one after the other. *)
Definition join (pieces : list string) : string :=
  foldr String.append "" pieces.

(** The texts a trace appends to the file [p], in order. *)
Fixpoint appended_to (p : string) (evs : list Event) : list string :=
  match evs with
  | [] => []
  | EvAppend path text :: rest =>
      if String.eqb path p then text :: appended_to p rest
      else appended_to p rest
  | EvNotify _ _ :: rest => appended_to p rest
  end.

(** The line that records a check in the check log. *)
Definition check_line (r : CheckResult) : string :=
  json_dumps (check_record r) +:+ newline.

(** A text without line terminators. *)
Fixpoint no_newline (s : string) : bool :=
  match s with
  | EmptyString => true
  | String c s' => negb (is_newline c) && no_newline s'
  end.

(** The text of a file made of these lines, each ended by a line feed. *)
Definition lines_text (ls : list string) : string :=
  join (map (fun l => l +:+ newline) ls).

(** Following the specification's words: the records of a URL, the
    records that count as up, the latency of a record, and a record that
    has the three fields the aggregation reads. *)
Definition rec_url_is (u : string) (c : json) : bool :=
  match getitem c "url" with
  | Ok v => json_eq_str v u
  | Raise _ => false
  end.





(** The float sum of a list of floats, added from left to right. *)
Definition float_sum (xs : list Q) : Q :=
  foldl (fun acc x => b64 (acc + x)) 0%Q xs.

(** [round(up / total * 100, 2)] on two [int]s, and
    [round(sum(xs) / len(xs), 2)] on a list of floats: every operation
    rounds its result to a float. *)
Definition percentage (up total : Z) : Q :=
  round2 (b64 (b64 (inject_Z up / inject_Z total) * 100)).

Definition rounded_mean (xs : list Q) : Q :=
  round2 (b64 (float_sum xs / inject_Z (Z.of_nat (length xs)))).

(** The line that records an incident in the incident log. *)
Definition incident_line (i : Incident) : string :=
  json_dumps (incident_record i) +:+ newline.

(** Traces in which every notification comes right after the append of
    the same incident's line. *)
Inductive persist_then_notify : list Event -> Prop :=
| ptn_nil : persist_then_notify []
| ptn_append path text evs :
    persist_then_notify evs ->
    persist_then_notify (EvAppend path text :: evs)
| ptn_notify path inc sent evs :
    persist_then_notify evs ->
    persist_then_notify
      (EvAppend path (incident_line inc) :: EvNotify inc sent :: evs).

(** Two worlds that differ at most in their traces. *)
Definition same_store (w1 w2 : World) : Prop :=
  files w1 = files w2 /\
  incident_state w1 = incident_state w2 /\
  ticks w1 = ticks w2.

(** Two computations that, from worlds that differ at most in their
    traces, return the same and lead to such worlds again. *)
Definition agree {A} (m1 m2 : M A) : Prop :=
  forall w1 w2,
    same_store w1 w2 ->
    fst (m1 w1) = fst (m2 w2) /\ same_store (snd (m1 w1)) (snd (m2 w2)).

(** A text holds a line. *)
Definition holds_line (content line : string) : Prop :=
  exists pre post, content = pre +:+ line +:+ post.

(* ================================================================== *)
(** * notifier.py: the message and its transport *)
(* ================================================================== *)

(** Truth value of an optional string, as [if d.get(k):] and
    [if not VALUE] take it: a missing or null value and the empty string
    are falsy. *)
Definition truthy (o : option string) : bool :=
  match o with
  | Some s => negb (String.eqb s "")
  | None => false
  end.

(** [sep.join(lines)] for the separator of one line feed *)
Fixpoint join_lines (lines : list string) : string :=
  match lines with
  | [] => ""
  | [l] => l
  | l :: rest => l +:+ newline +:+ join_lines rest
  end.

(** The list [lines] that [format_incident_message] builds.  The texts
    are the UTF-8 bytes of the literals of the source. *)
Definition incident_lines (incident : Incident) : list string :=
  let url := inc_url incident in
  let prev := prev_status incident in
  let new := new_status incident in
  let '(emoji, title) :=
    if String.eqb new "down" then ("🔴", "服务宕机")
    else if String.eqb new "up" && String.eqb prev "down" then ("✅", "服务恢复")
    else if String.eqb new "degraded" then ("⚠️", "服务变慢")
    else ("ℹ️", "状态变化") in
  let lines :=
    [emoji +:+ " <b>" +:+ title +:+ "</b>";
     "";
     "🔗 " +:+ url;
     "📊 " +:+ prev +:+ " → " +:+ new] in
  let lines :=
    if truthy (inc_error incident)
    then lines ++ ["❗ " +:+ default "" (inc_error incident)]
    else lines in
  let lines :=
    if truthy (was_down_since incident)
    then lines ++ ["⏱️ 宕机开始: " +:+ default "" (was_down_since incident)]
    else lines in
  lines ++ ["🕐 " +:+ changed_at incident].

(** [format_incident_message] *)
Definition format_incident_message (incident : Incident) : string :=
  join_lines (incident_lines incident).

(** What one [client.post] can do inside the [try] of [send_telegram]. *)
Inductive PostOutcome :=
| PostResponded (code : Z)   (* a response came back with this status code *)
| PostRaised.                (* any [Exception] *)

Section Notifier.

(** [TELEGRAM_BOT_TOKEN] and [TELEGRAM_CHAT_ID]: the two environment
    variables, [None] when unset. *)
Variable TELEGRAM_BOT_TOKEN : option string.
Variable TELEGRAM_CHAT_ID : option string.

(** The transport: what posting a JSON body to a URL does. *)
Variable post : string -> json -> PostOutcome.

(** [send_telegram]; what it prints is left out. *)
Definition send_telegram (message parse_mode : string) : bool :=
  if negb (truthy TELEGRAM_BOT_TOKEN) || negb (truthy TELEGRAM_CHAT_ID)
  then false
  else
    let url :=
      "https://api.telegram.org/bot" +:+ default "" TELEGRAM_BOT_TOKEN
        +:+ "/sendMessage" in
    match post url
            (JObj [("chat_id", JStr (default "" TELEGRAM_CHAT_ID));
                   ("text", JStr message);
                   ("parse_mode", JStr parse_mode)]) with
    | PostResponded code => code =? 200
    | PostRaised => false
    end.

(** [notify_incident] of notifier.py, as the function of the incident
    that the check cycle hands its incidents to. *)
Definition telegram_notifier (incident : Incident) : bool :=
  send_telegram (format_incident_message incident) "HTML".

End Notifier.

(* ================================================================== *)
(** * The tracker and the check cycle over whole batches *)
(* ================================================================== *)

(** The incident that [track_incident] returns for a result when the
    table is [st]: none for a URL that is not tracked yet and for a status
    that did not change. *)
Definition change_of (st : gmap string TrackState) (r : CheckResult)
    : option Incident :=
  match st !! url r with
  | Some prev =>
      if String.eqb (ts_status prev) (status_value (status r)) then None
      else
        Some (mkIncident (url r) (ts_status prev) (status_value (status r))
                (isoformat (checked_at r))
                (if String.eqb (ts_status prev) "down"
                 then Some (ts_since prev) else None)
                (error r))
  | None => None
  end.

(** The incidents of a sequence of results fed to the tracker one at a
    time, from the table [st]. *)
Fixpoint incidents_from (st : gmap string TrackState) (rs : list CheckResult)
    : list Incident :=
  match rs with
  | [] => []
  | r :: rest =>
      match change_of st r with
      | Some inc => inc :: incidents_from (tracker_step st r) rest
      | None => incidents_from (tracker_step st r) rest
      end
  end.

(** The pairs of consecutive results, of a sequence of results of one
    URL, that differ in status. *)
Fixpoint status_changes (rs : list CheckResult)
    : list (CheckResult * CheckResult) :=
  match rs with
  | a :: rest =>
      match rest with
      | b :: _ =>
          if Status_eqb (status a) (status b) then status_changes rest
          else (a, b) :: status_changes rest
      | [] => []
      end
  | [] => []
  end.

(** The results of a URL, and the incidents of a URL, in their order. *)
Definition results_of (u : string) (rs : list CheckResult) : list CheckResult :=
  List.filter (fun r => String.eqb (url r) u) rs.

Definition incidents_of (u : string) (incs : list Incident) : list Incident :=
  List.filter (fun i => String.eqb (inc_url i) u) incs.

(** The incidents handed to the notifier in a trace, in order. *)
Fixpoint notified (evs : list Event) : list Incident :=
  match evs with
  | [] => []
  | EvNotify inc _ :: rest => inc :: notified rest
  | EvAppend _ _ :: rest => notified rest
  end.

(** The events of the tracking loop of a cycle: a line of an incident
    appended to a partition of the incident log, or an incident handed to
    the notifier, with the notifier's answer. *)
Definition tracking_event (DATA_DIR : string) (telegram : Incident -> bool)
    (ev : Event) : Prop :=
  match ev with
  | EvAppend path line =>
      exists d inc, path = incidents_path DATA_DIR d /\ line = incident_line inc
  | EvNotify inc sent => sent = telegram inc
  end.

(** The appends of a batch to the check log, for a batch that is saved
    from the [n]-th look at the clock on. *)
Definition check_events (clk : Clock) (DATA_DIR : string) (n : nat)
    (results : list CheckResult) : list Event :=
  imap (fun i r =>
          EvAppend (checks_path DATA_DIR (date_isoformat (today_at clk (n + i))))
                   (check_line r)) results.


(* ================================================================== *)
(** * storage.py: the status summary.  main.py: the reading handlers *)
(* ================================================================== *)

(** Decoded values as dictionary keys.  A list and an object cannot be
    hashed.  Two keys are the same key when they are equal: [None] with
    [None], a string with the same string, and numbers by value, a [bool]
    being the number 0 or 1. *)
Definition hashable (v : json) : bool :=
  match v with
  | JArr _ | JObj _ => false
  | _ => true
  end.

Definition key_number (v : json) : option Q :=
  match v with
  | JInt z => Some (inject_Z z)
  | JFloat q => Some q
  | JBool b => Some (if b then 1%Q else 0%Q)
  | _ => None
  end.

Definition key_eqb (a b : json) : bool :=
  match a, b with
  | JNull, JNull => true
  | JStr s, JStr t => String.eqb s t
  | _, _ =>
      match key_number a, key_number b with
      | Some x, Some y => Qeq_bool x y
      | _, _ => false
      end
  end.

(** [u in latest_by_url], for a dictionary kept as the list of its items
    in insertion order. *)
Definition has_key (u : json) (d : list (json * json)) : bool :=
  existsb (fun kv => key_eqb (fst kv) u) d.

(** The first loop of [get_status_summary]: the first record of every URL,
    in the order in which the URLs are first met. *)
Fixpoint latest_loop (checks : list json) (latest_by_url : list (json * json))
    : result (list (json * json)) :=
  match checks with
  | [] => Ok latest_by_url
  | c :: rest =>
      match getitem c "url" with
      | Ok u =>
          if negb (hashable u) then Raise TypeError
          else if has_key u latest_by_url then latest_loop rest latest_by_url
          else latest_loop rest (latest_by_url ++ [(u, c)])
      | Raise e => Raise e
      end
  end.

(** Every item added has a key that the dictionary did not hold yet. *)
Definition fresh_keys (acc added : list (json * json)) : Prop :=
  forall a1 kv a2,
    added = a1 ++ kv :: a2 -> has_key (fst kv) (acc ++ a1) = false.

(** The record of an item is the first record of its URL. *)
Definition first_of_url (checks : list json) (kv : json * json) : Prop :=
  getitem (snd kv) "url" = Ok (fst kv) /\
  exists pre post,
    checks = pre ++ snd kv :: post /\
    forall c' u',
      In c' pre -> getitem c' "url" = Ok u' -> key_eqb (fst kv) u' = false.

(** An item of [summary["endpoints"]], and the [summary] dictionary. *)
Record EndpointStatus := mkEndpointStatus {
  es_url : json;
  es_status : json;
  es_response_time_ms : json;
  es_last_check : json
}.

Record StatusSummary := mkStatusSummary {
  s_endpoints : list EndpointStatus;
  s_total : Z;
  s_up : Z;
  s_down : Z;
  s_degraded : Z
}.

(** The second loop of [get_status_summary], over the items of
    [latest_by_url]. *)
Fixpoint summary_loop (items : list (json * json)) (summary : StatusSummary)
    : result StatusSummary :=
  match items with
  | [] => Ok summary
  | (u, check) :: rest =>
      match getitem check "status" with
      | Raise e => Raise e
      | Ok st =>
          match getitem check "response_time_ms" with
          | Raise e => Raise e
          | Ok rt =>
              match getitem check "checked_at" with
              | Raise e => Raise e
              | Ok at_ =>
                  let endpoints :=
                    s_endpoints summary ++ [mkEndpointStatus u st rt at_] in
                  summary_loop rest
                    (if json_eq_str st "up" then
                       mkStatusSummary endpoints (s_total summary)
                         (s_up summary + 1) (s_down summary) (s_degraded summary)
                     else if json_eq_str st "down" then
                       mkStatusSummary endpoints (s_total summary)
                         (s_up summary) (s_down summary + 1) (s_degraded summary)
                     else
                       mkStatusSummary endpoints (s_total summary)
                         (s_up summary) (s_down summary) (s_degraded summary + 1))
              end
          end
      end
  end.

(** The world after a look at the clock. *)
Definition ticked (w : World) : World :=
  mkWorld (files w) (incident_state w) (S (ticks w)) (trace w).

(** [xs[:stop]] *)
Definition slice_to {A} (stop : Z) (xs : list A) : list A :=
  let n := Z.of_nat (length xs) in
  let stop := if stop <? 0 then Z.max 0 (stop + n) else Z.min stop n in
  take (Z.to_nat stop) xs.

(** The dictionary that [get_checks] returns. *)
Record ChecksPage := mkChecksPage {
  page_checks : list json;
  page_count : Z
}.

Section Views.

Variable clk : Clock.
Variable DATA_DIR : string.

(** [get_status_summary] *)
Definition get_status_summary : M StatusSummary :=
  do checks <- load_recent_checks clk DATA_DIR 1;
  do latest_by_url <- lift (latest_loop checks []);
  lift (summary_loop latest_by_url
          (mkStatusSummary [] (Z.of_nat (length latest_by_url)) 0 0 0)).

(** [get_endpoint_uptime] of main.py *)
Definition get_endpoint_uptime (u : string) (hours : Z) : M UptimeReport :=
  let u := if negb (String.prefix "http" u) then "https://" +:+ u else u in
  calculate_uptime clk DATA_DIR u hours.

(** [get_checks] of main.py *)
Definition get_checks (hours limit : Z) : M ChecksPage :=
  do recent_checks <- load_recent_checks clk DATA_DIR hours;
  let checks := slice_to limit recent_checks in
  ret (mkChecksPage checks (Z.of_nat (length checks))).

(** [trigger_check] of main.py: a cycle, then the summary.  [None] when
    the cycle never returns. *)
Definition trigger_check (endpoints : list Endpoint) (obs : nat -> Observation)
    (schedule : list nat) (telegram : Incident -> bool) (w : World)
    : option (result StatusSummary * World) :=
  match run_checks clk DATA_DIR endpoints obs schedule telegram w with
  | Some (Ok _, w1) => Some (get_status_summary w1)
  | Some (Raise e, w1) => Some (Raise e, w1)
  | None => None
  end.

End Views.

(** The item of [summary["endpoints"]] made of a record, and the three
    counters' tests on its status. *)
Definition entry_of (kv : json * json) (e : EndpointStatus) : Prop :=
  es_url e = fst kv /\
  getitem (snd kv) "status" = Ok (es_status e) /\
  getitem (snd kv) "response_time_ms" = Ok (es_response_time_ms e) /\
  getitem (snd kv) "checked_at" = Ok (es_last_check e).

Definition counts_up (e : EndpointStatus) : bool :=
  json_eq_str (es_status e) "up".

Definition counts_down (e : EndpointStatus) : bool :=
  negb (json_eq_str (es_status e) "up") && json_eq_str (es_status e) "down".

Definition counts_degraded (e : EndpointStatus) : bool :=
  negb (json_eq_str (es_status e) "up") &&
  negb (json_eq_str (es_status e) "down").

(** The item of [summary["endpoints"]] that shows a result. *)
Definition entry_for (r : CheckResult) : EndpointStatus :=
  mkEndpointStatus (JStr (url r)) (JStr (status_value (status r)))
    (JFloat (response_time_ms r)) (JStr (isoformat (checked_at r))).

(** A line written with printable ASCII characters only, none of them the
    letter N, the letter I or a backslash.  On such a line the white space
    that [str.strip()] removes and the white space of JSON are the space
    alone, and the line holds none of the literals [NaN] and [Infinity]
    and no escape sequence. *)
Definition plain_char (c : ascii) : bool :=
  (32 <=? N_of_ascii c)%N && (N_of_ascii c <=? 126)%N
  && negb (Ascii.eqb c "N") && negb (Ascii.eqb c "I")
  && negb (Ascii.eqb c backslash).

Fixpoint plain_line (s : string) : bool :=
  match s with
  | EmptyString => true
  | String c s' => plain_char c && plain_line s'
  end.

(* ================================================================== *)
(** * Example data *)
(* ================================================================== *)

(** The endpoints of the specification's worked example. *)
Definition ep_A : Endpoint := mkEndpoint "https://a.example/health" None 200 10000 3000.
Definition ep_B : Endpoint := mkEndpoint "https://b.example/health" (Some "B") 200 10000 3000.
Definition ep_C : Endpoint := mkEndpoint "https://c.example/health" None 200 10000 3000.

Definition t_0 : datetime := mkdt 2024 3 1 12 0 0 0.
Definition t_1 : datetime := mkdt 2024 3 1 12 1 0 250000.

(** A returns 200 in 50 ms, B returns 200 in 5000 ms, C times out. *)
Definition obs_A : Observation := mkObservation (Responded 200) (50 # 1) t_0.
Definition obs_B : Observation := mkObservation (Responded 200) (5000 # 1) t_0.
Definition obs_C : Observation := mkObservation TimedOut (10000 # 1) t_0.

(** A host on UTC whose clock advances one second per look. *)
Definition clk_utc : Clock :=
  mkClock (fun n => mkdt 2024 3 1 12 5 (Z.of_nat n) 0) (fun _ => mkdate 2024 3 1).

Definition data_dir : string := "/data".

Definition w_fresh : World := mkWorld ∅ ∅ 0 [].

(** C of the worked example: down at [t_0], back with 200 in 100 ms at
    [t_1]; and the same endpoint answering slowly at [t_1] instead. *)
Definition r_C_down : CheckResult := check_endpoint ep_C obs_C.
Definition r_C_up : CheckResult :=
  check_endpoint ep_C (mkObservation (Responded 200) (100 # 1) t_1).
Definition r_C_slow : CheckResult :=
  check_endpoint ep_C (mkObservation (Responded 200) (5000 # 1) t_1).

(** The world after the tracker has seen C down. *)
Definition w_C_down : World :=
  snd (track_incident clk_utc data_dir r_C_down w_fresh).

(** The incidents of C's recovery and of C's turning slow. *)
Definition inc_C_recovery : Incident :=
  mkIncident (ep_url ep_C) "down" "up" "2024-03-01T12:01:00.250000"
    (Some "2024-03-01T12:00:00") None.
Definition inc_C_slow : Incident :=
  mkIncident (ep_url ep_C) "down" "degraded" "2024-03-01T12:01:00.250000"
    (Some "2024-03-01T12:00:00") None.

(** A probe of C that timed out five seconds before midnight, in a batch
    that is saved three seconds after midnight, on a host on UTC. *)
Definition r_C_late : CheckResult :=
  check_endpoint ep_C
    (mkObservation TimedOut (10000 # 1) (mkdt 2024 2 29 23 59 55 0)).

Definition clk_after_midnight : Clock :=
  mkClock (fun n => mkdt 2024 3 1 0 0 (3 + Z.of_nat n) 0)
          (fun _ => mkdate 2024 3 1).

(** A store with C's two results of the day, and one with a record stamped
    later than the clock of the host reads. *)
Definition w_two : World :=
  snd (save_checks clk_utc data_dir [r_C_down; r_C_up] w_fresh).

Definition t_future : datetime := mkdt 2024 3 1 12 30 0 0.

Definition r_C_future : CheckResult :=
  check_endpoint ep_C (mkObservation (Responded 200) (100 # 1) t_future).

Definition w_future : World :=
  snd (save_check clk_utc data_dir r_C_future w_fresh).





(** The three endpoints of the worked example probed in one batch, and
    the world after the first cycle of a fresh process. *)
Definition eps_ABC : list Endpoint := [ep_A; ep_B; ep_C].

Definition obs_ABC (i : nat) : Observation := nth i [obs_A; obs_B; obs_C] obs_A.

Definition w_first_cycle : World :=
  snd (run_cycle clk_utc data_dir (fun _ => true)
         [check_endpoint ep_A obs_A; check_endpoint ep_B obs_B;
          check_endpoint ep_C obs_C] w_fresh).

(** The store of C's two results with one more partition, three days
    old; and a store whose partition of the day holds a line that was
    torn off after its first character. *)
Definition w_two_and_old : World :=
  mkWorld (<[checks_path data_dir "2024-02-27" := check_line r_C_late]>
             (files w_two))
          ∅ (ticks w_two) [].

Definition w_torn : World :=
  mkWorld {[ checks_path data_dir "2024-03-01" := "{" ]} ∅ 0 [].

(** The summary of the store of C's two results. *)
Definition summary_two : StatusSummary :=
  mkStatusSummary
    [mkEndpointStatus (JStr (ep_url ep_C)) (JStr "up") (JFloat (100 # 1))
       (JStr "2024-03-01T12:01:00.250000")]
    1 1 0 0.

(** A store whose partition of the day holds one record with a timestamp
    and no URL. *)
Definition w_no_url : World :=
  mkWorld
    {[ checks_path data_dir "2024-03-01" :=
         json_dumps (JObj [("checked_at", JStr "2024-03-01T12:00:00")])
           +:+ newline ]}
    ∅ 0 [].

(* ================================================================== *)
(** * Properties of the Probe and of the Checker *)
(* ================================================================== *)

(** Let [cbn] compute the concatenation of strings. *)
#[local] Arguments String.append !_ _ / : simpl nomatch.

Lemma Qgtb_true (x y : Q) : Qgtb x y = true <-> (y < x)%Q.
Proof.
  unfold Qgtb. rewrite negb_true_iff. split.
  - intros H. apply Qnot_le_lt. intros Hle.
    apply Qle_bool_iff in Hle. congruence.
  - intros H. destruct (Qle_bool x y) eqn:E; [|reflexivity].
    apply Qle_bool_iff in E. exfalso. exact (Qlt_not_le _ _ H E).
Qed.

Lemma Qgtb_false (x y : Q) : Qgtb x y = false <-> (x <= y)%Q.
Proof.
  unfold Qgtb. rewrite negb_false_iff. apply Qle_bool_iff.
Qed.

(** C1.  A response with the expected status code is classified [up] when
    the elapsed time is at most the degraded threshold and [degraded] when
    it exceeds it; a request that times out is classified [down] with no
    status code and the error text "Timeout". *)
Theorem check_endpoint_classifies (ep : Endpoint) (o : Observation) :
  (forall code,
      outcome o = Responded code -> code = expected_status ep ->
      (elapsed_ms o <= inject_Z (degraded_threshold_ms ep))%Q ->
      status (check_endpoint ep o) = UP) /\
  (forall code,
      outcome o = Responded code -> code = expected_status ep ->
      (inject_Z (degraded_threshold_ms ep) < elapsed_ms o)%Q ->
      status (check_endpoint ep o) = DEGRADED /\
      status (check_endpoint ep o) <> UP) /\
  (outcome o = TimedOut ->
      status (check_endpoint ep o) = DOWN /\
      status_code (check_endpoint ep o) = None /\
      error (check_endpoint ep o) = Some "Timeout").
Proof.
  unfold check_endpoint. split; [|split].
  - intros code Ho -> Hle. rewrite Ho. cbn. rewrite Z.eqb_refl.
    apply Qgtb_false in Hle. now rewrite Hle.
  - intros code Ho -> Hlt. rewrite Ho. cbn. rewrite Z.eqb_refl.
    apply Qgtb_true in Hlt. rewrite Hlt. now split.
  - intros Ho. now rewrite Ho.
Qed.

Lemma check_endpoint_classifies_witness :
  status (check_endpoint ep_A obs_A) = UP /\
  status (check_endpoint ep_B obs_B) = DEGRADED /\
  error (check_endpoint ep_C obs_C) = Some "Timeout".
Proof.
  split; [|split].
  - apply (proj1 (check_endpoint_classifies ep_A obs_A) 200);
      [reflexivity | reflexivity | vm_compute; discriminate].
  - apply (proj1 (proj2 (check_endpoint_classifies ep_B obs_B)) 200);
      [reflexivity | reflexivity | reflexivity].
  - apply (proj2 (proj2 (check_endpoint_classifies ep_C obs_C))).
    reflexivity.
Defined.

(** C2, as the code has it.  The error of a result is present exactly when
    the status is [down]: an [up] and a [degraded] result both carry no
    error. *)
Theorem check_endpoint_error_iff_down (ep : Endpoint) (o : Observation) :
  error (check_endpoint ep o) <> None <-> status (check_endpoint ep o) = DOWN.
Proof.
  unfold check_endpoint.
  destruct (outcome o) as [code| |msg]; cbn; [|split; congruence..].
  destruct (code =? expected_status ep); cbn.
  - destruct (Qgtb _ _); cbn; split; congruence.
  - split; congruence.
Qed.

(** C2, as stated, fails on the slow endpoint B of the worked example: its
    result is [degraded], not [up], and has no error. *)
Lemma degraded_result_has_no_error :
  ~ (error (check_endpoint ep_B obs_B) <> None <->
     status (check_endpoint ep_B obs_B) <> UP).
Proof.
  intros [_ H]. apply H; [discriminate | reflexivity].
Qed.

(** ** [asyncio.gather] fills the futures by index *)

Section Gather.
Context {A : Type}.
Implicit Types (children : list A) (futs : list (option A)) (fin : list nat).

Lemma bool_decide_ext_if (P Q : Prop) `{Decision P, Decision Q} (x y : option A) :
  (P <-> Q) ->
  (if bool_decide P then x else y) = (if bool_decide Q then x else y).
Proof. intros HPQ. now rewrite (bool_decide_ext P Q HPQ). Qed.

Lemma futures_after_init children :
  futures_after children [] (replicate (length children) None).
Proof.
  intros i. destruct (children !! i) as [c|] eqn:E; cbn.
  - apply lookup_replicate_2. eauto using lookup_lt_Some.
  - apply lookup_replicate_None. apply lookup_ge_None in E. lia.
Qed.

Lemma futures_after_step children fin futs j :
  futures_after children fin futs ->
  futures_after children (j :: fin) (complete_child children futs j).
Proof.
  intros Inv i. unfold complete_child.
  destruct (children !! j) as [r|] eqn:Ej.
  - destruct (decide (i = j)) as [->|Hne].
    + rewrite list_lookup_insert_eq.
      * rewrite Ej. cbn. rewrite bool_decide_eq_true_2; [done|]. set_solver.
      * apply lookup_lt_is_Some. rewrite Inv, Ej. cbn. eauto.
    + rewrite list_lookup_insert_ne by congruence. rewrite Inv.
      destruct (children !! i); cbn; [|done].
      f_equal. apply bool_decide_ext_if. rewrite elem_of_cons. intuition congruence.
  - rewrite Inv. destruct (children !! i) eqn:Ei; cbn; [|done].
    f_equal. apply bool_decide_ext_if.
    assert (i <> j) by congruence. rewrite elem_of_cons. intuition congruence.
Qed.

Lemma futures_after_fold children schedule : forall fin futs,
  futures_after children fin futs ->
  futures_after children (reverse schedule ++ fin)
    (foldl (complete_child children) futs schedule).
Proof.
  induction schedule as [|j schedule IH]; intros fin futs Inv; [done|].
  rewrite reverse_cons, <- app_assoc. cbn.
  apply IH. now apply futures_after_step.
Qed.

(** Whatever the completion order, a [gather] that returns returns the
    results in argument order. *)
Lemma gather_in_order children schedule (l : list A) :
  gather children schedule = Some l -> l = children.
Proof.
  unfold gather. intros Hm.
  pose proof (futures_after_fold children schedule [] _
                (futures_after_init children)) as Inv.
  set (futs := foldl _ _ schedule) in *.
  apply mapM_Some_1 in Hm.
  apply list_eq. intros i.
  specialize (Inv i).
  destruct (l !! i) as [y|] eqn:Ey.
  - destruct (Forall2_lookup_r _ _ _ i y Hm Ey) as (x & Hx & Hxy).
    cbn in Hxy. subst x. rewrite Hx in Inv.
    destruct (children !! i) as [c|]; cbn in Inv; [|done].
    destruct (bool_decide _); congruence.
  - destruct (children !! i) as [c|] eqn:Ec; [|done]. cbn in Inv.
    assert (is_Some (futs !! i)) as [x Hx] by (rewrite Inv; eauto).
    destruct (Forall2_lookup_l _ _ _ i x Hm Hx) as (y & Hy & _). congruence.
Qed.

(** When every child completes, [gather] returns. *)
Lemma gather_returns children schedule :
  (forall i, (i < length children)%nat -> i ∈ schedule) ->
  gather children schedule = Some children.
Proof.
  intros Hall. unfold gather.
  pose proof (futures_after_fold children schedule [] _
                (futures_after_init children)) as Inv.
  set (futs := foldl _ _ schedule) in *.
  assert (futs = Some <$> children) as ->.
  { apply list_eq. intros i. rewrite Inv, list_lookup_fmap.
    destruct (children !! i) as [c|] eqn:Ec; cbn; [|done].
    rewrite bool_decide_eq_true_2; [done|].
    rewrite app_nil_r. apply elem_of_reverse. apply Hall.
    eauto using lookup_lt_Some. }
  now apply mapM_fmap_Some.
Qed.

End Gather.

(** C10.  [check_all] returns once every probe has completed, and whenever
    it returns, in whatever order the probes completed, the batch has one
    result per endpoint and the i-th result is the result of probing the
    i-th endpoint. *)
Theorem check_all_keeps_endpoint_order
    (endpoints : list Endpoint) (obs : nat -> Observation) (schedule : list nat) :
  (forall results,
      check_all endpoints obs schedule = Some results ->
      length results = length endpoints /\
      forall i ep,
        endpoints !! i = Some ep ->
        results !! i = Some (check_endpoint ep (obs i)) /\
        url <$> results !! i = Some (ep_url ep)) /\
  ((forall i, (i < length endpoints)%nat -> i ∈ schedule) ->
   is_Some (check_all endpoints obs schedule)).
Proof.
  unfold check_all. split.
  - intros results Hr. apply gather_in_order in Hr. subst results.
    split; [apply length_imap|].
    intros i ep Hi. rewrite list_lookup_imap, Hi. cbn.
    split; [done|].
    unfold check_endpoint. now destruct (outcome (obs i)).
  - intros Hall. rewrite gather_returns; [eauto|].
    intros i Hi. apply Hall. now rewrite length_imap in Hi.
Qed.

Lemma check_all_keeps_endpoint_order_witness :
  is_Some (check_all [ep_A; ep_B; ep_C]
             (fun i => nth i [obs_A; obs_B; obs_C] obs_A) [2; 0; 1]%nat) /\
  forall results,
    check_all [ep_A; ep_B; ep_C]
      (fun i => nth i [obs_A; obs_B; obs_C] obs_A) [2; 0; 1]%nat = Some results ->
    length results = 3%nat.
Proof.
  split.
  - apply (proj2 (check_all_keeps_endpoint_order [ep_A; ep_B; ep_C]
                    (fun i => nth i [obs_A; obs_B; obs_C] obs_A) [2; 0; 1]%nat)).
    intros i Hi. cbn in Hi.
    destruct i as [|[|[|i]]]; [set_solver..|lia].
  - intros results Hr.
    exact (proj1 (proj1 (check_all_keeps_endpoint_order [ep_A; ep_B; ep_C]
                    (fun i => nth i [obs_A; obs_B; obs_C] obs_A) [2; 0; 1]%nat)
                    results Hr)).
Defined.

(* ================================================================== *)
(** * Properties of the Incident Tracker *)
(* ================================================================== *)

Lemma status_value_eqb (a b : Status) :
  String.eqb (status_value a) (status_value b) = Status_eqb a b.
Proof. now destruct a, b. Qed.

Lemma Status_eqb_eq (a b : Status) : Status_eqb a b = true <-> a = b.
Proof. destruct a, b; cbn; split; congruence. Qed.

Section TrackerProperties.

Variable clk : Clock.
Variable DATA_DIR : string.

(** The result and the world after one call, branch by branch. *)
Lemma track_incident_unfold (r : CheckResult) (w : World) :
  track_incident clk DATA_DIR r w =
  match incident_state w !! url r with
  | None =>
      (Ok None,
       mkWorld (files w)
         (<[url r := mkTrackState (status_value (status r))
                       (isoformat (checked_at r)) false]> (incident_state w))
         (ticks w) (trace w))
  | Some prev =>
      if String.eqb (ts_status prev) (status_value (status r)) then (Ok None, w)
      else
        let inc :=
          mkIncident (url r) (ts_status prev) (status_value (status r))
            (isoformat (checked_at r))
            (if String.eqb (ts_status prev) "down" then Some (ts_since prev)
             else None)
            (error r) in
        let path := incidents_path DATA_DIR (date_isoformat (today_at clk (ticks w))) in
        let line := json_dumps (incident_record inc) +:+ newline in
        (Ok (Some inc),
         mkWorld (<[path := default "" (files w !! path) +:+ line]> (files w))
           (<[url r := mkTrackState (status_value (status r))
                         (isoformat (checked_at r)) true]> (incident_state w))
           (S (ticks w)) (trace w ++ [EvAppend path line]))
  end.
Proof.
  unfold track_incident, bind, get_state.
  destruct (incident_state w !! url r) as [prev|]; [|reflexivity].
  destruct (String.eqb (ts_status prev) (status_value (status r)));
    reflexivity.
Qed.

Lemma track_incident_state (r : CheckResult) (w : World) :
  incident_state (snd (track_incident clk DATA_DIR r w)) = tracker_step (incident_state w) r.
Proof.
  rewrite track_incident_unfold. unfold tracker_step.
  destruct (incident_state w !! url r) as [prev|]; [|reflexivity].
  destruct (String.eqb (ts_status prev) (status_value (status r)));
    reflexivity.
Qed.

Lemma track_incident_never_raises (r : CheckResult) (w : World) :
  exists i, fst (track_incident clk DATA_DIR r w) = Ok i.
Proof.
  rewrite track_incident_unfold.
  destruct (incident_state w !! url r) as [prev|]; [|eauto].
  destruct (String.eqb (ts_status prev) (status_value (status r))); eauto.
Qed.

Lemma feed_tracker_state (rs : list CheckResult) : forall acc (w : World),
  incident_state
    (snd (for_each
            (fun r evs =>
               do i <- track_incident clk DATA_DIR r;
               ret (match i with Some inc => evs ++ [inc] | None => evs end))
            rs acc w)) =
  foldl tracker_step (incident_state w) rs.
Proof.
  induction rs as [|r rs IH]; intros acc w; [reflexivity|].
  cbn [for_each foldl]. unfold bind at 1. unfold bind at 1.
  destruct (track_incident_never_raises r w) as [i Hi].
  pose proof (track_incident_state r w) as Hst.
  destruct (track_incident clk DATA_DIR r w) as [res w1]. cbn in Hi, Hst. subst res.
  unfold ret at 1. rewrite IH. now rewrite Hst.
Qed.

Lemma Status_eqb_sym (a b : Status) : Status_eqb a b = Status_eqb b a.
Proof. now destruct a, b. Qed.

(** The tracked entry of a URL after a sequence of results, from an empty
    table: the status of its latest result, since the start of its current
    run. *)
Lemma tracker_follows_run (u : string) (rs : list CheckResult) :
  (fun st => (ts_status st, ts_since st)) <$> foldl tracker_step ∅ rs !! u =
  (fun r0 => (status_value (status r0), isoformat (checked_at r0))) <$>
    run_start u rs /\
  ts_status <$> foldl tracker_step ∅ rs !! u =
  (fun r => status_value (status r)) <$> head (current_run u rs).
Proof.
  induction rs as [|r rs IH] using rev_ind.
  - cbn. rewrite lookup_empty. now split.
  - rewrite foldl_snoc. unfold run_start, current_run in *.
    rewrite filter_app, reverse_app.
    set (st := foldl tracker_step ∅ rs) in *.
    rewrite filter_cons, filter_nil.
    destruct (decide (url r = u)) as [Hu|Hu].
    + rewrite reverse_singleton. cbn [app head].
      subst u. unfold tracker_step.
      destruct IH as [IH1 IH2].
      destruct (reverse (filter (fun r0 => url r0 = url r) rs))
        as [|r' older] eqn:Erev.
      * cbn in IH2. destruct (st !! url r) as [prev|] eqn:Est; [done|].
        rewrite lookup_insert_eq. now cbn.
      * cbn [head fmap option_fmap option_map] in IH2.
        destruct (st !! url r) as [prev|] eqn:Est; [|done].
        cbn in IH2. injection IH2 as IH2. rewrite IH2, status_value_eqb.
        cbn [take_run]. rewrite (Status_eqb_sym (status r') (status r)).
        destruct (Status_eqb (status r) (status r')) eqn:Es.
        -- apply Status_eqb_eq in Es. rewrite Est.
           rewrite Es. split; [|cbn; congruence].
           rewrite IH1. now destruct (take_run (status r') older).
        -- rewrite lookup_insert_eq. now cbn.
    + rewrite reverse_nil. cbn [app].
      assert (tracker_step st r !! u = st !! u) as ->; [|exact IH].
      unfold tracker_step.
      destruct (st !! url r) as [prev|].
      * destruct (String.eqb _ _); [done|]. now rewrite lookup_insert_ne.
      * now rewrite lookup_insert_ne.
Qed.

(** C3.  The first result for a URL emits nothing and records the status
    with [since] the result's timestamp; a result with the tracked status
    emits nothing and leaves the world as it is; a result with another
    status returns one incident, appends its one line to the incident log
    and overwrites the entry with the new status and the result's
    timestamp.  Over a whole sequence, from an empty table, the entry of a
    URL holds the status of its latest result and, as [since], the
    timestamp at which the current unbroken run of that status started. *)
Theorem track_incident_state_machine (r : CheckResult) (w : World) :
  (incident_state w !! url r = None ->
     track_incident clk DATA_DIR r w =
     (Ok None,
      mkWorld (files w)
        (<[url r := mkTrackState (status_value (status r))
                      (isoformat (checked_at r)) false]> (incident_state w))
        (ticks w) (trace w))) /\
  (forall prev,
     incident_state w !! url r = Some prev ->
     ts_status prev = status_value (status r) ->
     track_incident clk DATA_DIR r w = (Ok None, w)) /\
  (forall prev,
     incident_state w !! url r = Some prev ->
     ts_status prev <> status_value (status r) ->
     exists inc w' path,
       track_incident clk DATA_DIR r w = (Ok (Some inc), w') /\
       incident_state w' =
         <[url r := mkTrackState (status_value (status r))
                      (isoformat (checked_at r)) true]> (incident_state w) /\
       trace w' =
         trace w ++ [EvAppend path (json_dumps (incident_record inc) +:+ newline)]) /\
  (forall rs u,
     incident_state w = ∅ ->
     (fun st => (ts_status st, ts_since st)) <$>
       incident_state (snd (feed_tracker clk DATA_DIR rs w)) !! u =
     (fun r0 => (status_value (status r0), isoformat (checked_at r0))) <$>
       run_start u rs).
Proof.
  repeat apply conj.
  - intros Hnone. rewrite track_incident_unfold. now rewrite Hnone.
  - intros prev Hprev Hsame. rewrite track_incident_unfold, Hprev.
    apply String.eqb_eq in Hsame. now rewrite Hsame.
  - intros prev Hprev Hdiff. rewrite track_incident_unfold, Hprev.
    apply String.eqb_neq in Hdiff. rewrite Hdiff. cbv zeta.
    eexists _, _, _. split; [reflexivity|]. split; reflexivity.
  - intros rs u Hempty. unfold feed_tracker.
    rewrite feed_tracker_state, Hempty.
    apply tracker_follows_run.
Qed.

(** C4, as the code has it.  An incident is returned only on a change of
    status; its down-since field is the tracked [since] of the previous
    status when that status is [down], whatever the new status, and is
    absent when the previous status is anything else.  For a tracker fed
    from an empty table, that [since] is the timestamp at which the
    unbroken run of [down] results started. *)
Theorem incident_down_since (r : CheckResult) (w w' : World) (inc : Incident) :
  track_incident clk DATA_DIR r w = (Ok (Some inc), w') ->
  (exists prev,
     incident_state w !! url r = Some prev /\
     prev_status inc = ts_status prev /\
     new_status inc = status_value (status r) /\
     prev_status inc <> new_status inc /\
     changed_at inc = isoformat (checked_at r) /\
     inc_error inc = error r /\
     (prev_status inc = "down" -> was_down_since inc = Some (ts_since prev)) /\
     (prev_status inc <> "down" -> was_down_since inc = None)) /\
  (was_down_since inc <> None <-> prev_status inc = "down") /\
  (forall rs w0,
     incident_state w0 = ∅ ->
     w = snd (feed_tracker clk DATA_DIR rs w0) ->
     prev_status inc = "down" ->
     exists r0,
       run_start (url r) rs = Some r0 /\ status r0 = DOWN /\
       was_down_since inc = Some (isoformat (checked_at r0))).
Proof.
  rewrite track_incident_unfold.
  destruct (incident_state w !! url r) as [prev|] eqn:Hprev; [|discriminate].
  destruct (String.eqb (ts_status prev) (status_value (status r))) eqn:Hs;
    [discriminate|].
  cbv zeta. intros H. injection H as <- _. cbn.
  apply String.eqb_neq in Hs.
  repeat apply conj.
  - exists prev. repeat split; try done.
    + intros Hd. apply String.eqb_eq in Hd. now rewrite Hd.
    + intros Hd. apply String.eqb_neq in Hd. now rewrite Hd.
  - destruct (String.eqb (ts_status prev) "down") eqn:Hd; [|done].
    intros _. now apply String.eqb_eq in Hd.
  - intros Hd. apply String.eqb_eq in Hd. now rewrite Hd.
  - intros rs w0 Hempty -> Hd.
    unfold feed_tracker in Hprev.
    rewrite feed_tracker_state, Hempty in Hprev.
    destruct (tracker_follows_run (url r) rs) as [Hrun Hhead].
    rewrite Hprev in Hrun, Hhead. cbn in Hrun, Hhead.
    destruct (run_start (url r) rs) as [r0|] eqn:Er0; [|discriminate].
    cbn in Hrun. injection Hrun as Hst Hsince.
    exists r0. split; [reflexivity|].
    rewrite Hd in Hst |- *. cbn.
    split; [|now rewrite Hsince].
    destruct (status r0); cbn in Hst; congruence.
Qed.

End TrackerProperties.

Lemma track_incident_state_machine_witness :
  track_incident clk_utc data_dir r_C_down w_fresh =
    (Ok None,
     mkWorld ∅ {[ url r_C_down := mkTrackState "down" "2024-03-01T12:00:00" false ]}
       0 []) /\
  track_incident clk_utc data_dir r_C_down w_C_down = (Ok None, w_C_down) /\
  (exists inc w' path,
     track_incident clk_utc data_dir r_C_up w_C_down = (Ok (Some inc), w') /\
     incident_state w' =
       <[url r_C_up := mkTrackState "up" "2024-03-01T12:01:00.250000" true]>
         (incident_state w_C_down) /\
     trace w' =
       trace w_C_down ++
       [EvAppend path (json_dumps (incident_record inc) +:+ newline)]) /\
  (fun st => (ts_status st, ts_since st)) <$>
    incident_state
      (snd (feed_tracker clk_utc data_dir [r_C_down; r_C_down; r_C_up] w_fresh))
      !! url r_C_up =
  Some ("up", "2024-03-01T12:01:00.250000").
Proof.
  pose proof (track_incident_state_machine clk_utc data_dir r_C_down w_fresh)
    as (H1 & _ & _ & H4).
  pose proof (track_incident_state_machine clk_utc data_dir r_C_down w_C_down)
    as (_ & H2 & _ & _).
  pose proof (track_incident_state_machine clk_utc data_dir r_C_up w_C_down)
    as (_ & _ & H3 & _).
  split; [|split; [|split]].
  - rewrite H1 by reflexivity. reflexivity.
  - apply (H2 (mkTrackState "down" "2024-03-01T12:00:00" false));
      reflexivity.
  - apply (H3 (mkTrackState "down" "2024-03-01T12:00:00" false));
      [reflexivity | discriminate].
  - rewrite (H4 [r_C_down; r_C_down; r_C_up] (url r_C_up) eq_refl).
    reflexivity.
Defined.

(** The worked example of the specification: C recovers, and the incident
    carries C's down timestamp. *)
Lemma incident_down_since_witness :
  fst (track_incident clk_utc data_dir r_C_up w_C_down) = Ok (Some inc_C_recovery) /\
  (was_down_since inc_C_recovery <> None <-> prev_status inc_C_recovery = "down").
Proof.
  assert (E : track_incident clk_utc data_dir r_C_up w_C_down =
              (Ok (Some inc_C_recovery),
               snd (track_incident clk_utc data_dir r_C_up w_C_down)))
    by (vm_compute; reflexivity).
  split; [now rewrite E|].
  exact (proj1 (proj2 (incident_down_since clk_utc data_dir _ _ _ _ E))).
Defined.

(** C4, as stated, fails on a transition from [down] to [degraded]: the
    incident is not a recovery into [up], yet it carries a down-since. *)
Lemma down_to_degraded_carries_down_since :
  fst (track_incident clk_utc data_dir r_C_slow w_C_down) = Ok (Some inc_C_slow) /\
  ~ (was_down_since inc_C_slow <> None <->
     prev_status inc_C_slow = "down" /\ new_status inc_C_slow = "up").
Proof.
  split; [vm_compute; reflexivity|].
  cbn. intros [H _]. destruct H as [_ H]; discriminate.
Qed.

(* ================================================================== *)
(** * Properties of the check cycle *)
(* ================================================================== *)

Lemma string_app_nil_r (s : string) : s +:+ "" = s.
Proof. induction s as [|c s IH]; cbn; congruence. Qed.

Lemma string_app_assoc (a b c : string) : (a +:+ b) +:+ c = a +:+ (b +:+ c).
Proof. induction a as [|x a IH]; cbn; congruence. Qed.

Lemma persist_then_notify_app (a b : list Event) :
  persist_then_notify a -> persist_then_notify b ->
  persist_then_notify (a ++ b).
Proof.
  induction 1 as [|path text evs _ IH|path inc sent evs _ IH]; intros Hb; cbn.
  - exact Hb.
  - apply ptn_append. now apply IH.
  - apply ptn_notify. now apply IH.
Qed.

(** In such a trace, whatever precedes a notification ends with the append
    of the incident's line. *)
Lemma persist_then_notify_before (evs : list Event) :
  persist_then_notify evs ->
  forall pre inc sent post,
    evs = pre ++ EvNotify inc sent :: post ->
    exists pre' path, pre = pre' ++ [EvAppend path (incident_line inc)].
Proof.
  induction 1 as [|path text evs _ IH|path inc0 sent0 evs _ IH];
    intros pre inc sent post E.
  - now destruct pre.
  - destruct pre as [|e pre]; [discriminate|].
    injection E as <- E.
    destruct (IH _ _ _ _ E) as (pre' & p & ->).
    now exists (EvAppend path text :: pre'), p.
  - destruct pre as [|e pre]; [discriminate|].
    injection E as <- E.
    destruct pre as [|e pre].
    + injection E as <- <- _. now exists [], path.
    + injection E as <- E.
      destruct (IH _ _ _ _ E) as (pre' & p & ->).
      now exists (EvAppend path (incident_line inc0) :: EvNotify inc0 sent0 :: pre'), p.
Qed.

Lemma replay_app (a b : list Event) (fs : gmap string string) :
  replay (a ++ b) fs = replay b (replay a fs).
Proof. apply foldl_app. Qed.



Section CycleProperties.

Variable clk : Clock.
Variable DATA_DIR : string.

Lemma save_check_extends (r : CheckResult) (w : World) :
  exists path,
    extends_by (save_check clk DATA_DIR r) w
      [EvAppend path (json_dumps (check_record r) +:+ newline)].
Proof.
  eexists. unfold extends_by, save_check, _today_file, bind, ensure_dirs, ret,
    date_today, append_file. cbn [fst snd trace files]. eauto.
Qed.

(** Sequencing two computations that each extend the trace. *)
Lemma bind_extends {A B} (m : M A) (k : A -> M B) (w : World)
    (evs1 : list Event) (P : list Event -> Prop) :
  extends_by m w evs1 ->
  (forall a w1,
      m w = (Ok a, w1) ->
      exists evs2, extends_by (k a) w1 evs2 /\ P (evs1 ++ evs2)) ->
  exists evs, extends_by (bind m k) w evs /\ P evs.
Proof.
  intros ((a & Ha) & Ht & Hf) Hk. unfold extends_by, bind.
  destruct (m w) as [res w1]. cbn [fst snd] in Ha, Ht, Hf. subst res.
  destruct (Hk a w1 eq_refl) as (evs2 & (Hr & Ht' & Hf') & HP).
  exists (evs1 ++ evs2). split; [split; [exact Hr|split]|exact HP].
  - rewrite Ht', Ht, <- app_assoc. reflexivity.
  - rewrite Hf', Hf, replay_app. reflexivity.
Qed.

Lemma ret_extends {A} (a : A) (w : World) : extends_by (ret a) w [].
Proof.
  unfold extends_by, ret. cbn. rewrite app_nil_r. eauto.
Qed.

Lemma save_checks_extends (results : list CheckResult) : forall w,
  exists evs,
    extends_by (save_checks clk DATA_DIR results) w evs /\
    persist_then_notify evs.
Proof.
  unfold save_checks.
  induction results as [|r results IH]; intros w.
  - exists []. split; [apply ret_extends | apply ptn_nil].
  - cbn [for_each].
    destruct (save_check_extends r w) as (path & Hs).
    apply (bind_extends _ _ _ _ _ Hs). intros [] w1 _.
    destruct (IH w1) as (evs & He & Hp).
    exists evs. split; [exact He|]. now apply ptn_append.
Qed.

Lemma track_and_notify_unfold (telegram : Incident -> bool) (r : CheckResult)
    (w : World) :
  track_and_notify clk DATA_DIR telegram r tt w =
  match track_incident clk DATA_DIR r w with
  | (Ok (Some i), w1) =>
      (Ok tt,
       mkWorld (files w1) (incident_state w1) (ticks w1)
         (trace w1 ++ [EvNotify i (telegram i)]))
  | (Ok None, w1) => (Ok tt, w1)
  | (Raise e, w1) => (Raise e, w1)
  end.
Proof.
  unfold track_and_notify, bind.
  destruct (track_incident clk DATA_DIR r w) as [[[i|]|e] w1]; reflexivity.
Qed.

Lemma track_and_notify_extends (telegram : Incident -> bool) (r : CheckResult)
    (w : World) :
  exists evs,
    extends_by (track_and_notify clk DATA_DIR telegram r tt) w evs /\
    persist_then_notify evs.
Proof.
  unfold extends_by.
  rewrite track_and_notify_unfold, track_incident_unfold.
  destruct (incident_state w !! url r) as [prev|].
  - destruct (String.eqb (ts_status prev) (status_value (status r))).
    + exists []. cbn. rewrite app_nil_r. eauto using ptn_nil.
    + cbv zeta. eexists [_; _]. cbn [fst snd trace files].
      rewrite <- app_assoc. cbn [app].
      split; [eauto|]. apply ptn_notify, ptn_nil.
  - exists []. cbn. rewrite app_nil_r. eauto using ptn_nil.
Qed.

Lemma track_loop_extends (telegram : Incident -> bool)
    (results : list CheckResult) : forall w,
  exists evs,
    extends_by (for_each (track_and_notify clk DATA_DIR telegram) results tt) w evs /\
    persist_then_notify evs.
Proof.
  induction results as [|r results IH]; intros w.
  - exists []. split; [apply ret_extends | apply ptn_nil].
  - cbn [for_each].
    destruct (track_and_notify_extends telegram r w) as (evs1 & He1 & Hp1).
    apply (bind_extends _ _ _ _ _ He1). intros [] w1 _.
    destruct (IH w1) as (evs & He & Hp).
    exists evs. split; [exact He|]. now apply persist_then_notify_app.
Qed.

Lemma run_cycle_extends (telegram : Incident -> bool)
    (results : list CheckResult) (w : World) :
  exists evs,
    extends_by (run_cycle clk DATA_DIR telegram results) w evs /\
    persist_then_notify evs.
Proof.
  unfold run_cycle.
  destruct (save_checks_extends results w) as (evs1 & He1 & Hp1).
  apply (bind_extends _ _ _ _ _ He1). intros [] w1 _.
  destruct (track_loop_extends telegram results w1) as (evs & He & Hp).
  exists evs. split; [exact He|]. now apply persist_then_notify_app.
Qed.

End CycleProperties.

Lemma agree_ret {A} (a : A) : agree (ret a) (ret a).
Proof. intros w1 w2 H. now split. Qed.

Lemma agree_bind {A B} (m1 m2 : M A) (k1 k2 : A -> M B) :
  agree m1 m2 -> (forall a, agree (k1 a) (k2 a)) ->
  agree (bind m1 k1) (bind m2 k2).
Proof.
  intros Hm Hk w1 w2 H. unfold bind.
  destruct (Hm w1 w2 H) as [Hfst Hsnd].
  destruct (m1 w1) as [r1 v1], (m2 w2) as [r2 v2]. cbn in Hfst, Hsnd.
  subst r2. destruct r1 as [a|e]; [now apply Hk|now split].
Qed.

Lemma agree_for_each {A S} (body1 body2 : A -> S -> M S) (xs : list A) :
  (forall x acc, agree (body1 x acc) (body2 x acc)) ->
  forall acc, agree (for_each body1 xs acc) (for_each body2 xs acc).
Proof.
  intros Hb. induction xs as [|x xs IH]; intros acc; cbn [for_each].
  - apply agree_ret.
  - apply agree_bind; [apply Hb|exact IH].
Qed.

Section CycleIndependence.

Variable clk : Clock.
Variable DATA_DIR : string.

Lemma agree_save_check (r : CheckResult) :
  agree (save_check clk DATA_DIR r) (save_check clk DATA_DIR r).
Proof.
  intros w1 w2 (Hf & Hs & Ht).
  unfold save_check, _today_file, bind, ensure_dirs, ret, date_today,
    append_file, same_store.
  cbn [fst snd files incident_state ticks]. now rewrite ?Hf, ?Hs, ?Ht.
Qed.

Lemma agree_track_and_notify (t1 t2 : Incident -> bool) (r : CheckResult) :
  agree (track_and_notify clk DATA_DIR t1 r tt)
        (track_and_notify clk DATA_DIR t2 r tt).
Proof.
  intros w1 w2 (Hf & Hs & Ht).
  rewrite !track_and_notify_unfold, !track_incident_unfold, Hs.
  destruct (incident_state w2 !! url r) as [prev|].
  - destruct (String.eqb (ts_status prev) (status_value (status r))).
    + now split.
    + cbv zeta. unfold same_store. cbn [fst snd files incident_state ticks].
      now rewrite ?Hf, ?Hs, ?Ht.
  - unfold same_store. cbn [fst snd files incident_state ticks].
    now rewrite ?Hf, ?Hs, ?Ht.
Qed.

Lemma agree_run_cycle (t1 t2 : Incident -> bool) (results : list CheckResult) :
  agree (run_cycle clk DATA_DIR t1 results) (run_cycle clk DATA_DIR t2 results).
Proof.
  unfold run_cycle, save_checks. apply agree_bind.
  - apply agree_for_each. intros r []. apply agree_save_check.
  - intros _. apply agree_for_each. intros r []. apply agree_track_and_notify.
Qed.

End CycleIndependence.

(* ================================================================== *)
(** * Properties of the Check Store: writing *)
(* ================================================================== *)

Lemma replay_content (evs : list Event) : forall (fs : gmap string string) p,
  default "" (replay evs fs !! p) =
  default "" (fs !! p) +:+ join (appended_to p evs).
Proof.
  induction evs as [|ev evs IH]; intros fs p.
  - cbn. now rewrite string_app_nil_r.
  - cbn [replay foldl]. fold (replay evs (replay_event fs ev)).
    rewrite IH. destruct ev as [path text|inc sent]; cbn [replay_event].
    + cbn [appended_to].
      destruct (String.eqb_spec path p) as [->|Hne].
      * rewrite lookup_insert_eq. unfold join. cbn [default from_option id foldr].
        now rewrite string_app_assoc.
      * now rewrite lookup_insert_ne.
    + reflexivity.
Qed.

Section StoreWriting.

Variable clk : Clock.
Variable DATA_DIR : string.

(** One write: the line goes to the file named after the reading of
    [date.today()] taken at that moment. *)
Lemma save_check_unfold (r : CheckResult) (w : World) :
  save_check clk DATA_DIR r w =
  let path := checks_path DATA_DIR (date_isoformat (today_at clk (ticks w))) in
  (Ok tt,
   mkWorld (<[path := default "" (files w !! path) +:+ check_line r]> (files w))
     (incident_state w) (S (ticks w))
     (trace w ++ [EvAppend path (check_line r)])).
Proof. reflexivity. Qed.

Lemma save_checks_writes (results : list CheckResult) : forall w,
  fst (save_checks clk DATA_DIR results w) = Ok tt /\
  trace (snd (save_checks clk DATA_DIR results w)) =
    trace w ++
    imap (fun i r =>
            EvAppend
              (checks_path DATA_DIR
                 (date_isoformat (today_at clk (ticks w + i))))
              (check_line r)) results /\
  files (snd (save_checks clk DATA_DIR results w)) =
    replay
      (imap (fun i r =>
               EvAppend
                 (checks_path DATA_DIR
                    (date_isoformat (today_at clk (ticks w + i))))
                 (check_line r)) results)
      (files w).
Proof.
  unfold save_checks.
  induction results as [|r results IH]; intros w.
  - cbn. now rewrite app_nil_r.
  - cbn [for_each]. unfold bind. rewrite save_check_unfold. cbv zeta.
    destruct (IH (mkWorld
                    (<[checks_path DATA_DIR
                         (date_isoformat (today_at clk (ticks w))) :=
                         default ""
                           (files w !! checks_path DATA_DIR
                              (date_isoformat (today_at clk (ticks w))))
                         +:+ check_line r]> (files w))
                    (incident_state w) (S (ticks w))
                    (trace w ++
                     [EvAppend
                        (checks_path DATA_DIR
                           (date_isoformat (today_at clk (ticks w))))
                        (check_line r)])))
      as (Hr & Ht & Hf).
    cbn [ticks trace files] in Ht, Hf.
    rewrite imap_cons, Nat.add_0_r.
    assert (Hext : imap ((fun i r0 =>
                       EvAppend
                         (checks_path DATA_DIR
                            (date_isoformat (today_at clk (ticks w + i))))
                         (check_line r0)) ∘ S) results =
                   imap (fun i r0 =>
                       EvAppend
                         (checks_path DATA_DIR
                            (date_isoformat (today_at clk (S (ticks w) + i))))
                         (check_line r0)) results).
    { apply imap_ext. intros i x _. cbn. now rewrite Nat.add_succ_r. }
    rewrite Hext. split; [exact Hr|]. split.
    + rewrite Ht, <- app_assoc. reflexivity.
    + rewrite Hf. reflexivity.
Qed.

(** C7, as the code has it.  [save_checks] appends the line of each result,
    in the order of the batch, to the partition named after the date that
    [date.today()] gives at the moment that result is written; the
    timestamp of the result plays no part in the choice. *)
Theorem save_checks_partitions_by_write_date
    (results : list CheckResult) (w : World) :
  fst (save_checks clk DATA_DIR results w) = Ok tt /\
  trace (snd (save_checks clk DATA_DIR results w)) =
    trace w ++
    imap (fun i r =>
            EvAppend
              (checks_path DATA_DIR
                 (date_isoformat (today_at clk (ticks w + i))))
              (check_line r)) results /\
  forall p,
    default "" (files (snd (save_checks clk DATA_DIR results w)) !! p) =
    default "" (files w !! p) +:+
    join (appended_to p
            (imap (fun i r =>
                     EvAppend
                       (checks_path DATA_DIR
                          (date_isoformat (today_at clk (ticks w + i))))
                       (check_line r)) results)).
Proof.
  destruct (save_checks_writes results w) as (Hr & Ht & Hf).
  split; [exact Hr|]. split; [exact Ht|].
  intros p. rewrite Hf. apply replay_content.
Qed.

End StoreWriting.

(** C7, as stated, fails for a result stamped just before midnight in a
    batch saved just after: the partition of the result's own date gets
    nothing, and the line is in the partition of the day of the write. *)
Lemma late_result_goes_to_next_day :
  ~ (exists content,
       files (snd (save_checks clk_after_midnight data_dir [r_C_late] w_fresh))
         !! checks_path data_dir (date_isoformat (dt_date (checked_at r_C_late)))
       = Some content /\
       holds_line content (check_line r_C_late)) /\
  date_isoformat (dt_date (checked_at r_C_late)) = "2024-02-29" /\
  files (snd (save_checks clk_after_midnight data_dir [r_C_late] w_fresh))
    !! checks_path data_dir "2024-03-01" = Some (check_line r_C_late).
Proof.
  split; [|split; reflexivity].
  intros (content & H & _). vm_compute in H. discriminate H.
Qed.

(* ================================================================== *)
(** * JSON text: decoding what was encoded *)
(* ================================================================== *)

Lemma string_app_cons (c : ascii) (s t : string) :
  String c s +:+ t = String c (s +:+ t).
Proof. reflexivity. Qed.

(** One escaped character is read back as the character. *)
Lemma scanstring_escape_char (c : ascii) (tail : string) :
  scanstring (escape_char c +:+ tail) =
  match scanstring tail with
  | Some (t, rest) => Some (String c t, rest)
  | None => None
  end.
Proof.
  destruct c as [[] [] [] [] [] [] [] []]; reflexivity.
Qed.

Lemma scanstring_escape_string (s rest : string) :
  scanstring (escape_string s +:+ String dquote rest) = Some (s, rest).
Proof.
  induction s as [|c s IH].
  - reflexivity.
  - cbn [escape_string]. rewrite string_app_assoc, scanstring_escape_char.
    now rewrite IH.
Qed.

(** A string value, or a key: the text after the closing quote is left. *)
Lemma scan_encoded_string (s rest : string) :
  exists body,
    encode_basestring s +:+ rest = String dquote body /\
    scanstring body = Some (s, rest).
Proof.
  exists (escape_string s +:+ String dquote rest). split.
  - unfold encode_basestring. cbn [String.append].
    now rewrite string_app_assoc.
  - apply scanstring_escape_string.
Qed.

(** ** Numbers *)

Lemma span_digits_uint (u : Decimal.uint) (rest : string) :
  match rest with String c _ => is_digit c = false | EmptyString => True end ->
  span_digits (NilEmpty.string_of_uint u +:+ rest) =
  (NilEmpty.string_of_uint u, rest).
Proof.
  intros Hrest. induction u as [|u IH|u IH|u IH|u IH|u IH|u IH|u IH|u IH|u IH|u IH];
    cbn [NilEmpty.string_of_uint String.append span_digits];
    try (change (is_digit _) with true; cbv iota; now rewrite IH).
  destruct rest as [|c r]; [reflexivity|].
  cbn [span_digits]. now rewrite Hrest.
Qed.

Lemma uint_val_string_of_uint (u : Decimal.uint) :
  uint_val (NilEmpty.string_of_uint u) = Z.of_uint u.
Proof. unfold uint_val. now rewrite NilEmpty.usu. Qed.

Lemma Z_of_uint_to_uint (p : positive) : Z.of_uint (Pos.to_uint p) = Z.pos p.
Proof.
  unfold Z.of_uint. now rewrite DecimalPos.Unsigned.of_to.
Qed.

(** The decimal digits of a positive number do not start with a zero. *)
Lemma to_uint_head (p : positive) :
  exists c s,
    NilEmpty.string_of_uint (Pos.to_uint p) = String c s /\
    is_digit c = true /\ c <> "0"%char.
Proof.
  assert (Hn : Decimal.unorm (Pos.to_uint p) = Pos.to_uint p).
  { rewrite <- (DecimalPos.Unsigned.to_of (Pos.to_uint p)).
    now rewrite DecimalPos.Unsigned.of_to. }
  assert (Hz : Decimal.nzhead (Pos.to_uint p) <> Decimal.Nil).
  { intros H. apply DecimalFacts.unorm_0 in H. rewrite Hn in H.
    exact (DecimalPos.Unsigned.to_uint_nonzero p H). }
  rewrite <- Hn, (DecimalFacts.unorm_nzhead _ Hz).
  pose proof (DecimalFacts.nzhead_nonzero (Pos.to_uint p)) as Hd.
  destruct (Decimal.nzhead (Pos.to_uint p)) as [|u|u|u|u|u|u|u|u|u|u];
    [contradiction | now destruct (Hd u) | ..];
    eexists _, _; (split; [reflexivity|]); split; (reflexivity || discriminate).
Qed.

Lemma str_of_Z_0 : str_of_Z 0 = "0".
Proof. reflexivity. Qed.

Lemma str_of_Z_pos (p : positive) :
  str_of_Z (Z.pos p) = NilEmpty.string_of_uint (Pos.to_uint p).
Proof.
  unfold str_of_Z, NilZero.string_of_int, NilZero.string_of_uint. cbn [Z.to_int].
  pose proof (DecimalPos.Unsigned.to_uint_nonnil p).
  now destruct (Pos.to_uint p).
Qed.

Lemma str_of_Z_neg (p : positive) :
  str_of_Z (Z.neg p) = String "-" (NilEmpty.string_of_uint (Pos.to_uint p)).
Proof.
  unfold str_of_Z, NilZero.string_of_int, NilZero.string_of_uint. cbn [Z.to_int].
  pose proof (DecimalPos.Unsigned.to_uint_nonnil p).
  now destruct (Pos.to_uint p).
Qed.

Lemma parse_int_part_nonzero (c : ascii) (s : string) :
  c <> "0"%char ->
  parse_int_part (String c s) =
  let '(d, r) := span_digits (String c s) in
  match d with EmptyString => None | _ => Some (d, r) end.
Proof.
  intros Hc.
  destruct c as [[] [] [] [] [] [] [] []]; try reflexivity.
  now destruct Hc.
Qed.

Lemma parse_frac_none (s : string) :
  ends_number s -> parse_frac s = None.
Proof.
  destruct s as [|c r]; [reflexivity|]. intros (_ & Hc & _).
  destruct c as [[] [] [] [] [] [] [] []]; try reflexivity.
  now destruct Hc.
Qed.

Lemma parse_exp_none (s : string) :
  ends_number s -> parse_exp s = None.
Proof.
  destruct s as [|c r]; [reflexivity|]. intros (_ & _ & He & HE).
  unfold parse_exp.
  apply Ascii.eqb_neq in He, HE. now rewrite He, HE.
Qed.

Lemma ends_number_not_digit (s : string) :
  ends_number s ->
  match s with String c _ => is_digit c = false | EmptyString => True end.
Proof. destruct s; [easy|]. now intros (H & _). Qed.

(** The integer part of a number is read back whole. *)
Lemma parse_int_part_str_of_Z (n : Z) (rest : string) :
  0 <= n ->
  match rest with String c _ => is_digit c = false | EmptyString => True end ->
  parse_int_part (str_of_Z n +:+ rest) = Some (str_of_Z n, rest) /\
  uint_val (str_of_Z n) = n.
Proof.
  intros Hn Hrest. destruct n as [|p|p]; [| |lia].
  - split; reflexivity.
  - rewrite str_of_Z_pos.
    destruct (to_uint_head p) as (c & s & E & _ & Hc0).
    split.
    + pose proof (span_digits_uint (Pos.to_uint p) rest Hrest) as Hs.
      rewrite E in Hs |- *. rewrite string_app_cons in Hs |- *.
      rewrite (parse_int_part_nonzero _ _ Hc0), Hs. reflexivity.
    + rewrite uint_val_string_of_uint. apply Z_of_uint_to_uint.
Qed.

Lemma parse_unsigned_int (sg n : Z) (rest : string) :
  0 <= n -> ends_number rest ->
  parse_unsigned sg (str_of_Z n +:+ rest) = Some (JInt (sg * n), rest).
Proof.
  intros Hn Hrest. unfold parse_unsigned.
  destruct (parse_int_part_str_of_Z n rest Hn (ends_number_not_digit _ Hrest))
    as [-> Hv].
  cbn [mbind option_bind]. rewrite (parse_frac_none _ Hrest), (parse_exp_none _ Hrest).
  now rewrite Hv.
Qed.

(** A number that starts with a digit has the sign [1]. *)
Lemma parse_number_digit (c : ascii) (s : string) :
  is_digit c = true ->
  parse_number (String c s) = parse_unsigned 1 (String c s).
Proof.
  intros Hc. destruct c as [[] [] [] [] [] [] [] []]; try reflexivity.
  discriminate Hc.
Qed.

Lemma str_of_Z_nonneg_head (n : Z) :
  0 <= n -> exists c s, str_of_Z n = String c s /\ is_digit c = true.
Proof.
  intros Hn. destruct n as [|p|p]; [| |lia].
  - now exists "0"%char, "".
  - rewrite str_of_Z_pos. destruct (to_uint_head p) as (c & s & E & Hc & _).
    now exists c, s.
Qed.

(** [str(z)] is read back as the [int] [z]. *)
Lemma parse_number_int (z : Z) (rest : string) :
  ends_number rest ->
  parse_number (str_of_Z z +:+ rest) = Some (JInt z, rest).
Proof.
  intros Hrest. destruct (Z_lt_le_dec z 0) as [Hneg|Hpos].
  - destruct z as [|p|p]; try lia.
    rewrite str_of_Z_neg, string_app_cons. cbn [parse_number].
    rewrite <- str_of_Z_pos, parse_unsigned_int by (lia || assumption).
    reflexivity.
  - destruct (str_of_Z_nonneg_head z Hpos) as (c & s & E & Hc).
    pose proof (parse_unsigned_int 1 z rest Hpos Hrest) as H.
    rewrite E in H |- *. rewrite string_app_cons in H |- *.
    rewrite (parse_number_digit _ _ Hc), H. now rewrite Z.mul_1_l.
Qed.

Lemma digit_cases (d : Z) :
  0 <= d < 10 ->
  d = 0 \/ d = 1 \/ d = 2 \/ d = 3 \/ d = 4 \/ d = 5 \/ d = 6 \/ d = 7 \/
  d = 8 \/ d = 9.
Proof. lia. Qed.

Lemma span_digits_digit (c : ascii) (s : string) :
  is_digit c = true ->
  span_digits (String c s) =
  let '(d, r) := span_digits s in (String c d, r).
Proof. intros H. cbn [span_digits]. now rewrite H. Qed.

Lemma span_digits_stop (rest : string) :
  match rest with String c _ => is_digit c = false | EmptyString => True end ->
  span_digits rest = ("", rest).
Proof.
  destruct rest as [|c r]; [reflexivity|].
  intros H. cbn [span_digits]. now rewrite H.
Qed.

Lemma frac_digits_spec (h : Z) (rest : string) :
  0 <= h < 100 ->
  match rest with String c _ => is_digit c = false | EmptyString => True end ->
  span_digits (frac_digits h +:+ rest) = (frac_digits h, rest) /\
  frac_digits h <> "" /\
  uint_val (frac_digits h) * 100 =
    h * 10 ^ Z.of_nat (String.length (frac_digits h)) /\
  (String.length (frac_digits h) = 1 \/ String.length (frac_digits h) = 2)%nat.
Proof.
  intros Hh Hrest.
  pose proof (span_digits_stop rest Hrest) as Hr.
  rewrite (Z.div_mod h 10) by lia.
  assert (Ha : 0 <= h / 10 < 10)
    by (split; [apply Z.div_pos; lia | apply Z.div_lt_upper_bound; lia]).
  assert (Hb : 0 <= h mod 10 < 10) by (apply Z.mod_pos_bound; lia).
  generalize dependent (h mod 10). generalize dependent (h / 10).
  intros a Ha b Hb.
  destruct (digit_cases a Ha) as [->|[->|[->|[->|[->|[->|[->|[->|[->| ->]]]]]]]]];
  destruct (digit_cases b Hb) as [->|[->|[->|[->|[->|[->|[->|[->|[->| ->]]]]]]]]];
  (set (f := frac_digits _); vm_compute in f; subst f);
  (split;
   [repeat (rewrite string_app_cons, span_digits_digit by reflexivity);
    cbn [String.append]; rewrite Hr; reflexivity|]);
  (split; [discriminate|]); split;
  (reflexivity || (now left) || (now right)).
Qed.

Lemma parse_unsigned_float (sg i h : Z) (rest : string) :
  0 <= i -> 0 <= h < 100 -> ends_number rest ->
  parse_unsigned sg (str_of_Z i +:+ String "." (frac_digits h +:+ rest)) =
  Some (JFloat (Qred ((sg * (i * 100 + h)) # 100)), rest).
Proof.
  intros Hi Hh Hrest. unfold parse_unsigned.
  destruct (parse_int_part_str_of_Z i (String "." (frac_digits h +:+ rest)) Hi
              eq_refl) as [-> Hv].
  cbn [mbind option_bind parse_frac].
  destruct (frac_digits_spec h rest Hh (ends_number_not_digit _ Hrest))
    as (-> & Hne & Hval & Hlen).
  destruct (frac_digits h) as [|c fd] eqn:Ef; [contradiction|].
  rewrite (parse_exp_none _ Hrest). cbn [default from_option id].
  apply (f_equal (fun v => Some (JFloat v, rest))). apply Qred_complete.
  rewrite Hv. unfold Qeq, Qmult, Qpower.
  cbn [Qnum Qden].
  destruct Hlen as [Hlen|Hlen]; rewrite Hlen in Hval |- *.
  - change (10 ^ Z.of_nat 1) with 10 in *.
    change (Z.pos (Z.to_pos 10 * 1)) with 10. lia.
  - change (10 ^ Z.of_nat 2) with 100 in *.
    change (Z.pos (Z.to_pos 100 * 1)) with 100. lia.
Qed.

Lemma round_half_even_hundredths (q : Q) :
  round2 q = q -> q = Qred (round_half_even (q * 100) # 100).
Proof. intros H. symmetry. exact H. Qed.

(** [repr] of a float with two decimals is read back as that float. *)
Lemma parse_number_float (q : Q) (rest : string) :
  round2 q = q -> ends_number rest ->
  parse_number (float_repr q +:+ rest) = Some (JFloat q, rest).
Proof.
  intros Hq Hrest. rewrite (round_half_even_hundredths q Hq) at 2.
  unfold float_repr. set (c := round_half_even (q * 100)).
  assert (Hi : 0 <= Z.abs c / 100) by (apply Z.div_pos; lia).
  assert (Hh : 0 <= Z.abs c mod 100 < 100) by (apply Z.mod_pos_bound; lia).
  pose proof (Z.div_mod (Z.abs c) 100 ltac:(lia)) as Hdm.
  rewrite !string_app_assoc. rewrite string_app_cons. cbn ["+:+"] .
  destruct (c <? 0) eqn:Hneg.
  - rewrite string_app_cons. cbn [String.append parse_number].
    rewrite parse_unsigned_float by assumption.
    apply (f_equal (fun v => Some (JFloat (Qred (v # 100)), rest))).
    apply Z.ltb_lt in Hneg. lia.
  - cbn [String.append].
    destruct (str_of_Z_nonneg_head _ Hi) as (d & s & E & Hd).
    pose proof (parse_unsigned_float 1 _ _ rest Hi Hh Hrest) as H.
    rewrite E in H |- *. rewrite string_app_cons in H |- *.
    rewrite (parse_number_digit _ _ Hd), H.
    apply (f_equal (fun v => Some (JFloat (Qred (v # 100)), rest))).
    apply Z.ltb_ge in Hneg. lia.
Qed.

(** ** Values and objects *)

Lemma json_dumps_obj (ms : list (string * json)) :
  json_dumps (JObj ms) = "{" +:+ dumps_members ms +:+ "}".
Proof.
  cbn [json_dumps]. apply (f_equal (fun x => "{" +:+ x +:+ "}")).
  induction ms as [|[k x] ms IH]; [reflexivity|].
  destruct ms as [|m ms]; [reflexivity|].
  change (dumps_members ((k, x) :: m :: ms)) with
    (encode_basestring k +:+ ": " +:+ json_dumps x +:+ ", "
       +:+ dumps_members (m :: ms)).
  now rewrite <- IH.
Qed.

Lemma after_value_ends_number (s : string) : after_value s -> ends_number s.
Proof.
  intros (r & [-> | ->]); cbn; repeat split; discriminate.
Qed.

Lemma after_value_skip_ws (s : string) : after_value s -> skip_ws s = s.
Proof. now intros (r & [-> | ->]). Qed.

Lemma parse_value_number (f : nat) (c : ascii) (t : string) :
  is_digit c = true \/ c = "-"%char ->
  parse_value (S f) (String c t) = parse_number (String c t).
Proof.
  intros H.
  destruct c as [[] [] [] [] [] [] [] []]; try reflexivity;
    destruct H as [H|H]; (discriminate H || (vm_compute in H; discriminate H)).
Qed.

Lemma str_of_Z_head (z : Z) :
  exists c s,
    str_of_Z z = String c s /\ (is_digit c = true \/ c = "-"%char) /\
    is_json_ws c = false.
Proof.
  destruct (Z_lt_le_dec z 0) as [Hneg|Hpos].
  - destruct z as [|p|p]; try lia. rewrite str_of_Z_neg.
    eexists _, _. split; [reflexivity|]. split; [now right|reflexivity].
  - destruct (str_of_Z_nonneg_head z Hpos) as (c & s & E & Hc).
    exists c, s. split; [exact E|]. split; [now left|].
    destruct c as [[] [] [] [] [] [] [] []]; try reflexivity;
      vm_compute in Hc; discriminate Hc.
Qed.

Lemma float_repr_head (q : Q) :
  exists c s,
    float_repr q = String c s /\ (is_digit c = true \/ c = "-"%char) /\
    is_json_ws c = false.
Proof.
  unfold float_repr. destruct (round_half_even (q * 100) <? 0).
  - eexists _, _. split; [reflexivity|]. split; [now right|reflexivity].
  - cbn [String.append].
    destruct (str_of_Z_nonneg_head (Z.abs (round_half_even (q * 100)) / 100))
      as (c & s & E & Hc); [apply Z.div_pos; lia|].
    rewrite E. eexists _, _. split; [reflexivity|]. split; [now left|].
    destruct c as [[] [] [] [] [] [] [] []]; try reflexivity;
      vm_compute in Hc; discriminate Hc.
Qed.

(** The text of a simple value starts with a character that is not white
    space. *)
Lemma simple_head (v : json) :
  simple v -> exists c s, json_dumps v = String c s /\ is_json_ws c = false.
Proof.
  intros [|[]|z|q Hq|s]; cbn [json_dumps].
  - now eexists _, _.
  - now eexists _, _.
  - now eexists _, _.
  - destruct (str_of_Z_head z) as (c & t & E & _ & Hc). now exists c, t.
  - destruct (float_repr_head q) as (c & t & E & _ & Hc). now exists c, t.
  - now eexists _, _.
Qed.

(** A simple value, followed by a comma or a closing brace, is read back
    as it was written. *)
Lemma parse_value_simple (f : nat) (v : json) (tail : string) :
  simple v -> after_value tail ->
  parse_value (S f) (json_dumps v +:+ tail) = Some (v, tail).
Proof.
  intros Hv Htail. pose proof (after_value_ends_number _ Htail) as Hend.
  destruct Hv as [|[]|z|q Hq|s]; cbn [json_dumps].
  - reflexivity.
  - reflexivity.
  - reflexivity.
  - destruct (str_of_Z_head z) as (c & t & E & Hc & _).
    pose proof (parse_number_int z tail Hend) as H.
    rewrite E in H |- *. rewrite string_app_cons in H |- *.
    now rewrite (parse_value_number f c _ Hc).
  - destruct (float_repr_head q) as (c & t & E & Hc & _).
    pose proof (parse_number_float q tail Hq Hend) as H.
    rewrite E in H |- *. rewrite string_app_cons in H |- *.
    now rewrite (parse_value_number f c _ Hc).
  - destruct (scan_encoded_string s tail) as (body & -> & Hb).
    cbn [parse_value]. change (Ascii.eqb dquote dquote) with true. cbv iota.
    now rewrite Hb.
Qed.

Lemma skip_ws_head (c : ascii) (s : string) :
  is_json_ws c = false -> skip_ws (String c s) = String c s.
Proof. intros H. cbn [skip_ws]. now rewrite H. Qed.

Lemma parse_value_simple_fuel (f : nat) (v : json) (tail : string) :
  (0 < f)%nat -> simple v -> after_value tail ->
  parse_value f (json_dumps v +:+ tail) = Some (v, tail).
Proof.
  intros Hf. destruct f as [|f]; [lia|]. apply parse_value_simple.
Qed.

(** One member, and what is left to do after it. *)
Lemma parse_members_step (f : nat) (k : string) (v : json) (tail : string) :
  (0 < f)%nat -> simple v -> after_value tail ->
  parse_members (S f)
    (encode_basestring k +:+ ": " +:+ json_dumps v +:+ tail) =
  match tail with
  | String "}" rest => Some ([(k, v)], rest)
  | String "," r4 =>
      '(ms, rest) ← parse_members f (skip_ws r4); Some ((k, v) :: ms, rest)
  | _ => None
  end.
Proof.
  intros Hf Hv Htail.
  destruct (simple_head v Hv) as (c & t & Ev & Hc).
  destruct (scan_encoded_string k (": " +:+ json_dumps v +:+ tail))
    as (body & -> & Hb).
  cbn [parse_members expect]. change (Ascii.eqb dquote dquote) with true.
  cbn [mbind option_bind]. rewrite Hb.
  cbn [mbind option_bind String.append skip_ws].
  change (is_json_ws ":") with false. cbv iota.
  cbn [expect]. change (Ascii.eqb ":" ":") with true. cbn [mbind option_bind].
  cbn [skip_ws]. change (is_json_ws " ") with true. cbv iota.
  rewrite Ev at 1. rewrite string_app_cons, (skip_ws_head _ _ Hc).
  rewrite <- string_app_cons, <- Ev.
  rewrite (parse_value_simple_fuel f v tail Hf Hv Htail).
  cbn [mbind option_bind]. now rewrite (after_value_skip_ws _ Htail).
Qed.

Lemma dumps_members_cons (k : string) (v : json) (m : string * json)
    (ms : list (string * json)) :
  dumps_members ((k, v) :: m :: ms) =
  encode_basestring k +:+ ": " +:+ json_dumps v +:+ ", "
    +:+ dumps_members (m :: ms).
Proof. reflexivity. Qed.

Lemma dumps_members_head (m : string * json) (ms : list (string * json))
    (rest : string) :
  exists body, dumps_members (m :: ms) +:+ rest = String dquote body.
Proof.
  destruct m as [k v]. destruct ms as [|m' ms'];
    cbn [dumps_members]; rewrite ?string_app_assoc;
    unfold encode_basestring; cbn [String.append]; eauto.
Qed.

(** The members of an object of simple values are read back in order. *)
Lemma parse_members_dumps (ms : list (string * json)) :
  forall (f : nat) (rest : string),
    ms <> [] -> Forall (fun m => simple (snd m)) ms ->
    (length ms < f)%nat ->
    parse_members f (dumps_members ms +:+ String "}" rest) = Some (ms, rest).
Proof.
  induction ms as [|[k v] ms IH]; intros f rest Hne Hall Hf; [contradiction|].
  apply Forall_cons in Hall as [Hv Hall]. cbn [snd] in Hv.
  destruct f as [|f]; [lia|]. cbn [length] in Hf.
  destruct ms as [|m ms].
  - cbn [dumps_members]. rewrite !string_app_assoc.
    rewrite parse_members_step;
      [reflexivity | lia | assumption | exists rest; now right].
  - rewrite dumps_members_cons, !string_app_assoc.
    rewrite parse_members_step;
      [| cbn [length] in Hf; lia | assumption | eexists; now left].
    cbn [String.append skip_ws]. change (is_json_ws " ") with true. cbv iota.
    destruct (dumps_members_head m ms (String "}" rest)) as (body & Hq).
    rewrite Hq, (skip_ws_head dquote body eq_refl), <- Hq.
    rewrite IH; [reflexivity | discriminate | assumption | lia].
Qed.

Lemma string_length_app (a b : string) :
  String.length (a +:+ b) = (String.length a + String.length b)%nat.
Proof. induction a as [|c a IH]; cbn; congruence. Qed.

Lemma dumps_members_length (ms : list (string * json)) :
  (length ms <= String.length (dumps_members ms))%nat.
Proof.
  induction ms as [|[k v] ms IH]; [cbn; lia|].
  destruct ms as [|m ms].
  - cbn [dumps_members length]. unfold encode_basestring.
    cbn [String.append String.length]. lia.
  - rewrite dumps_members_cons. unfold encode_basestring.
    cbn [String.append String.length]. cbn [length] in IH |- *.
    rewrite !string_length_app. cbn [String.length].
    rewrite !string_length_app. cbn [String.length]. lia.
Qed.

(** An object of simple values is read back as it was written. *)
Lemma json_loads_dumps_object (ms : list (string * json)) :
  Forall (fun m => simple (snd m)) ms ->
  json_loads (json_dumps (JObj ms)) = Ok (JObj ms).
Proof.
  intros Hall. rewrite json_dumps_obj. unfold json_loads.
  cbn [String.append skip_ws String.length]. change (is_json_ws "{") with false.
  cbv iota. cbn [parse_value]. change (Ascii.eqb "{" dquote) with false.
  change (Ascii.eqb "{" "{") with true. cbv iota.
  destruct ms as [|m ms]; [reflexivity|].
  destruct (dumps_members_head m ms "}") as (body & Hq).
  assert (Hs : skip_ws (dumps_members (m :: ms) +:+ "}") = String dquote body)
    by (rewrite Hq; now apply skip_ws_head).
  rewrite Hs. unfold dquote at 1. cbv iota. fold dquote.
  rewrite <- Hq, parse_members_dumps; [reflexivity | discriminate | assumption |].
  rewrite string_length_app. pose proof (dumps_members_length (m :: ms)).
  cbn [String.length]. lia.
Qed.

(** ** Lines *)

Lemma no_newline_app (a b : string) :
  no_newline (a +:+ b) = no_newline a && no_newline b.
Proof.
  induction a as [|c a IH]; [reflexivity|].
  cbn [String.append no_newline]. rewrite IH. now rewrite andb_assoc.
Qed.

Lemma no_newline_escape_string (s : string) : no_newline (escape_string s) = true.
Proof.
  induction s as [|c s IH]; [reflexivity|].
  cbn [escape_string]. rewrite no_newline_app, IH, andb_true_r.
  destruct c as [[] [] [] [] [] [] [] []]; reflexivity.
Qed.

Lemma no_newline_encode (s : string) : no_newline (encode_basestring s) = true.
Proof.
  unfold encode_basestring. cbn [no_newline].
  now rewrite no_newline_app, no_newline_escape_string.
Qed.

Lemma no_newline_uint (u : Decimal.uint) :
  no_newline (NilEmpty.string_of_uint u) = true.
Proof.
  induction u; cbn [NilEmpty.string_of_uint no_newline]; try rewrite IHu;
    reflexivity.
Qed.

Lemma no_newline_str_of_Z (z : Z) : no_newline (str_of_Z z) = true.
Proof.
  destruct z as [|p|p].
  - reflexivity.
  - rewrite str_of_Z_pos. apply no_newline_uint.
  - rewrite str_of_Z_neg. cbn [no_newline]. now rewrite no_newline_uint.
Qed.

Lemma no_newline_digit_char (d : Z) :
  0 <= d < 10 -> is_newline (digit_char d) = false.
Proof.
  intros H.
  destruct (digit_cases d H) as [->|[->|[->|[->|[->|[->|[->|[->|[->| ->]]]]]]]]];
    reflexivity.
Qed.

Lemma no_newline_pad_digits (w : nat) (n : Z) :
  no_newline (pad_digits w n) = true.
Proof.
  induction w as [|w IH]; [reflexivity|].
  cbn [pad_digits no_newline]. rewrite IH, andb_true_r.
  rewrite no_newline_digit_char; [reflexivity|].
  apply Z.mod_pos_bound. lia.
Qed.

Lemma no_newline_frac_digits (h : Z) :
  0 <= h < 100 -> no_newline (frac_digits h) = true.
Proof.
  intros Hh. unfold frac_digits. destruct (h mod 10 =? 0).
  - cbn [no_newline]. rewrite no_newline_digit_char; [reflexivity|].
    split; [apply Z.div_pos; lia | apply Z.div_lt_upper_bound; lia].
  - apply no_newline_pad_digits.
Qed.

Lemma no_newline_float_repr (q : Q) : no_newline (float_repr q) = true.
Proof.
  unfold float_repr. rewrite !no_newline_app, no_newline_str_of_Z.
  rewrite no_newline_frac_digits by (apply Z.mod_pos_bound; lia).
  now destruct (_ <? 0).
Qed.

Lemma no_newline_simple (v : json) : simple v -> no_newline (json_dumps v) = true.
Proof.
  intros [|[]|z|q Hq|s]; cbn [json_dumps];
    auto using no_newline_str_of_Z, no_newline_float_repr, no_newline_encode.
Qed.

Lemma no_newline_members (ms : list (string * json)) :
  Forall (fun m => simple (snd m)) ms -> no_newline (dumps_members ms) = true.
Proof.
  induction ms as [|[k v] ms IH]; intros Hall; [reflexivity|].
  apply Forall_cons in Hall as [Hv Hall]. cbn [snd] in Hv.
  destruct ms as [|m ms].
  - cbn [dumps_members].
    now rewrite !no_newline_app, no_newline_encode, no_newline_simple.
  - rewrite dumps_members_cons, !no_newline_app, no_newline_encode,
      no_newline_simple, IH by assumption. reflexivity.
Qed.

(** The text of an object of simple values fits on one line. *)
Lemma no_newline_object (ms : list (string * json)) :
  Forall (fun m => simple (snd m)) ms ->
  no_newline (json_dumps (JObj ms)) = true.
Proof.
  intros Hall. rewrite json_dumps_obj, !no_newline_app, no_newline_members
    by assumption. reflexivity.
Qed.

Lemma split_lines_line (l rest : string) :
  no_newline l = true ->
  split_lines (l +:+ newline +:+ rest) = l :: split_lines rest.
Proof.
  induction l as [|c l IH]; intros Hl.
  - reflexivity.
  - cbn [no_newline] in Hl. apply andb_true_iff in Hl as [Hc Hl].
    apply negb_true_iff in Hc.
    cbn [String.append split_lines]. rewrite Hc.
    change (l +:+ String "010" rest) with (l +:+ newline +:+ rest).
    now rewrite (IH Hl).
Qed.

Lemma split_lines_text (ls : list string) :
  Forall (fun l => no_newline l = true) ls ->
  split_lines (lines_text ls) = ls ++ [""].
Proof.
  unfold lines_text, join.
  induction ls as [|l ls IH]; intros Hall; [reflexivity|].
  apply Forall_cons in Hall as [Hl Hall].
  cbn [map foldr]. rewrite string_app_assoc, split_lines_line by assumption.
  now rewrite IH.
Qed.

Lemma lines_text_snoc (ls : list string) (l : string) :
  lines_text ls +:+ l +:+ newline = lines_text (ls ++ [l]).
Proof.
  unfold lines_text, join. induction ls as [|x ls IH].
  - cbn. now rewrite string_app_nil_r.
  - cbn [map foldr app]. now rewrite string_app_assoc, IH.
Qed.

Lemma parse_lines_app (a b : list string) :
  parse_lines (a ++ b) =
  match parse_lines a with
  | Ok xs =>
      match parse_lines b with
      | Ok ys => Ok (xs ++ ys)
      | Raise e => Raise e
      end
  | Raise e => Raise e
  end.
Proof.
  induction a as [|l a IH]; cbn [app parse_lines].
  - now destruct (parse_lines b).
  - destruct (is_blank l); [exact IH|].
    destruct (json_loads l) as [c|e]; [|reflexivity].
    rewrite IH. destruct (parse_lines a) as [xs|e]; [|reflexivity].
    now destruct (parse_lines b).
Qed.

(* ================================================================== *)
(** * Timestamps: reading back what [isoformat] wrote *)
(* ================================================================== *)

Lemma digit_char_spec (d : Z) :
  0 <= d < 10 -> is_digit (digit_char d) = true /\ digit_val (digit_char d) = d.
Proof.
  intros H.
  destruct (digit_cases d H) as [->|[->|[->|[->|[->|[->|[->|[->|[->| ->]]]]]]]]];
    split; reflexivity.
Qed.

Lemma take_digits_pad (w : nat) : forall (n acc : Z) (rest : string),
  0 <= n ->
  take_digits w acc (pad_digits w n +:+ rest) =
  Some (acc * 10 ^ Z.of_nat w + n mod 10 ^ Z.of_nat w, rest).
Proof.
  induction w as [|w IH]; intros n acc rest Hn.
  - cbn. f_equal. f_equal. rewrite Z.mod_1_r. lia.
  - cbn [pad_digits String.append take_digits].
    assert (Hd : 0 <= n / 10 ^ Z.of_nat w mod 10 < 10)
      by (apply Z.mod_pos_bound; lia).
    destruct (digit_char_spec _ Hd) as [-> ->].
    rewrite IH by assumption. f_equal. f_equal.
    rewrite Nat2Z.inj_succ, Z.pow_succ_r by lia.
    rewrite (Z.mul_comm 10 (10 ^ Z.of_nat w)).
    rewrite Z.rem_mul_r by lia. lia.
Qed.

Lemma take_digits_pad_small (w : nat) (n : Z) (rest : string) :
  0 <= n < 10 ^ Z.of_nat w ->
  take_digits w 0 (pad_digits w n +:+ rest) = Some (n, rest).
Proof.
  intros Hn. rewrite take_digits_pad by lia.
  now rewrite Z.mod_small by lia.
Qed.

Lemma pad_digits_length (w : nat) (n : Z) : String.length (pad_digits w n) = w.
Proof. induction w as [|w IH]; cbn [pad_digits String.length]; congruence. Qed.

Lemma dt_valid_bounds (t : datetime) :
  dt_valid t = true ->
  1 <= year t <= 9999 /\ 1 <= month t <= 12 /\ 1 <= day t <= 31 /\
  0 <= hour t < 24 /\ 0 <= minute t < 60 /\ 0 <= second t < 60 /\
  0 <= microsecond t < 1000000.
Proof.
  unfold dt_valid. rewrite !andb_true_iff.
  intros [[[[[[[[[[[[[H1 H2] H3] H4] H5] H6] H7] H8] H9] H10] H11] H12] H13] H14].
  assert (days_in_month (year t) (month t) <= 31).
  { unfold days_in_month. repeat destruct (_ =? _); cbn; try lia.
    destruct (is_leap _); cbn; lia. }
  lia.
Qed.

(** [fromisoformat] reads back what [isoformat] wrote. *)
Lemma fromisoformat_isoformat (t : datetime) :
  dt_valid t = true -> fromisoformat (isoformat t) = Ok t.
Proof.
  intros Hv. pose proof (dt_valid_bounds t Hv) as (Hy & Hm & Hd & Hh & Hmi & Hs & Hu).
  unfold fromisoformat, isoformat, date_isoformat, parse_isoformat_date, dt_date.
  cbn [d_year d_month d_day]. rewrite !string_app_assoc.
  rewrite take_digits_pad_small by (cbn; lia). cbn [mbind option_bind].
  cbn [String.append expect]. change (Ascii.eqb "-" "-") with true.
  cbn [mbind option_bind].
  rewrite take_digits_pad_small by (cbn; lia). cbn [mbind option_bind].
  cbn [String.append expect]. change (Ascii.eqb "-" "-") with true.
  cbn [mbind option_bind].
  rewrite take_digits_pad_small by (cbn; lia). cbn [mbind option_bind].
  cbn [String.append d_year d_month d_day].
  set (tstr := pad_digits 2 (hour t) +:+ _).
  assert (Htime : parse_hh_mm_ss_ff tstr =
                  Some (hour t, minute t, second t, microsecond t)).
  { subst tstr. unfold parse_hh_mm_ss_ff.
    rewrite take_digits_pad_small by (cbn; lia). cbn [mbind option_bind].
    cbn [String.append]. change (Ascii.eqb ":" ":") with true. cbn [negb].
    rewrite take_digits_pad_small by (cbn; lia). cbn [mbind option_bind].
    cbn [String.append]. change (Ascii.eqb ":" ":") with true. cbn [negb].
    destruct (microsecond t =? 0) eqn:Eus.
    - apply Z.eqb_eq in Eus. rewrite Eus.
      rewrite <- (string_app_nil_r (pad_digits 2 (second t))) at 1.
      rewrite string_app_assoc.
      rewrite take_digits_pad_small by (cbn; lia). reflexivity.
    - rewrite take_digits_pad_small by (cbn; lia). cbn [mbind option_bind].
      cbn [String.append]. change (Ascii.eqb "." ".") with true. cbn [negb].
      unfold parse_fraction. rewrite pad_digits_length.
      rewrite <- (string_app_nil_r (pad_digits 6 (microsecond t))).
      rewrite take_digits_pad_small by (cbn; lia). reflexivity. }
  assert (Hne : tstr <> "").
  { subst tstr. cbn [pad_digits String.append]. discriminate. }
  destruct tstr as [|c0 ts]; [contradiction|].
  rewrite Htime. destruct t as [y m d h mi s us]. cbn in *. now rewrite Hv.
Qed.

(* ================================================================== *)
(** * Properties of the Check Store: the round trip *)
(* ================================================================== *)

Lemma round_half_even_Z (q : Q) (c : Z) :
  (q == inject_Z c)%Q -> round_half_even q = c.
Proof.
  intros Hq. unfold round_half_even.
  assert (Hf : Qfloor q = c) by (rewrite Hq; apply Qfloor_Z).
  rewrite Hf.
  assert (Hc : (q - inject_Z c ?= 1 # 2)%Q = Lt).
  { rewrite Hq.
    unfold Qcompare, Qminus, Qplus, Qopp, inject_Z. cbn [Qnum Qden].
    apply Z.compare_lt_iff. lia. }
  now rewrite Hc.
Qed.

(** Rounding to two decimals twice is rounding once: every latency the
    Probe stores has two decimals. *)
Lemma round2_idempotent (q : Q) : round2 (round2 q) = round2 q.
Proof.
  unfold round2 at 1.
  rewrite (round_half_even_Z (round2 q * 100) (round_half_even (q * 100)));
    [reflexivity|].
  unfold round2. rewrite Qred_correct.
  unfold Qeq, Qmult, inject_Z. cbn [Qnum Qden]. lia.
Qed.

Lemma check_endpoint_two_decimals (ep : Endpoint) (o : Observation) :
  round2 (response_time_ms (check_endpoint ep o)) =
  response_time_ms (check_endpoint ep o).
Proof.
  unfold check_endpoint.
  destruct (outcome o); cbn [response_time_ms]; apply round2_idempotent.
Qed.

Lemma check_record_simple (r : CheckResult) :
  round2 (response_time_ms r) = response_time_ms r ->
  exists ms,
    check_record r = JObj ms /\ Forall (fun m => simple (snd m)) ms.
Proof.
  intros Hq. eexists. split; [reflexivity|].
  repeat constructor; cbn [snd]; try assumption.
  - destruct (status_code r); constructor.
  - destruct (error r); constructor.
Qed.

Lemma is_blank_object (ms : list (string * json)) :
  is_blank (json_dumps (JObj ms)) = false.
Proof. now rewrite json_dumps_obj. Qed.

Section StoreRoundTrip.

Variable clk : Clock.
Variable DATA_DIR : string.

(** A result whose latency has two decimals, appended to a partition
    made of whole lines, is read back from that partition after the
    records that were already there, as the very record that was written;
    the fields of that record are the fields of the result, and its
    timestamp text is read back as the result's timestamp. *)
Theorem save_then_load_round_trip (r : CheckResult) (w : World)
    (lines : list string) (before : list json) :
  round2 (response_time_ms r) = response_time_ms r ->
  default ""
    (files w !! checks_path DATA_DIR (date_isoformat (today_at clk (ticks w)))) =
    lines_text lines ->
  Forall (fun l => no_newline l = true) lines ->
  parse_lines lines = Ok before ->
  fst (load_checks_for_date DATA_DIR
         (date_isoformat (today_at clk (ticks w)))
         (snd (save_check clk DATA_DIR r w))) =
    Ok (before ++ [check_record r]) /\
  getitem (check_record r) "url" = Ok (JStr (url r)) /\
  getitem (check_record r) "status" = Ok (JStr (status_value (status r))) /\
  getitem (check_record r) "status_code" = Ok (json_opt JInt (status_code r)) /\
  getitem (check_record r) "response_time_ms" =
    Ok (JFloat (response_time_ms r)) /\
  getitem (check_record r) "error" = Ok (json_opt JStr (error r)) /\
  (dt_valid (checked_at r) = true ->
   check_time (check_record r) = Ok (checked_at r)).
Proof.
  intros Hq Hold Hlines Hbefore.
  split; [|repeat split; try reflexivity].
  - rewrite save_check_unfold. cbv zeta.
    unfold load_checks_for_date, bind, read_file, lift, ret.
    cbn [fst snd files]. rewrite lookup_insert_eq. cbn [fst].
    rewrite Hold. unfold check_line. rewrite lines_text_snoc.
    destruct (check_record_simple r Hq) as (ms & Hrec & Hsimple).
    rewrite split_lines_text.
    2:{ apply Forall_app. split; [assumption|]. constructor; [|constructor].
        rewrite Hrec. now apply no_newline_object. }
    rewrite <- app_assoc, parse_lines_app, Hbefore.
    cbn [app parse_lines]. rewrite Hrec, is_blank_object.
    rewrite json_loads_dumps_object by assumption. reflexivity.
  - intros Hv. unfold check_time. cbn [sort_key]. now apply fromisoformat_isoformat.
Qed.

End StoreRoundTrip.

Lemma save_then_load_round_trip_witness :
  fst (load_checks_for_date data_dir "2024-03-01"
         (snd (save_check clk_utc data_dir r_C_down w_fresh))) =
    Ok [check_record r_C_down] /\
  check_time (check_record r_C_down) = Ok t_0.
Proof.
  pose proof (save_then_load_round_trip clk_utc data_dir r_C_down w_fresh [] [])
    as H.
  destruct H as (H1 & _ & _ & _ & _ & _ & H2);
    [reflexivity | reflexivity | constructor | reflexivity |].
  split; [exact H1|]. apply H2. reflexivity.
Defined.

(* ================================================================== *)
(** * Properties of the Check Store: the window *)
(* ================================================================== *)

(** ** The final sort *)

Lemma string_ltb_leb (a b : string) : String.ltb a b = true -> String.leb a b = true.
Proof.
  unfold String.ltb, String.leb. now destruct (String.compare a b).
Qed.

Lemma string_not_ltb_leb (a b : string) :
  String.ltb a b = false -> String.leb b a = true.
Proof.
  unfold String.ltb, String.leb. rewrite (String.compare_antisym a b).
  now destruct (String.compare b a).
Qed.

Lemma string_leb_trans (a b c : string) :
  String.leb a b = true -> String.leb b c = true -> String.leb a c = true.
Proof.
  intros H1 H2.
  assert (Ha : String.le a b) by (unfold String.le; now rewrite H1).
  assert (Hb : String.le b c) by (unfold String.le; now rewrite H2).
  pose proof (transitivity Ha Hb) as Hc. unfold String.le in Hc.
  now destruct (String.leb a c).
Qed.

Section SortDesc.
Context {A : Type}.
Implicit Types (x : string * A) (l : list (string * A)).

Lemma insert_desc_perm x l : Permutation (x :: l) (insert_desc x l).
Proof.
  induction l as [|y l IH]; cbn [insert_desc]; [reflexivity|].
  destruct (String.ltb (fst x) (fst y)); [|reflexivity].
  rewrite perm_swap. now apply perm_skip.
Qed.

Lemma sort_desc_perm l : Permutation l (sort_desc l).
Proof.
  unfold sort_desc. induction l as [|x l IH]; cbn [foldr]; [reflexivity|].
  rewrite <- insert_desc_perm. now apply perm_skip.
Qed.

Lemma insert_desc_sorted x l :
  StronglySorted (key_desc (A:=A)) l ->
  StronglySorted (key_desc (A:=A)) (insert_desc x l).
Proof.
  induction 1 as [|y l Hs IH Hy]; cbn [insert_desc].
  - repeat constructor.
  - destruct (String.ltb (fst x) (fst y)) eqn:E.
    + constructor; [exact IH|].
      rewrite <- (insert_desc_perm x l). constructor; [|exact Hy].
      unfold key_desc. now apply string_ltb_leb.
    + apply string_not_ltb_leb in E.
      constructor; [now constructor|].
      constructor; [exact E|].
      eapply Forall_impl; [exact Hy|].
      intros z Hz. unfold key_desc in *. eapply string_leb_trans; eassumption.
Qed.

Lemma sort_desc_sorted l : StronglySorted (key_desc (A:=A)) (sort_desc l).
Proof.
  unfold sort_desc. induction l as [|x l IH]; cbn [foldr].
  - constructor.
  - now apply insert_desc_sorted.
Qed.

End SortDesc.

(** ** The text of a timestamp orders as the timestamp *)

Lemma ascii_compare_digit (a b : Z) :
  0 <= a < 10 -> 0 <= b < 10 ->
  Ascii.compare (digit_char a) (digit_char b) = (a ?= b).
Proof.
  intros Ha Hb.
  destruct (digit_cases a Ha) as [->|[->|[->|[->|[->|[->|[->|[->|[->| ->]]]]]]]]];
  destruct (digit_cases b Hb) as [->|[->|[->|[->|[->|[->|[->|[->|[->| ->]]]]]]]]];
  reflexivity.
Qed.

Lemma string_compare_cons (c : ascii) (s s' : string) :
  String.compare (String c s) (String c s') = String.compare s s'.
Proof.
  cbn [String.compare]. unfold Ascii.compare. now rewrite N.compare_refl.
Qed.

Lemma string_compare_pad (w : nat) : forall (x y : Z) (s s' : string),
  0 <= x -> 0 <= y ->
  String.compare (pad_digits w x +:+ s) (pad_digits w y +:+ s') =
  match x mod 10 ^ Z.of_nat w ?= y mod 10 ^ Z.of_nat w with
  | Eq => String.compare s s'
  | c => c
  end.
Proof.
  induction w as [|w IH]; intros x y s s' Hx Hy.
  - cbn [pad_digits String.append]. now rewrite !Z.mod_1_r.
  - cbn [pad_digits String.append String.compare].
    assert (Hp : 0 < 10 ^ Z.of_nat w) by (apply Z.pow_pos_nonneg; lia).
    assert (Hdx : 0 <= x / 10 ^ Z.of_nat w mod 10 < 10)
      by (apply Z.mod_pos_bound; lia).
    assert (Hdy : 0 <= y / 10 ^ Z.of_nat w mod 10 < 10)
      by (apply Z.mod_pos_bound; lia).
    assert (Hlx : 0 <= x mod 10 ^ Z.of_nat w < 10 ^ Z.of_nat w)
      by (apply Z.mod_pos_bound; lia).
    assert (Hly : 0 <= y mod 10 ^ Z.of_nat w < 10 ^ Z.of_nat w)
      by (apply Z.mod_pos_bound; lia).
    rewrite (ascii_compare_digit _ _ Hdx Hdy), IH by assumption.
    rewrite Nat2Z.inj_succ, Z.pow_succ_r by lia.
    rewrite (Z.mul_comm 10 (10 ^ Z.of_nat w)).
    rewrite !Z.rem_mul_r by lia.
    set (p := 10 ^ Z.of_nat w) in *.
    set (dx := x / p mod 10) in *. set (dy := y / p mod 10) in *.
    set (lx := x mod p) in *. set (ly := y mod p) in *.
    destruct (Z.compare_spec dx dy) as [E|E|E].
    + rewrite E, (Z.add_comm lx), (Z.add_comm ly), Z.add_compare_mono_l.
      reflexivity.
    + assert (H : lx + p * dx < ly + p * dy) by nia.
      apply Z.compare_lt_iff in H. now rewrite H.
    + assert (H : ly + p * dy < lx + p * dx) by nia.
      apply Z.compare_gt_iff in H. now rewrite H.
Qed.

Lemma string_compare_pad_small (w : nat) (x y : Z) (s s' : string) :
  0 <= x < 10 ^ Z.of_nat w -> 0 <= y < 10 ^ Z.of_nat w ->
  String.compare (pad_digits w x +:+ s) (pad_digits w y +:+ s') =
  match x ?= y with
  | Eq => String.compare s s'
  | c => c
  end.
Proof.
  intros Hx Hy. rewrite string_compare_pad by lia.
  now rewrite !Z.mod_small by lia.
Qed.

(** On valid timestamps, the order of the [isoformat] texts is the order
    of the timestamps. *)
Lemma isoformat_compare (a b : datetime) :
  dt_valid a = true -> dt_valid b = true ->
  String.compare (isoformat a) (isoformat b) = dt_compare a b.
Proof.
  intros Ha Hb.
  pose proof (dt_valid_bounds a Ha) as (Hy & Hm & Hd & Hh & Hmi & Hs & Hu).
  pose proof (dt_valid_bounds b Hb) as (Hy' & Hm' & Hd' & Hh' & Hmi' & Hs' & Hu').
  unfold isoformat, date_isoformat, dt_date, dt_compare, dt_fields.
  cbn [d_year d_month d_day lex_compare]. rewrite !string_app_assoc.
  rewrite string_compare_pad_small by (cbn; lia).
  destruct (year a ?= year b); [|reflexivity..].
  cbn [String.append]. rewrite string_compare_cons.
  rewrite string_compare_pad_small by (cbn; lia).
  destruct (month a ?= month b); [|reflexivity..].
  cbn [String.append]. rewrite string_compare_cons.
  rewrite string_compare_pad_small by (cbn; lia).
  destruct (day a ?= day b); [|reflexivity..].
  cbn [String.append]. rewrite string_compare_cons.
  rewrite string_compare_pad_small by (cbn; lia).
  destruct (hour a ?= hour b); [|reflexivity..].
  cbn [String.append]. rewrite string_compare_cons.
  rewrite string_compare_pad_small by (cbn; lia).
  destruct (minute a ?= minute b); [|reflexivity..].
  cbn [String.append]. rewrite string_compare_cons.
  rewrite string_compare_pad_small by (cbn; lia).
  destruct (second a ?= second b); [|reflexivity..].
  destruct (Z.eqb_spec (microsecond a) 0) as [Ea|Ea];
    destruct (Z.eqb_spec (microsecond b) 0) as [Eb|Eb].
  - now rewrite Ea, Eb.
  - rewrite Ea. cbn [String.append String.compare].
    assert (H : 0 < microsecond b) by lia.
    apply Z.compare_lt_iff in H. now rewrite H.
  - rewrite Eb. cbn [String.append String.compare].
    assert (H : 0 < microsecond a) by lia.
    apply Z.compare_gt_iff in H. now rewrite H.
  - cbn [String.append]. rewrite string_compare_cons.
    rewrite <- (string_app_nil_r (pad_digits 6 (microsecond a))).
    rewrite <- (string_app_nil_r (pad_digits 6 (microsecond b))).
    rewrite string_compare_pad_small by (cbn; lia).
    now destruct (microsecond a ?= microsecond b).
Qed.

Lemma isoformat_leb (a b : datetime) :
  dt_valid a = true -> dt_valid b = true ->
  String.leb (isoformat a) (isoformat b) = dt_leb a b.
Proof.
  intros Ha Hb. unfold String.leb, dt_leb.
  now rewrite isoformat_compare.
Qed.

(** ** Reading the window *)

Lemma StronglySorted_map_impl {A B} (R : A -> A -> Prop) (R' : B -> B -> Prop)
    (P : A -> Prop) (f : A -> B) (l : list A) :
  (forall a b, P a -> P b -> R a b -> R' (f a) (f b)) ->
  StronglySorted R l -> Forall P l -> StronglySorted R' (map f l).
Proof.
  intros Himp Hs. induction Hs as [|a l Hs IH Ha]; intros HP; cbn [map].
  - constructor.
  - apply Forall_cons in HP as [Pa Pl]. constructor; [now apply IH|].
    rewrite List.Forall_forall in *. intros y Hy.
    apply in_map_iff in Hy as (b & <- & Hb). auto.
Qed.

Lemma map_result_keys (checks : list json) :
  Forall has_time checks ->
  exists keyed,
    map_result (fun c => match sort_key c with
                         | Ok k => Ok (k, c)
                         | Raise e => Raise e
                         end) checks = Ok keyed /\
    map snd keyed = checks /\
    Forall (fun kc => sort_key (snd kc) = Ok (fst kc)) keyed.
Proof.
  induction 1 as [|c checks (t & Ht) _ (keyed & Hk & Hm & Hf)].
  - exists []. repeat split. constructor.
  - unfold check_time in Ht. destruct (sort_key c) as [k|e] eqn:Ek;
      [|discriminate].
    exists ((k, c) :: keyed). cbn [map_result]. rewrite Ek, Hk.
    repeat split; [cbn; now rewrite Hm|]. now constructor.
Qed.

Lemma has_time_filter (cutoff : datetime) (l : list json) :
  Forall has_time l -> Forall has_time (List.filter (recent cutoff) l).
Proof.
  rewrite !List.Forall_forall. intros H c Hc. apply filter_In in Hc as [Hc _]. auto.
Qed.

(** The final sort returns its input, most recent timestamp text first. *)
Lemma sorted_by_checked_at_desc_spec (checks : list json) :
  Forall has_time checks ->
  exists L,
    sorted_by_checked_at_desc checks = Ok L /\
    Permutation L checks /\ StronglySorted stamp_desc L.
Proof.
  intros Hall. destruct (map_result_keys checks Hall) as (keyed & Hk & Hm & Hf).
  exists (map snd (sort_desc keyed)). unfold sorted_by_checked_at_desc.
  rewrite Hk. split; [reflexivity|]. split.
  - rewrite <- Hm. apply Permutation_map. symmetry. apply sort_desc_perm.
  - apply (StronglySorted_map_impl key_desc stamp_desc
             (fun kc => sort_key (snd kc) = Ok (fst kc)) snd).
    + intros a b Ha Hb Hab. now exists (fst a), (fst b).
    + apply sort_desc_sorted.
    + rewrite List.Forall_forall in *. intros kc Hkc. apply Hf.
      eapply Permutation_in; [symmetry; apply sort_desc_perm|exact Hkc].
Qed.

Lemma stamp_desc_time_desc (a b : json) :
  stamped_by_isoformat a -> stamped_by_isoformat b ->
  stamp_desc a b -> time_desc a b.
Proof.
  intros (ta & Hva & Ha) (tb & Hvb & Hb) (ka & kb & Hka & Hkb & Hle).
  rewrite Ha in Hka. rewrite Hb in Hkb.
  injection Hka as <-. injection Hkb as <-.
  exists ta, tb. unfold check_time. rewrite Ha, Hb.
  rewrite !fromisoformat_isoformat by assumption.
  repeat split. now rewrite <- isoformat_leb.
Qed.

Lemma result_bind_Ok {A B} (m : result A) (f : A -> result B) (y : B) :
  m ≫= f = Ok y -> exists x, m = Ok x /\ f x = Ok y.
Proof. destruct m as [x|e]; [|discriminate]. intros H. now exists x. Qed.

Lemma keep_if_recent_unfold (cutoff : datetime) (c : json) (checks : list json)
    (w : World) :
  keep_if_recent cutoff c checks w =
  match check_time c with
  | Ok t => (Ok (if dt_leb cutoff t then checks ++ [c] else checks), w)
  | Raise e => (Raise e, w)
  end.
Proof.
  unfold keep_if_recent, check_time, sort_key, bind, lift, ret.
  cbn [mbind result_bind].
  destruct (getitem c "checked_at") as [v|e]; [|reflexivity].
  cbn. destruct (as_str v) as [s|e]; [|reflexivity].
  destruct (fromisoformat s) as [t|e]; [|reflexivity].
  now destruct (dt_leb cutoff t).
Qed.

Lemma keep_loop (cutoff : datetime) (day : list json) :
  Forall has_time day ->
  forall checks w,
    for_each (keep_if_recent cutoff) day checks w =
    (Ok (checks ++ List.filter (recent cutoff) day), w).
Proof.
  induction 1 as [|c day (t & Ht) _ IH]; intros checks w.
  - cbn. now rewrite app_nil_r.
  - cbn [for_each List.filter]. unfold bind.
    rewrite keep_if_recent_unfold. unfold recent at 1. rewrite Ht.
    destruct (dt_leb cutoff t); rewrite IH; [|reflexivity].
    now rewrite <- app_assoc.
Qed.

Section StoreWindow.

Variable clk : Clock.
Variable DATA_DIR : string.

(** Loading a partition reads the files and changes nothing. *)
Lemma load_checks_for_date_reads (d : string) (w w1 : World) :
  files w1 = files w ->
  load_checks_for_date DATA_DIR d w1 =
  (fst (load_checks_for_date DATA_DIR d w), w1).
Proof.
  intros Hf. unfold load_checks_for_date, bind, read_file, lift, ret.
  rewrite Hf. now destruct (files w !! checks_path DATA_DIR d).
Qed.

Lemma load_checks_for_date_missing (d : string) (w : World) :
  files w !! checks_path DATA_DIR d = None ->
  fst (load_checks_for_date DATA_DIR d w) = Ok [].
Proof.
  intros Hf. unfold load_checks_for_date, bind, read_file, lift, ret.
  now rewrite Hf.
Qed.

Lemma load_day_unfold (now : datetime) (hours k : Z) (checks : list json)
    (w0 w : World) (d cutoff : datetime) (day : list json) :
  files w = files w0 ->
  days_before now k = Ok d ->
  hours_before now hours = Ok cutoff ->
  fst (load_checks_for_date DATA_DIR (date_isoformat (dt_date d)) w0) = Ok day ->
  Forall has_time day ->
  load_day DATA_DIR now hours k checks w =
  (Ok (checks ++ List.filter (recent cutoff) day), w).
Proof.
  intros Hf Hd Hc Hday Hall. unfold load_day, bind, lift.
  apply result_bind_Ok in Hd as (delta & -> & Hd).
  apply result_bind_Ok in Hc as (hdelta & -> & Hc).
  rewrite Hd, (load_checks_for_date_reads _ w0 w Hf), Hday, Hc.
  now apply keep_loop.
Qed.

(** C6, as the code has it.  With [now] the reading of the clock, for a
    number of hours such that [now - hours] is a datetime, and a store
    whose partitions of today and of the day before can be read with a
    timestamp in every record, [load_recent_checks] returns exactly the
    records of those two partitions stamped at or after [now - hours],
    with no upper bound at [now], most recent timestamp text first, which
    is most recent timestamp first when the texts were written by
    [isoformat]; a partition that is missing counts as empty. *)
Theorem load_recent_checks_window (hours : Z) (w : World)
    (today yesterday cutoff : datetime) (T Y : list json) :
  days_before (utcnow_at clk (ticks w)) 0 = Ok today ->
  days_before (utcnow_at clk (ticks w)) 1 = Ok yesterday ->
  hours_before (utcnow_at clk (ticks w)) hours = Ok cutoff ->
  fst (load_checks_for_date DATA_DIR (date_isoformat (dt_date today)) w) = Ok T ->
  fst (load_checks_for_date DATA_DIR (date_isoformat (dt_date yesterday)) w) = Ok Y ->
  Forall has_time (T ++ Y) ->
  exists L,
    fst (load_recent_checks clk DATA_DIR hours w) = Ok L /\
    Permutation L (List.filter (recent cutoff) (T ++ Y)) /\
    (forall c,
        In c L <->
        In c (T ++ Y) /\ exists t, check_time c = Ok t /\ dt_leb cutoff t = true) /\
    StronglySorted stamp_desc L /\
    (Forall stamped_by_isoformat (T ++ Y) -> StronglySorted time_desc L) /\
    (forall d,
        files w !! checks_path DATA_DIR d = None ->
        fst (load_checks_for_date DATA_DIR d w) = Ok []).
Proof.
  intros Htoday Hyesterday Hcutoff HT HY Hall.
  apply Forall_app in Hall as Hall'. destruct Hall' as [HallT HallY].
  set (kept := List.filter (recent cutoff) (T ++ Y)).
  assert (Hkept : Forall has_time kept) by now apply has_time_filter.
  destruct (sorted_by_checked_at_desc_spec kept Hkept) as (L & HL & Hperm & Hsorted).
  assert (Hmem : forall c,
             In c L <->
             In c (T ++ Y) /\
             exists t, check_time c = Ok t /\ dt_leb cutoff t = true).
  { intros c. split.
    - intros Hc. apply (Permutation_in _ Hperm) in Hc.
      apply filter_In in Hc as [Hin Hrec]. split; [exact Hin|].
      unfold recent in Hrec. destruct (check_time c) as [t|e]; [|discriminate].
      now exists t.
    - intros (Hin & t & Ht & Hle).
      apply (Permutation_in _ (Permutation_sym Hperm)).
      apply filter_In. split; [exact Hin|]. unfold recent. now rewrite Ht. }
  exists L. repeat apply conj; try assumption.
  - unfold load_recent_checks, bind, datetime_utcnow.
    cbn [for_each]. unfold bind.
    rewrite (load_day_unfold _ hours 0 [] w _ today cutoff T)
      by (assumption || reflexivity).
    rewrite (load_day_unfold _ hours 1 _ w _ yesterday cutoff Y)
      by (assumption || reflexivity).
    unfold ret, lift. cbn [app fst].
    fold kept in HL. unfold kept in HL. rewrite List.filter_app in HL.
    exact HL.
  - intros Hstamped.
    replace L with (map id L) by apply map_id.
    apply (StronglySorted_map_impl stamp_desc time_desc stamped_by_isoformat id);
      [exact stamp_desc_time_desc | exact Hsorted |].
    rewrite List.Forall_forall in *. intros c Hc.
    apply Hstamped. now apply Hmem in Hc.
  - intros d. apply load_checks_for_date_missing.
Qed.

End StoreWindow.

Lemma load_recent_checks_window_witness :
  exists L,
    fst (load_recent_checks clk_utc data_dir 1 w_two) = Ok L /\
    Permutation L [check_record r_C_down; check_record r_C_up] /\
    StronglySorted time_desc L.
Proof.
  assert (H1 : days_before (utcnow_at clk_utc (ticks w_two)) 0 =
               Ok (mkdt 2024 3 1 12 5 2 0)) by (vm_compute; reflexivity).
  assert (H2 : days_before (utcnow_at clk_utc (ticks w_two)) 1 =
               Ok (mkdt 2024 2 29 12 5 2 0)) by (vm_compute; reflexivity).
  assert (H3 : hours_before (utcnow_at clk_utc (ticks w_two)) 1 =
               Ok (mkdt 2024 3 1 11 5 2 0)) by (vm_compute; reflexivity).
  assert (H4 : fst (load_checks_for_date data_dir
                      (date_isoformat (dt_date (mkdt 2024 3 1 12 5 2 0))) w_two) =
               Ok [check_record r_C_down; check_record r_C_up])
    by (vm_compute; reflexivity).
  assert (H5 : fst (load_checks_for_date data_dir
                      (date_isoformat (dt_date (mkdt 2024 2 29 12 5 2 0))) w_two) =
               Ok []) by (vm_compute; reflexivity).
  assert (H6 : Forall has_time
                 ([check_record r_C_down; check_record r_C_up] ++ [])).
  { repeat constructor; [exists t_0|exists t_1]; vm_compute; reflexivity. }
  destruct (load_recent_checks_window clk_utc data_dir 1 w_two _ _ _ _ _
              H1 H2 H3 H4 H5 H6)
    as (L & HL & Hperm & _ & _ & Htime & _).
  exists L. split; [exact HL|]. split; [exact Hperm|].
  apply Htime. repeat constructor.
  - exists t_0. split; vm_compute; reflexivity.
  - exists t_1. split; vm_compute; reflexivity.
Defined.

(** C6, as stated, fails on a store holding a record stamped later than
    the clock reads: the record is returned although its timestamp is not
    within the window that ends at [now]. *)
Lemma future_record_is_returned :
  fst (load_recent_checks clk_utc data_dir 24 w_future) =
    Ok [check_record r_C_future] /\
  check_time (check_record r_C_future) = Ok t_future /\
  ~ (dt_leb t_future (utcnow_at clk_utc (ticks w_future)) = true).
Proof.
  split; [vm_compute; reflexivity|]. split; [vm_compute; reflexivity|].
  vm_compute. discriminate.
Qed.


(* ================================================================== *)
(** * Properties of the Aggregator *)
(* ================================================================== *)





(* ================================================================== *)
(** * Further properties of the Probe *)
(* ================================================================== *)

(** X1.  A result is healthy exactly when the endpoint answered with the
    expected status code within the degraded threshold. *)
Theorem healthy_iff_expected_and_fast (ep : Endpoint) (o : Observation) :
  is_healthy (check_endpoint ep o) = true <->
  outcome o = Responded (expected_status ep) /\
  (elapsed_ms o <= inject_Z (degraded_threshold_ms ep))%Q.
Proof.
  unfold is_healthy, check_endpoint.
  destruct (outcome o) as [code| |msg]; cbn;
    [|split; [discriminate | intros [[=] _]]..].
  destruct (code =? expected_status ep) eqn:Hc; cbn.
  - apply Z.eqb_eq in Hc. subst code.
    destruct (Qgtb _ _) eqn:Hg; cbn.
    + split; [discriminate|]. intros [_ Hle].
      apply Qgtb_false in Hle. congruence.
    + split; [|reflexivity]. intros _. split; [reflexivity|].
      now apply Qgtb_false.
  - split; [discriminate|]. intros [[= ->] _].
    now rewrite Z.eqb_refl in Hc.
Qed.

(** X2.  The failures.  An answer with another status code is [down], keeps
    the code it came with and says which code was expected; any other
    exception is [down] with no code and the exception's own text.  A
    result has a status code exactly when a response came back. *)
Theorem check_endpoint_reports_failure (ep : Endpoint) (o : Observation) :
  (forall code,
      outcome o = Responded code -> code <> expected_status ep ->
      status (check_endpoint ep o) = DOWN /\
      status_code (check_endpoint ep o) = Some code /\
      error (check_endpoint ep o) =
        Some ("Expected " +:+ str_of_Z (expected_status ep)
                +:+ ", got " +:+ str_of_Z code)) /\
  (forall msg,
      outcome o = Failed msg ->
      status (check_endpoint ep o) = DOWN /\
      status_code (check_endpoint ep o) = None /\
      error (check_endpoint ep o) = Some msg) /\
  (forall code,
      status_code (check_endpoint ep o) = Some code <->
      outcome o = Responded code).
Proof.
  unfold check_endpoint. repeat apply conj.
  - intros code Ho Hne. rewrite Ho. cbn.
    apply Z.eqb_neq in Hne. now rewrite Hne.
  - intros msg Ho. now rewrite Ho.
  - intros code. destruct (outcome o) as [c| |msg]; cbn;
      split; congruence.
Qed.

Lemma check_endpoint_reports_failure_witness :
  error (check_endpoint ep_A (mkObservation (Responded 503) (12 # 1) t_0)) =
    Some "Expected 200, got 503" /\
  error (check_endpoint ep_A
           (mkObservation (Failed "connection refused") (3 # 1) t_0)) =
    Some "connection refused".
Proof.
  split.
  - apply (proj1 (check_endpoint_reports_failure ep_A
                    (mkObservation (Responded 503) (12 # 1) t_0)) 503);
      [reflexivity | discriminate].
  - apply (proj1 (proj2 (check_endpoint_reports_failure ep_A
                    (mkObservation (Failed "connection refused") (3 # 1) t_0)))
             "connection refused").
    reflexivity.
Defined.

(** Rounding to the nearest integer moves a number by a half at most. *)
Lemma round_half_even_near (q : Q) :
  (Qabs (inject_Z (round_half_even q) - q) <= 1 # 2)%Q.
Proof.
  unfold round_half_even.
  pose proof (Qfloor_le q) as Hlo.
  pose proof (Qlt_floor q) as Hhi.
  set (f := Qfloor q) in *.
  assert (Hf1 : (inject_Z (f + 1) == inject_Z f + 1)%Q)
    by (rewrite inject_Z_plus; reflexivity).
  rewrite Hf1 in Hhi.
  apply Qabs_Qle_condition.
  destruct (Qcompare (q - inject_Z f) (1 # 2)) eqn:Hc.
  - apply Qeq_alt in Hc.
    destruct (Z.even f).
    + split; lra.
    + rewrite Hf1. split; lra.
  - apply Qlt_alt in Hc. split; lra.
  - apply Qgt_alt in Hc. rewrite Hf1. split; lra.
Qed.

(** X3.  Every result carries the URL of its endpoint and the clock reading of
    its observation, and its latency is [round(elapsed_ms, 2)]: a value
    with two decimals, which rounding again leaves as it is. *)
Theorem check_endpoint_carries_observation (ep : Endpoint) (o : Observation) :
  url (check_endpoint ep o) = ep_url ep /\
  checked_at (check_endpoint ep o) = finished_at o /\
  response_time_ms (check_endpoint ep o) = round2 (elapsed_ms o) /\
  round2 (response_time_ms (check_endpoint ep o)) =
    response_time_ms (check_endpoint ep o).
Proof.
  assert (Hr : response_time_ms (check_endpoint ep o) = round2 (elapsed_ms o))
    by (unfold check_endpoint; now destruct (outcome o)).
  repeat apply conj.
  - unfold check_endpoint. now destruct (outcome o).
  - unfold check_endpoint. now destruct (outcome o).
  - exact Hr.
  - rewrite Hr. apply round2_idempotent.
Qed.

(* ================================================================== *)
(** * Properties of the Notifier *)
(* ================================================================== *)

Lemma join_lines_cons2 (a b : string) (rest : list string) :
  join_lines (a :: b :: rest) = a +:+ newline +:+ join_lines (b :: rest).
Proof. reflexivity. Qed.

Lemma isoformat_not_empty (t : datetime) : String.eqb (isoformat t) "" = false.
Proof. reflexivity. Qed.

(** The lines of a message: a headline, an empty line, the link, the
    transition, the two optional lines and the time. *)
Lemma incident_lines_shape (inc : Incident) :
  exists h,
    incident_lines inc =
      [h; ""; "🔗 " +:+ inc_url inc;
       "📊 " +:+ prev_status inc +:+ " → " +:+ new_status inc] ++
      (if truthy (inc_error inc)
       then ["❗ " +:+ default "" (inc_error inc)] else []) ++
      (if truthy (was_down_since inc)
       then ["⏱️ 宕机开始: " +:+ default "" (was_down_since inc)] else []) ++
      ["🕐 " +:+ changed_at inc] /\
    (forall x, h <> "❗ " +:+ x) /\
    (forall x, h <> "⏱️ 宕机开始: " +:+ x).
Proof.
  unfold incident_lines.
  destruct (String.eqb (new_status inc) "down");
    [|destruct (String.eqb (new_status inc) "up" &&
                String.eqb (prev_status inc) "down");
      [|destruct (String.eqb (new_status inc) "degraded")]];
    eexists; (split; [destruct (truthy (inc_error inc));
                      destruct (truthy (was_down_since inc)); reflexivity|]);
    split; intros x; discriminate.
Qed.

Section NotifierProperties.

Variable clk : Clock.
Variable DATA_DIR : string.

(** X4.  The headline of the alert for a change of status: an outage whenever
    the new status is [down]; a recovery only for [up] after [down]; a
    slow-down whenever the new status is [degraded]; and for [up] after
    [degraded] the plain notice of a change. *)
Theorem alert_headline_follows_transition (r : CheckResult) (w w' : World)
    (inc : Incident) :
  track_incident clk DATA_DIR r w = (Ok (Some inc), w') ->
  exists tail,
    format_incident_message inc =
    (match status r with
     | DOWN => "🔴 <b>服务宕机</b>"
     | DEGRADED => "⚠️ <b>服务变慢</b>"
     | UP =>
         if String.eqb (prev_status inc) "down" then "✅ <b>服务恢复</b>"
         else "ℹ️ <b>状态变化</b>"
     end) +:+ newline +:+ newline +:+ tail.
Proof.
  rewrite track_incident_unfold.
  destruct (incident_state w !! url r) as [prev|]; [|discriminate].
  destruct (String.eqb (ts_status prev) (status_value (status r))); [discriminate|].
  cbv zeta. intros [= <- _].
  unfold format_incident_message, incident_lines.
  cbn [inc_url prev_status new_status changed_at was_down_since inc_error].
  destruct (status r); cbn [status_value String.eqb Ascii.eqb Bool.eqb andb];
    destruct (String.eqb (ts_status prev) "down");
    destruct (truthy _); destruct (truthy _);
    cbn [app]; rewrite !join_lines_cons2; eexists; cbn; reflexivity.
Qed.

(** X5.  The optional lines of the alert for a change of status, for a
    tracker that started from an empty table.  The error line is there
    exactly when the result carries an error text that is not empty, and
    shows that text.  The line that tells since when the endpoint was down
    is there exactly when the status left is [down], and shows the
    timestamp of the first result of the unbroken run of [down] results.
    The last line is the timestamp of the result. *)
Theorem alert_optional_lines (rs : list CheckResult) (r : CheckResult)
    (w0 w' : World) (inc : Incident) :
  incident_state w0 = ∅ ->
  track_incident clk DATA_DIR r (snd (feed_tracker clk DATA_DIR rs w0)) =
    (Ok (Some inc), w') ->
  (forall e,
      In ("❗ " +:+ e) (incident_lines inc) <-> error r = Some e /\ e <> "") /\
  (forall s,
      In ("⏱️ 宕机开始: " +:+ s) (incident_lines inc) <->
      prev_status inc = "down" /\
      exists r0,
        run_start (url r) rs = Some r0 /\ status r0 = DOWN /\
        s = isoformat (checked_at r0)) /\
  last (incident_lines inc) = Some ("🕐 " +:+ isoformat (checked_at r)).
Proof.
  intros Hempty. rewrite track_incident_unfold.
  destruct (incident_state _ !! url r) as [prev|] eqn:Hprev; [|discriminate].
  destruct (String.eqb (ts_status prev) (status_value (status r))) eqn:Hs;
    [discriminate|].
  cbv zeta. intros [= <- _].
  unfold feed_tracker in Hprev. rewrite feed_tracker_state, Hempty in Hprev.
  destruct (tracker_follows_run (url r) rs) as [Hrun _].
  rewrite Hprev in Hrun. cbn -[isoformat] in Hrun.
  destruct (run_start (url r) rs) as [r0|] eqn:Er0; [|discriminate].
  cbn -[isoformat] in Hrun. injection Hrun as Hst Hsince.
  match goal with
  | |- context [incident_lines ?i] =>
      destruct (incident_lines_shape i) as (h & -> & Hh1 & Hh2)
  end.
  cbn [inc_url prev_status new_status changed_at was_down_since inc_error].
  assert (Hsince_line :
            truthy (if String.eqb (ts_status prev) "down"
                    then Some (ts_since prev) else None) =
            String.eqb (ts_status prev) "down").
  { destruct (String.eqb (ts_status prev) "down"); [|reflexivity].
    cbn. now rewrite Hsince, isoformat_not_empty. }
  rewrite Hsince_line.
  repeat apply conj.
  - intros e. destruct (error r) as [e0|] eqn:He; cbn [truthy default].
    + destruct (String.eqb e0 "") eqn:He0; cbn [negb].
      * apply String.eqb_eq in He0. subst e0.
        destruct (String.eqb (ts_status prev) "down"); cbn; split.
        -- intros [H|[H|[H|[H|[H|[H|[]]]]]]]; try discriminate H.
           now apply Hh1 in H.
        -- intros [[= <-] Hne]. now destruct Hne.
        -- intros [H|[H|[H|[H|[H|[]]]]]]; try discriminate H.
           now apply Hh1 in H.
        -- intros [[= <-] Hne]. now destruct Hne.
      * apply String.eqb_neq in He0.
        destruct (String.eqb (ts_status prev) "down"); cbn; split.
        -- intros [H|[H|[H|[H|[H|[H|[H|[]]]]]]]]; try discriminate H.
           ++ now apply Hh1 in H.
           ++ injection H as <-. now split.
        -- intros [[= <-] _]. tauto.
        -- intros [H|[H|[H|[H|[H|[H|[]]]]]]]; try discriminate H.
           ++ now apply Hh1 in H.
           ++ injection H as <-. now split.
        -- intros [[= <-] _]. tauto.
    + destruct (String.eqb (ts_status prev) "down"); cbn; split.
      * intros [H|[H|[H|[H|[H|[H|[]]]]]]]; try discriminate H.
        now apply Hh1 in H.
      * intros [[=] _].
      * intros [H|[H|[H|[H|[H|[]]]]]]; try discriminate H.
        now apply Hh1 in H.
      * intros [[=] _].
  - intros s.
    destruct (String.eqb (ts_status prev) "down") eqn:Hd.
    + apply String.eqb_eq in Hd.
      assert (Hdown : status r0 = DOWN).
      { rewrite Hd in Hst. destruct (status r0); cbn in Hst; congruence. }
      cbn [default]. rewrite Hsince. split.
      * intros Hin. split; [exact Hd|]. exists r0.
        split; [reflexivity|]. split; [exact Hdown|].
        destruct (truthy (error r)); cbn in Hin.
        -- destruct Hin as [H|[H|[H|[H|[H|[H|[H|[]]]]]]]]; try discriminate H.
           ++ now apply Hh2 in H.
           ++ now injection H.
        -- destruct Hin as [H|[H|[H|[H|[H|[H|[]]]]]]]; try discriminate H.
           ++ now apply Hh2 in H.
           ++ now injection H.
      * intros (_ & r1 & [= <-] & _ & ->).
        destruct (truthy (error r)); cbn; tauto.
    + apply String.eqb_neq in Hd. split; [|tauto].
      destruct (truthy (error r)); cbn.
      * intros [H|[H|[H|[H|[H|[H|[]]]]]]]; try discriminate H.
        now apply Hh2 in H.
      * intros [H|[H|[H|[H|[H|[]]]]]]; try discriminate H.
        now apply Hh2 in H.
  - destruct (truthy (error r)); destruct (String.eqb (ts_status prev) "down");
      reflexivity.
Qed.

End NotifierProperties.

Lemma alert_headline_follows_transition_witness :
  exists tail,
    format_incident_message inc_C_recovery =
    "✅ <b>服务恢复</b>" +:+ newline +:+ newline +:+ tail.
Proof.
  assert (H : track_incident clk_utc data_dir r_C_up w_C_down =
              (Ok (Some inc_C_recovery),
               snd (track_incident clk_utc data_dir r_C_up w_C_down)))
    by (vm_compute; reflexivity).
  exact (alert_headline_follows_transition clk_utc data_dir r_C_up w_C_down _
           inc_C_recovery H).
Defined.

Lemma alert_optional_lines_witness :
  In "⏱️ 宕机开始: 2024-03-01T12:00:00" (incident_lines inc_C_recovery) /\
  last (incident_lines inc_C_recovery) = Some "🕐 2024-03-01T12:01:00.250000".
Proof.
  assert (H : track_incident clk_utc data_dir r_C_up
                (snd (feed_tracker clk_utc data_dir [r_C_down] w_fresh)) =
              (Ok (Some inc_C_recovery),
               snd (track_incident clk_utc data_dir r_C_up w_C_down)))
    by (vm_compute; reflexivity).
  destruct (alert_optional_lines clk_utc data_dir [r_C_down] r_C_up w_fresh _
              inc_C_recovery eq_refl H) as (_ & Hsince & Hlast).
  split; [|exact Hlast].
  apply (Hsince "2024-03-01T12:00:00"). split; [reflexivity|].
  exists r_C_down. repeat split; vm_compute; reflexivity.
Defined.

(** X6.  [send_telegram] answers [True] exactly when both settings are present
    and not empty and the request, posted to the bot's [sendMessage]
    address with the chat, the text and the parse mode, came back with
    status 200.  Without the settings nothing is posted: the answer does
    not depend on the transport. *)
Theorem send_telegram_true_iff (token chat : option string)
    (post : string -> json -> PostOutcome) (message parse_mode : string) :
  (send_telegram token chat post message parse_mode = true <->
   exists tok cid,
     token = Some tok /\ tok <> "" /\ chat = Some cid /\ cid <> "" /\
     post ("https://api.telegram.org/bot" +:+ tok +:+ "/sendMessage")
       (JObj [("chat_id", JStr cid); ("text", JStr message);
              ("parse_mode", JStr parse_mode)]) = PostResponded 200) /\
  (truthy token = false \/ truthy chat = false ->
   forall post',
     send_telegram token chat post' message parse_mode = false).
Proof.
  unfold send_telegram. cbv zeta. split.
  - destruct token as [tok|], chat as [cid|]; cbn [truthy negb orb default].
    + destruct (String.eqb tok "") eqn:Ht, (String.eqb cid "") eqn:Hc;
        cbn [negb orb].
      1-3: split; [discriminate|];
        intros (tok' & cid' & [= <-] & Hne1 & [= <-] & Hne2 & _);
        apply String.eqb_eq in Ht || apply String.eqb_eq in Hc; congruence.
      apply String.eqb_neq in Ht, Hc. split.
      * unfold id. destruct (post _ _) as [code|] eqn:Hp; [|discriminate].
        intros H200. apply Z.eqb_eq in H200. subst code.
        now exists tok, cid.
      * intros (tok' & cid' & [= <-] & _ & [= <-] & _ & Hp).
        unfold id. now rewrite Hp.
    + rewrite orb_true_r. split; [discriminate|].
      now intros (? & ? & _ & _ & [=] & _).
    + split; [discriminate|]. now intros (? & ? & [=] & _).
    + split; [discriminate|]. now intros (? & ? & [=] & _).
  - intros [H|H] post'; rewrite H; cbn [negb orb]; [reflexivity|].
    now rewrite orb_true_r.
Qed.

Lemma send_telegram_true_iff_witness :
  send_telegram None (Some "42") (fun _ _ => PostResponded 200) "text" "HTML" =
    false /\
  send_telegram (Some "t0ken") (Some "42") (fun _ _ => PostResponded 200)
    "text" "HTML" = true.
Proof.
  split.
  - apply (proj2 (send_telegram_true_iff None (Some "42")
                    (fun _ _ => PostRaised) "text" "HTML")).
    left. reflexivity.
  - apply (proj1 (send_telegram_true_iff (Some "t0ken") (Some "42")
                    (fun _ _ => PostResponded 200) "text" "HTML")).
    exists "t0ken", "42". repeat split; discriminate.
Defined.

(* ================================================================== *)
(** * The tracker over a sequence of results *)
(* ================================================================== *)

Lemma tracker_step_other (st : gmap string TrackState) (r : CheckResult)
    (u : string) :
  u <> url r -> tracker_step st r !! u = st !! u.
Proof.
  intros Hne. unfold tracker_step.
  destruct (st !! url r) as [prev|].
  - destruct (String.eqb _ _); [reflexivity|].
    now rewrite lookup_insert_ne.
  - now rewrite lookup_insert_ne.
Qed.

Lemma tracker_step_status (st : gmap string TrackState) (r : CheckResult) :
  ts_status <$> tracker_step st r !! url r = Some (status_value (status r)).
Proof.
  unfold tracker_step.
  destruct (st !! url r) as [prev|] eqn:Hp.
  - destruct (String.eqb _ _) eqn:Hs.
    + rewrite Hp. cbn. apply String.eqb_eq in Hs. now rewrite Hs.
    + now rewrite lookup_insert_eq.
  - now rewrite lookup_insert_eq.
Qed.

Lemma change_of_other (st : gmap string TrackState) (r r' : CheckResult) :
  url r' <> url r -> change_of (tracker_step st r) r' = change_of st r'.
Proof.
  intros Hne. unfold change_of. now rewrite tracker_step_other.
Qed.

Lemma status_changes_cons2 (a b : CheckResult) (l : list CheckResult) :
  status_changes (a :: b :: l) =
  if Status_eqb (status a) (status b) then status_changes (b :: l)
  else (a, b) :: status_changes (b :: l).
Proof. reflexivity. Qed.

(** What the comparison keeps of an incident, and the same five fields
    for a pair of consecutive results of the URL [u]. *)
Lemma incidents_of_from (u : string) (rs : list CheckResult) :
  forall st : gmap string TrackState,
    (st !! u = None ->
     map (fun i => (inc_url i, prev_status i, new_status i, changed_at i,
                    inc_error i))
         (incidents_of u (incidents_from st rs)) =
     map (fun ab => (u, status_value (status (fst ab)),
                     status_value (status (snd ab)),
                     isoformat (checked_at (snd ab)), error (snd ab)))
         (status_changes (results_of u rs))) /\
    (forall prev r0,
        st !! u = Some prev -> ts_status prev = status_value (status r0) ->
        map (fun i => (inc_url i, prev_status i, new_status i, changed_at i,
                       inc_error i))
            (incidents_of u (incidents_from st rs)) =
        map (fun ab => (u, status_value (status (fst ab)),
                        status_value (status (snd ab)),
                        isoformat (checked_at (snd ab)), error (snd ab)))
            (status_changes (r0 :: results_of u rs))).
Proof.
  induction rs as [|r rs IH]; intros st.
  - split; [reflexivity|]. intros prev r0 _ _. reflexivity.
  - destruct (String.eqb (url r) u) eqn:Hu.
    + apply String.eqb_eq in Hu.
      assert (Hres : results_of u (r :: rs) = r :: results_of u rs).
      { unfold results_of. cbn [List.filter].
        now rewrite (proj2 (String.eqb_eq _ _) Hu). }
      rewrite Hres. cbn [incidents_from]. unfold change_of. rewrite Hu.
      split.
      * intros Hnone. rewrite Hnone.
        apply (proj2 (IH (tracker_step st r)) 
                 (mkTrackState (status_value (status r))
                    (isoformat (checked_at r)) false) r); [|reflexivity].
        unfold tracker_step. rewrite Hu, Hnone. now rewrite lookup_insert_eq.
      * intros prev r0 Hprev Hst. rewrite Hprev.
        rewrite status_changes_cons2, Hst, status_value_eqb.
        destruct (Status_eqb (status r0) (status r)) eqn:Hs.
        -- apply (proj2 (IH (tracker_step st r)) prev r).
           ++ unfold tracker_step. rewrite Hu, Hprev, Hst, status_value_eqb, Hs.
              exact Hprev.
           ++ rewrite Hst. apply Status_eqb_eq in Hs. now rewrite Hs.
        -- unfold incidents_of. cbn [List.filter inc_url].
           rewrite String.eqb_refl. cbn [map fst snd]. f_equal.
           apply (proj2 (IH (tracker_step st r))
                       (mkTrackState (status_value (status r))
                          (isoformat (checked_at r)) true) r); [|reflexivity].
              unfold tracker_step.
              rewrite Hu, Hprev, Hst, status_value_eqb, Hs.
           now rewrite lookup_insert_eq.
    + assert (Hne : u <> url r).
      { intros ->. now rewrite String.eqb_refl in Hu. }
      assert (Hres : results_of u (r :: rs) = results_of u rs).
      { unfold results_of. cbn [List.filter]. now rewrite Hu. }
      rewrite Hres.
      assert (Hinc : incidents_of u (incidents_from st (r :: rs)) =
                     incidents_of u (incidents_from (tracker_step st r) rs)).
      { cbn [incidents_from]. unfold change_of.
        destruct (st !! url r) as [p|]; [|reflexivity].
        destruct (String.eqb (ts_status p) _); [reflexivity|].
        unfold incidents_of. cbn [List.filter inc_url]. now rewrite Hu. }
      rewrite Hinc.
      destruct (IH (tracker_step st r)) as [IH1 IH2].
      rewrite (tracker_step_other st r u Hne) in IH1, IH2.
      split; [exact IH1 | exact IH2].
Qed.

Lemma incidents_from_distinct (rs : list CheckResult) :
  forall st : gmap string TrackState,
    NoDup (map url rs) -> incidents_from st rs = omap (change_of st) rs.
Proof.
  induction rs as [|r rs IH]; intros st Hnd; [reflexivity|].
  cbn [map] in Hnd. apply NoDup_cons in Hnd as [Hnotin Hnd].
  cbn [incidents_from]. rewrite (IH _ Hnd).
  assert (Hext : omap (change_of (tracker_step st r)) rs = omap (change_of st) rs).
  { clear IH Hnd. induction rs as [|r' rs IH]; [reflexivity|].
    cbn [map] in Hnotin. apply not_elem_of_cons in Hnotin as [Hne Hnotin].
    cbn [omap list_omap]. rewrite (IH Hnotin).
    rewrite change_of_other by congruence. reflexivity. }
  rewrite Hext. cbn [omap list_omap].
  now destruct (change_of st r).
Qed.

Lemma incidents_from_empty_distinct (rs : list CheckResult) :
  NoDup (map url rs) -> incidents_from ∅ rs = [].
Proof.
  intros Hnd. rewrite (incidents_from_distinct rs ∅ Hnd).
  induction rs as [|r rs IH]; [reflexivity|].
  cbn [map] in Hnd. apply NoDup_cons in Hnd as [_ Hnd].
  cbn [omap list_omap]. unfold change_of at 1. rewrite lookup_empty.
  now apply IH.
Qed.

Lemma foldl_tracker_other (u : string) (rs : list CheckResult) :
  forall st : gmap string TrackState,
    u ∉ map url rs -> foldl tracker_step st rs !! u = st !! u.
Proof.
  induction rs as [|r rs IH]; intros st Hnotin; [reflexivity|].
  cbn [map] in Hnotin. apply not_elem_of_cons in Hnotin as [Hne Hnotin].
  cbn [foldl]. rewrite (IH _ Hnotin). now apply tracker_step_other.
Qed.

Lemma foldl_tracker_status (rs : list CheckResult) :
  forall (st : gmap string TrackState) (i : nat) (r : CheckResult),
    NoDup (map url rs) -> rs !! i = Some r ->
    ts_status <$> foldl tracker_step st rs !! url r =
    Some (status_value (status r)).
Proof.
  induction rs as [|r0 rs IH]; intros st i r Hnd Hi; [discriminate|].
  cbn [map] in Hnd. apply NoDup_cons in Hnd as [Hnotin Hnd].
  cbn [foldl]. destruct i as [|i].
  - injection Hi as <-. rewrite (foldl_tracker_other _ _ _ Hnotin).
    apply tracker_step_status.
  - now apply (IH _ i).
Qed.

Section TrackerSequences.

Variable clk : Clock.
Variable DATA_DIR : string.

(** One call, in terms of the table alone. *)
Lemma track_incident_change (r : CheckResult) (w : World) :
  fst (track_incident clk DATA_DIR r w) = Ok (change_of (incident_state w) r).
Proof.
  rewrite track_incident_unfold. unfold change_of.
  destruct (incident_state w !! url r) as [prev|]; [|reflexivity].
  now destruct (String.eqb _ _).
Qed.

Lemma feed_loop (rs : list CheckResult) : forall acc (w : World),
  fst (for_each
         (fun r evs =>
            do i <- track_incident clk DATA_DIR r;
            ret (match i with Some inc => evs ++ [inc] | None => evs end))
         rs acc w) =
  Ok (acc ++ incidents_from (incident_state w) rs).
Proof.
  induction rs as [|r rs IH]; intros acc w.
  - cbn. now rewrite app_nil_r.
  - cbn [for_each incidents_from]. unfold bind at 1. unfold bind at 1.
    pose proof (track_incident_change r w) as Hc.
    pose proof (track_incident_state clk DATA_DIR r w) as Hst.
    destruct (track_incident clk DATA_DIR r w) as [[i|e] w1]; cbn in Hc, Hst;
      [|discriminate].
    injection Hc as ->. unfold ret. rewrite IH, Hst.
    destruct (change_of (incident_state w) r) as [inc|]; [|reflexivity].
    now rewrite <- app_assoc.
Qed.

(** X7.  Fed a sequence of results from an empty table, the tracker returns,
    for every URL, one incident for each pair of consecutive results of
    that URL that differ in status, in order: from the status of the
    earlier result to the status of the later one, stamped with the
    later one's timestamp and carrying its error.  The first result of a
    URL and a result that repeats the status before it give nothing. *)
Theorem incidents_are_status_changes (rs : list CheckResult) (w0 : World)
    (u : string) :
  incident_state w0 = ∅ ->
  exists incs,
    fst (feed_tracker clk DATA_DIR rs w0) = Ok incs /\
    map (fun i => (inc_url i, prev_status i, new_status i, changed_at i,
                   inc_error i))
        (incidents_of u incs) =
    map (fun ab => (u, status_value (status (fst ab)),
                    status_value (status (snd ab)),
                    isoformat (checked_at (snd ab)), error (snd ab)))
        (status_changes (results_of u rs)).
Proof.
  intros Hempty. exists (incidents_from ∅ rs). split.
  - unfold feed_tracker. now rewrite feed_loop, Hempty.
  - apply (proj1 (incidents_of_from u rs ∅)). apply lookup_empty.
Qed.

End TrackerSequences.

Lemma incidents_are_status_changes_witness :
  exists incs,
    fst (feed_tracker clk_utc data_dir [r_C_down; r_C_down; r_C_up] w_fresh) =
      Ok incs /\
    map (fun i => (inc_url i, prev_status i, new_status i, changed_at i,
                   inc_error i))
        (incidents_of (ep_url ep_C) incs) =
    [(ep_url ep_C, "down", "up", "2024-03-01T12:01:00.250000", None)].
Proof.
  exact (incidents_are_status_changes clk_utc data_dir
           [r_C_down; r_C_down; r_C_up] w_fresh (ep_url ep_C) eq_refl).
Defined.

(* ================================================================== *)
(** * The check cycle as a whole *)
(* ================================================================== *)

Section CycleShape.

Variable clk : Clock.
Variable DATA_DIR : string.

Lemma notified_app (a b : list Event) :
  notified (a ++ b) = notified a ++ notified b.
Proof.
  induction a as [|[p l|i s] a IH]; cbn; [reflexivity | exact IH | now rewrite IH].
Qed.

Lemma notified_check_events (n : nat) (results : list CheckResult) :
  notified (check_events clk DATA_DIR n results) = [].
Proof.
  unfold check_events. revert n.
  induction results as [|r results IH]; intros n; [reflexivity|].
  rewrite imap_cons. cbn [notified]. rewrite <- (IH (S n)).
  f_equal. apply imap_ext. intros i x _. cbn. now rewrite Nat.add_succ_r.
Qed.

(** Saving a batch: one append per result, one look at the clock each,
    and nothing else. *)
Lemma save_checks_run (results : list CheckResult) : forall w,
  save_checks clk DATA_DIR results w =
  (Ok tt,
   mkWorld (replay (check_events clk DATA_DIR (ticks w) results) (files w))
     (incident_state w) (ticks w + length results)
     (trace w ++ check_events clk DATA_DIR (ticks w) results)).
Proof.
  unfold save_checks, check_events.
  induction results as [|r results IH]; intros w.
  - cbn. rewrite app_nil_r, Nat.add_0_r. now destruct w.
  - cbn [for_each]. unfold bind. rewrite save_check_unfold. cbv beta iota zeta.
    rewrite IH. cbn [files incident_state ticks trace].
    rewrite imap_cons, Nat.add_0_r.
    assert (Hext : imap ((fun i r0 =>
                       EvAppend
                         (checks_path DATA_DIR
                            (date_isoformat (today_at clk (ticks w + i))))
                         (check_line r0)) ∘ S) results =
                   imap (fun i r0 =>
                       EvAppend
                         (checks_path DATA_DIR
                            (date_isoformat (today_at clk (S (ticks w) + i))))
                         (check_line r0)) results).
    { apply imap_ext. intros i x _. cbn. now rewrite Nat.add_succ_r. }
    rewrite Hext. cbn [length]. rewrite Nat.add_succ_r.
    rewrite <- app_assoc. reflexivity.
Qed.

(** One turn of the tracking loop, in terms of the table. *)
Lemma track_and_notify_run (telegram : Incident -> bool) (r : CheckResult)
    (w : World) :
  track_and_notify clk DATA_DIR telegram r tt w =
  match change_of (incident_state w) r with
  | Some inc =>
      let path :=
        incidents_path DATA_DIR (date_isoformat (today_at clk (ticks w))) in
      (Ok tt,
       mkWorld (<[path := default "" (files w !! path) +:+ incident_line inc]>
                  (files w))
         (tracker_step (incident_state w) r) (S (ticks w))
         (trace w ++ [EvAppend path (incident_line inc);
                      EvNotify inc (telegram inc)]))
  | None =>
      (Ok tt,
       mkWorld (files w) (tracker_step (incident_state w) r) (ticks w) (trace w))
  end.
Proof.
  rewrite track_and_notify_unfold, track_incident_unfold.
  unfold change_of, tracker_step.
  destruct (incident_state w !! url r) as [prev|]; [|reflexivity].
  destruct (String.eqb (ts_status prev) (status_value (status r)));
    [now destruct w|].
  cbv zeta. cbn [files incident_state ticks trace].
  now rewrite <- app_assoc.
Qed.

Lemma track_loop_run (telegram : Incident -> bool) (results : list CheckResult) :
  forall w,
  exists evs,
    for_each (track_and_notify clk DATA_DIR telegram) results tt w =
    (Ok tt,
     mkWorld (replay evs (files w))
       (foldl tracker_step (incident_state w) results)
       (ticks w + length (notified evs)) (trace w ++ evs)) /\
    Forall (tracking_event DATA_DIR telegram) evs /\
    notified evs = incidents_from (incident_state w) results.
Proof.
  induction results as [|r results IH]; intros w.
  - exists []. cbn. rewrite app_nil_r, Nat.add_0_r.
    split; [now destruct w|]. split; [constructor | reflexivity].
  - cbn [for_each]. unfold bind. rewrite track_and_notify_run.
    destruct (change_of (incident_state w) r) as [inc|] eqn:Hc;
      cbv beta iota zeta.
    + match goal with
      | |- context [for_each _ results tt ?w1] =>
          destruct (IH w1) as (evs & Hrun & Hall & Hnot)
      end.
      cbn [files incident_state ticks trace] in Hrun, Hnot.
      exists (EvAppend
                (incidents_path DATA_DIR
                   (date_isoformat (today_at clk (ticks w))))
                (incident_line inc) :: EvNotify inc (telegram inc) :: evs).
      split; [|split].
      * rewrite Hrun. cbn [notified length foldl replay replay_event].
        rewrite <- app_assoc, Nat.add_succ_r. reflexivity.
      * constructor; [now exists (date_isoformat (today_at clk (ticks w))), inc|].
        constructor; [reflexivity | exact Hall].
      * cbn [notified incidents_from]. now rewrite Hc, Hnot.
    + match goal with
      | |- context [for_each _ results tt ?w1] =>
          destruct (IH w1) as (evs & Hrun & Hall & Hnot)
      end.
      cbn [files incident_state ticks trace] in Hrun, Hnot.
      exists evs. split; [|split].
      * rewrite Hrun. reflexivity.
      * exact Hall.
      * cbn [incidents_from]. now rewrite Hc.
Qed.

Lemma run_cycle_run (telegram : Incident -> bool) (results : list CheckResult)
    (w : World) :
  exists evs,
    run_cycle clk DATA_DIR telegram results w =
    (Ok tt,
     mkWorld
       (replay (check_events clk DATA_DIR (ticks w) results ++ evs) (files w))
       (foldl tracker_step (incident_state w) results)
       (ticks w + length results + length (notified evs))
       (trace w ++ check_events clk DATA_DIR (ticks w) results ++ evs)) /\
    Forall (tracking_event DATA_DIR telegram) evs /\
    notified evs = incidents_from (incident_state w) results.
Proof.
  unfold run_cycle, bind. rewrite save_checks_run. cbv beta iota.
  match goal with
  | |- context [for_each _ results tt ?w1] =>
      destruct (track_loop_run telegram results w1) as (evs & Hrun & Hall & Hnot)
  end.
  cbn [files incident_state ticks trace] in Hrun, Hnot.
  exists evs. split; [|split; assumption].
  rewrite Hrun, replay_app, <- app_assoc. reflexivity.
Qed.

(** X8.  A cycle that completes has first appended the line of every result
    of the batch, in batch order, to the check log, and only then tracked
    the results: what follows in its trace are lines of incidents appended
    to partitions of the incident log and hand-overs to the notifier, with
    the notifier's own answer.  It has read the clock once per result and
    once per incident. *)
Theorem cycle_saves_batch_before_tracking (telegram : Incident -> bool)
    (results : list CheckResult) (w w' : World) :
  run_cycle clk DATA_DIR telegram results w = (Ok tt, w') ->
  exists evs,
    trace w' = trace w ++ check_events clk DATA_DIR (ticks w) results ++ evs /\
    length (check_events clk DATA_DIR (ticks w) results) = length results /\
    Forall (tracking_event DATA_DIR telegram) evs /\
    ticks w' = (ticks w + length results + length (notified evs))%nat.
Proof.
  intros Hrun.
  destruct (run_cycle_run telegram results w) as (evs & Hrun' & Hall & _).
  rewrite Hrun' in Hrun. injection Hrun as <-.
  exists evs. cbn [trace ticks].
  repeat split; try assumption.
  unfold check_events. apply length_imap.
Qed.

(** X9.  When the endpoints have distinct URLs, a cycle hands to the notifier,
    in the order of the endpoints, exactly the incidents of the results
    whose status differs from the status tracked before the cycle; the
    table afterwards holds the status of every result.  From an empty
    table, such as after a restart of the process, a cycle alerts for
    nothing, whatever the statuses are. *)
Theorem cycle_alerts_changed_endpoints
    (endpoints : list Endpoint) (obs : nat -> Observation) (schedule : list nat)
    (telegram : Incident -> bool) (w w' : World) (out : result unit) :
  NoDup (map ep_url endpoints) ->
  run_checks clk DATA_DIR endpoints obs schedule telegram w = Some (out, w') ->
  exists evs,
    trace w' = trace w ++ evs /\
    notified evs =
      omap (change_of (incident_state w))
        (imap (fun i ep => check_endpoint ep (obs i)) endpoints) /\
    (incident_state w = ∅ -> notified evs = []) /\
    (forall i ep,
        endpoints !! i = Some ep ->
        ts_status <$> incident_state w' !! ep_url ep =
        Some (status_value (status (check_endpoint ep (obs i))))).
Proof.
  intros Hnd Hrun. unfold run_checks in Hrun.
  destruct endpoints as [|ep0 eps] eqn:Heps.
  - injection Hrun as <- <-. exists []. rewrite app_nil_r.
    repeat split; try reflexivity. intros i ep Hi. discriminate.
  - rewrite <- Heps in *. clear Heps ep0 eps.
    destruct (check_all endpoints obs schedule) as [results|] eqn:Hall;
      [|discriminate].
    unfold check_all in Hall. apply gather_in_order in Hall. subst results.
    set (results := imap (fun i ep => check_endpoint ep (obs i)) endpoints) in *.
    assert (Hurls : map url results = map ep_url endpoints).
    { subst results. apply list_eq. intros i.
      rewrite !list_lookup_fmap, list_lookup_imap.
      destruct (endpoints !! i) as [ep|]; [|reflexivity]. cbn.
      unfold check_endpoint. now destruct (outcome (obs i)). }
    assert (Hnd' : NoDup (map url results)) by now rewrite Hurls.
    destruct (run_cycle_run telegram results w) as (evs & Hcyc & _ & Hnot).
    rewrite Hcyc in Hrun. injection Hrun as <- <-.
    exists (check_events clk DATA_DIR (ticks w) results ++ evs).
    cbn [trace incident_state].
    rewrite notified_app, notified_check_events, Hnot. cbn [app].
    repeat split.
    + now apply incidents_from_distinct.
    + intros ->. now apply incidents_from_empty_distinct.
    + intros i ep Hi.
      assert (Hri : results !! i = Some (check_endpoint ep (obs i))).
      { subst results. now rewrite list_lookup_imap, Hi. }
      pose proof (foldl_tracker_status results (incident_state w) i _ Hnd' Hri)
        as Hst.
      replace (url (check_endpoint ep (obs i))) with (ep_url ep) in Hst
        by (unfold check_endpoint; now destruct (outcome (obs i))).
      exact Hst.
Qed.

End CycleShape.

(** C was down; a cycle of one result finds it up again. *)
Lemma cycle_saves_batch_before_tracking_witness :
  exists evs,
    trace (snd (run_cycle clk_utc data_dir (fun _ => true) [r_C_up] w_C_down)) =
      trace w_C_down ++
      check_events clk_utc data_dir (ticks w_C_down) [r_C_up] ++ evs /\
    Forall (tracking_event data_dir (fun _ => true)) evs.
Proof.
  assert (Hrun : run_cycle clk_utc data_dir (fun _ => true) [r_C_up] w_C_down =
                 (Ok tt,
                  snd (run_cycle clk_utc data_dir (fun _ => true) [r_C_up]
                         w_C_down)))
    by (vm_compute; reflexivity).
  destruct (cycle_saves_batch_before_tracking clk_utc data_dir (fun _ => true)
              [r_C_up] w_C_down _ Hrun) as (evs & Ht & _ & Hall & _).
  exists evs. split; [exact Ht | exact Hall].
Defined.

Lemma cycle_alerts_changed_endpoints_witness :
  exists evs,
    trace w_first_cycle = trace w_fresh ++ evs /\ notified evs = [].
Proof.
  assert (Hnd : NoDup (map ep_url eps_ABC)).
  { apply (bool_decide_unpack _). vm_compute. exact I. }
  assert (Hrun : run_checks clk_utc data_dir eps_ABC obs_ABC [2; 0; 1]%nat
                   (fun _ => true) w_fresh = Some (Ok tt, w_first_cycle))
    by (vm_compute; reflexivity).
  destruct (cycle_alerts_changed_endpoints clk_utc data_dir eps_ABC obs_ABC
              [2; 0; 1]%nat (fun _ => true) w_fresh w_first_cycle (Ok tt)
              Hnd Hrun) as (evs & Ht & _ & Hquiet & _).
  exists evs. split; [exact Ht | apply Hquiet; reflexivity].
Defined.

(* ================================================================== *)
(** * The incident log *)
(* ================================================================== *)

Lemma checks_path_not_incidents (dir d d' : string) :
  checks_path dir d <> incidents_path dir d'.
Proof.
  unfold checks_path, incidents_path.
  induction dir as [|c dir IH]; cbn; [discriminate|].
  intros [= H]. now apply IH.
Qed.

Lemma incident_record_simple (i : Incident) :
  exists ms,
    incident_record i = JObj ms /\ Forall (fun m => simple (snd m)) ms.
Proof.
  eexists. split; [reflexivity|].
  repeat constructor.
  - destruct (was_down_since i); constructor.
  - destruct (inc_error i); constructor.
Qed.

Section IncidentLog.

Variable clk : Clock.
Variable DATA_DIR : string.

(** X10.  A call of [track_incident] never touches the check log, nor the entry
    of any other URL in the table; and a call that returns no incident
    writes no file, leaves the trace as it is and does not look at the
    clock. *)
Theorem track_incident_touches_only_its_url (r : CheckResult) (w : World) :
  (forall d,
      files (snd (track_incident clk DATA_DIR r w)) !! checks_path DATA_DIR d =
      files w !! checks_path DATA_DIR d) /\
  (forall u,
      u <> url r ->
      incident_state (snd (track_incident clk DATA_DIR r w)) !! u =
      incident_state w !! u) /\
  (fst (track_incident clk DATA_DIR r w) = Ok None ->
   files (snd (track_incident clk DATA_DIR r w)) = files w /\
   trace (snd (track_incident clk DATA_DIR r w)) = trace w /\
   ticks (snd (track_incident clk DATA_DIR r w)) = ticks w).
Proof.
  repeat apply conj.
  - intros d. rewrite track_incident_unfold.
    destruct (incident_state w !! url r) as [prev|]; [|reflexivity].
    destruct (String.eqb _ _); [reflexivity|].
    cbv zeta. cbn [snd files].
    rewrite lookup_insert_ne; [reflexivity|].
    intros H. symmetry in H. now apply checks_path_not_incidents in H.
  - intros u Hne. rewrite track_incident_state. now apply tracker_step_other.
  - rewrite track_incident_unfold.
    destruct (incident_state w !! url r) as [prev|]; [|now intros _].
    destruct (String.eqb _ _); [now intros _|].
    cbv zeta. discriminate.
Qed.

(** X11.  On a change of status, the line of the incident goes to the end of
    the partition of the incident log named after the reading of
    [date.today()] taken at that moment; the line is a single line, and
    [json.loads] reads it back as the dictionary that [track_incident]
    returns. *)
Theorem incident_line_is_logged (r : CheckResult) (w w' : World)
    (inc : Incident) :
  track_incident clk DATA_DIR r w = (Ok (Some inc), w') ->
  files w' =
    <[incidents_path DATA_DIR (date_isoformat (today_at clk (ticks w))) :=
        default ""
          (files w !! incidents_path DATA_DIR
                        (date_isoformat (today_at clk (ticks w))))
        +:+ json_dumps (incident_record inc) +:+ newline]> (files w) /\
  no_newline (json_dumps (incident_record inc)) = true /\
  json_loads (json_dumps (incident_record inc)) = Ok (incident_record inc) /\
  getitem (incident_record inc) "url" = Ok (JStr (url r)) /\
  getitem (incident_record inc) "new_status" =
    Ok (JStr (status_value (status r))) /\
  getitem (incident_record inc) "changed_at" =
    Ok (JStr (isoformat (checked_at r))) /\
  getitem (incident_record inc) "error" = Ok (json_opt JStr (error r)).
Proof.
  rewrite track_incident_unfold.
  destruct (incident_state w !! url r) as [prev|]; [|discriminate].
  destruct (String.eqb _ _); [discriminate|].
  cbv zeta. intros [= <- <-]. cbn [files].
  match goal with
  | |- context [incident_record ?i] =>
      destruct (incident_record_simple i) as (ms & Hrec & Hsimple)
  end.
  repeat apply conj; try reflexivity.
  - rewrite Hrec. now apply no_newline_object.
  - rewrite Hrec. now apply json_loads_dumps_object.
Qed.

End IncidentLog.

Lemma incident_line_is_logged_witness :
  json_loads (json_dumps (incident_record inc_C_recovery)) =
    Ok (incident_record inc_C_recovery) /\
  getitem (incident_record inc_C_recovery) "new_status" = Ok (JStr "up").
Proof.
  assert (H : track_incident clk_utc data_dir r_C_up w_C_down =
              (Ok (Some inc_C_recovery),
               snd (track_incident clk_utc data_dir r_C_up w_C_down)))
    by (vm_compute; reflexivity).
  destruct (incident_line_is_logged clk_utc data_dir r_C_up w_C_down _
              inc_C_recovery H) as (_ & _ & Hload & _ & Hnew & _).
  split; [exact Hload | exact Hnew].
Defined.

(* ================================================================== *)
(** * Reading the check log: what a successful read implies *)
(* ================================================================== *)

Lemma fst_pair {A B} (a : A) (b : B) : fst (a, b) = a.
Proof. reflexivity. Qed.

Lemma snd_pair {A B} (a : A) (b : B) : snd (a, b) = b.
Proof. reflexivity. Qed.

(** Running and inverting the steps of a computation. *)
Lemma bind_run {A B} (m : M A) (k : A -> M B) (w w1 : World) (a : A) :
  m w = (Ok a, w1) -> bind m k w = k a w1.
Proof. intros H. unfold bind. now rewrite H. Qed.

Lemma bind_raise {A B} (m : M A) (k : A -> M B) (w w1 : World) (e : exn) :
  m w = (Raise e, w1) -> bind m k w = (Raise e, w1).
Proof. intros H. unfold bind. now rewrite H. Qed.

Lemma bind_Ok_inv {A B} (m : M A) (k : A -> M B) (w w' : World) (b : B) :
  bind m k w = (Ok b, w') ->
  exists a w1, m w = (Ok a, w1) /\ k a w1 = (Ok b, w').
Proof.
  unfold bind. destruct (m w) as [[a|e] w1]; [|discriminate].
  intros H. now exists a, w1.
Qed.

Lemma result_bind_run {A B} (a : A) (f : A -> result B) : Ok a ≫= f = f a.
Proof. reflexivity. Qed.

Lemma result_bind_raise {A B} (e : exn) (f : A -> result B) :
  Raise e ≫= f = Raise e.
Proof. reflexivity. Qed.

Lemma lift_run {A} (r : result A) (w : World) (a : A) :
  r = Ok a -> lift r w = (Ok a, w).
Proof. now intros ->. Qed.

Lemma lift_raise {A} (r : result A) (w : World) (e : exn) :
  r = Raise e -> lift r w = (Raise e, w).
Proof. now intros ->. Qed.

Lemma lift_Ok_inv {A} (r : result A) (w w' : World) (a : A) :
  lift r w = (Ok a, w') -> r = Ok a /\ w' = w.
Proof. unfold lift. now intros [= -> ->]. Qed.

Lemma keep_loop_inv (cutoff : datetime) (day : list json) :
  forall checks w out w1,
    for_each (keep_if_recent cutoff) day checks w = (Ok out, w1) ->
    Forall has_time day /\
    out = checks ++ List.filter (recent cutoff) day /\ w1 = w.
Proof.
  induction day as [|c day IH]; intros checks w out w1 H.
  - cbn in H. injection H as <- <-. now rewrite app_nil_r.
  - cbn [for_each] in H. unfold bind in H.
    rewrite keep_if_recent_unfold in H.
    destruct (check_time c) as [t|e] eqn:Ht; [|discriminate].
    apply IH in H as (Hall & -> & ->).
    split; [constructor; [now exists t | exact Hall]|].
    split; [|reflexivity].
    cbn [List.filter]. unfold recent at 2. rewrite Ht.
    destruct (dt_leb cutoff t); [now rewrite <- app_assoc | reflexivity].
Qed.

(** The inner loop reads nothing of the world and leaves it alone. *)
Lemma keep_loop_pure (cutoff : datetime) (recs : list json) :
  forall checks w w0,
    for_each (keep_if_recent cutoff) recs checks w =
    (fst (for_each (keep_if_recent cutoff) recs checks w0), w).
Proof.
  induction recs as [|c recs IH]; intros checks w w0; [reflexivity|].
  cbn [for_each]. unfold bind. rewrite !keep_if_recent_unfold.
  destruct (check_time c) as [t|e]; [|reflexivity].
  apply IH.
Qed.

Section ReadInversion.

Variable clk : Clock.
Variable DATA_DIR : string.

Lemma load_checks_for_date_world (d : string) (w : World) :
  snd (load_checks_for_date DATA_DIR d w) = w.
Proof.
  unfold load_checks_for_date, bind, read_file, lift, ret.
  now destruct (files w !! checks_path DATA_DIR d).
Qed.

Lemma load_checks_for_date_fst (d : string) (w w1 : World) :
  files w1 = files w ->
  fst (load_checks_for_date DATA_DIR d w1) = fst (load_checks_for_date DATA_DIR d w).
Proof.
  intros Hf. now rewrite (load_checks_for_date_reads DATA_DIR d w w1 Hf).
Qed.

Lemma load_day_inv (now : datetime) (hours k : Z) (checks out : list json)
    (w w1 : World) :
  load_day DATA_DIR now hours k checks w = (Ok out, w1) ->
  exists d cutoff recs,
    days_before now k = Ok d /\
    hours_before now hours = Ok cutoff /\
    fst (load_checks_for_date DATA_DIR (date_isoformat (dt_date d)) w) = Ok recs /\
    Forall has_time recs /\
    out = checks ++ List.filter (recent cutoff) recs /\ w1 = w.
Proof.
  intros H. unfold load_day in H.
  apply bind_Ok_inv in H as (delta & w2 & Hdelta & H).
  apply lift_Ok_inv in Hdelta as [Hdelta ->].
  apply bind_Ok_inv in H as (d & w2 & Hd & H).
  apply lift_Ok_inv in Hd as [Hd ->].
  apply bind_Ok_inv in H as (recs & w2 & Hrecs & H).
  pose proof (load_checks_for_date_world (date_isoformat (dt_date d)) w) as Hw.
  rewrite Hrecs in Hw. cbn [snd] in Hw. subst w2.
  apply bind_Ok_inv in H as (hdelta & w2 & Hh & H).
  apply lift_Ok_inv in Hh as [Hh ->].
  apply bind_Ok_inv in H as (cutoff & w2 & Hc & H).
  apply lift_Ok_inv in Hc as [Hc ->].
  apply keep_loop_inv in H as (Hall & -> & ->).
  exists d, cutoff, recs. repeat split; try assumption.
  - unfold days_before. rewrite Hdelta. exact Hd.
  - unfold hours_before. rewrite Hh. exact Hc.
  - now rewrite Hrecs.
Qed.

(** A day of the window depends on the one partition it reads, and
    changes nothing. *)
Lemma load_day_pure (now : datetime) (hours k : Z) (checks : list json)
    (w w0 : World) :
  (forall d,
      days_before now k = Ok d ->
      files w !! checks_path DATA_DIR (date_isoformat (dt_date d)) =
      files w0 !! checks_path DATA_DIR (date_isoformat (dt_date d))) ->
  load_day DATA_DIR now hours k checks w =
  (fst (load_day DATA_DIR now hours k checks w0), w).
Proof.
  intros Hf. unfold load_day, bind, lift.
  destruct (timedelta k 0) as [delta|e] eqn:Hdelta; [|reflexivity].
  destruct (dt_sub now delta) as [d|e] eqn:Hd; [|reflexivity].
  assert (Hd' : days_before now k = Ok d)
    by (unfold days_before; rewrite Hdelta; exact Hd).
  specialize (Hf d Hd').
  unfold load_checks_for_date, bind, read_file, lift, ret. rewrite Hf.
  destruct (files w0 !! _) as [text|].
  - destruct (parse_lines (split_lines text)) as [recs|e]; [|reflexivity].
    destruct (timedelta 0 hours) as [hdelta|e]; [|reflexivity].
    destruct (dt_sub now hdelta) as [cutoff|e]; [|reflexivity].
    apply keep_loop_pure.
  - destruct (timedelta 0 hours) as [hdelta|e]; [|reflexivity].
    destruct (dt_sub now hdelta) as [cutoff|e]; reflexivity.
Qed.

(** The read of the window, as the two days and the final sort. *)
Lemma load_recent_checks_unfold (hours : Z) (w : World) :
  load_recent_checks clk DATA_DIR hours w =
  (match fst (load_day DATA_DIR (utcnow_at clk (ticks w)) hours 0 [] (ticked w)) with
   | Ok out0 =>
       match fst (load_day DATA_DIR (utcnow_at clk (ticks w)) hours 1 out0
                    (ticked w)) with
       | Ok out1 => sorted_by_checked_at_desc out1
       | Raise e => Raise e
       end
   | Raise e => Raise e
   end, ticked w).
Proof.
  unfold load_recent_checks, bind, datetime_utcnow.
  cbn [for_each]. unfold bind.
  change (mkWorld (files w) (incident_state w) (S (ticks w)) (trace w))
    with (ticked w).
  pose proof (load_day_pure (utcnow_at clk (ticks w)) hours 0 [] (ticked w)
                (ticked w) (fun _ _ => eq_refl)) as E0.
  destruct (load_day DATA_DIR _ hours 0 [] (ticked w)) as [[out0|e] w1];
    cbn [fst] in E0 |- *; injection E0 as ->; [|reflexivity].
  pose proof (load_day_pure (utcnow_at clk (ticks w)) hours 1 out0 (ticked w)
                (ticked w) (fun _ _ => eq_refl)) as E1.
  destruct (load_day DATA_DIR _ hours 1 out0 (ticked w)) as [[out1|e] w2];
    cbn [fst] in E1 |- *; injection E1 as ->; reflexivity.
Qed.

(** A read of the window that returns has found both partitions readable,
    with a timestamp in every record; it returns the recent records of
    the two, sorted, and leaves the world as it was but for one look at
    the clock. *)
Lemma load_recent_checks_inv (hours : Z) (w w' : World) (L : list json) :
  load_recent_checks clk DATA_DIR hours w = (Ok L, w') ->
  w' = ticked w /\
  exists today yesterday cutoff T Y,
    days_before (utcnow_at clk (ticks w)) 0 = Ok today /\
    days_before (utcnow_at clk (ticks w)) 1 = Ok yesterday /\
    hours_before (utcnow_at clk (ticks w)) hours = Ok cutoff /\
    fst (load_checks_for_date DATA_DIR (date_isoformat (dt_date today)) w) = Ok T /\
    fst (load_checks_for_date DATA_DIR (date_isoformat (dt_date yesterday)) w)
      = Ok Y /\
    Forall has_time (T ++ Y) /\
    sorted_by_checked_at_desc (List.filter (recent cutoff) (T ++ Y)) = Ok L.
Proof.
  intros H. rewrite load_recent_checks_unfold in H.
  apply pair_equal_spec in H as [H <-]. split; [reflexivity|].
  pose proof (load_day_pure (utcnow_at clk (ticks w)) hours 0 [] (ticked w)
                (ticked w) (fun _ _ => eq_refl)) as H0.
  destruct (fst (load_day DATA_DIR (utcnow_at clk (ticks w)) hours 0 []
                   (ticked w))) as [out0|e]; [|discriminate].
  apply load_day_inv in H0 as (today & cutoff & T & Ht & Hc & HT & HallT & -> & _).
  pose proof (load_day_pure (utcnow_at clk (ticks w)) hours 1
                ([] ++ List.filter (recent cutoff) T) (ticked w)
                (ticked w) (fun _ _ => eq_refl)) as H1.
  destruct (fst (load_day DATA_DIR (utcnow_at clk (ticks w)) hours 1
                   ([] ++ List.filter (recent cutoff) T) (ticked w)))
    as [out1|e]; [|discriminate].
  apply load_day_inv in H1
    as (yesterday & cutoff' & Y & Hy & Hc' & HY & HallY & -> & _).
  rewrite Hc in Hc'. injection Hc' as <-.
  exists today, yesterday, cutoff, T, Y.
  rewrite (load_checks_for_date_fst _ w (ticked w) eq_refl) in HT.
  rewrite (load_checks_for_date_fst _ w (ticked w) eq_refl) in HY.
  split; [exact Ht|]. split; [exact Hy|]. split; [exact Hc|].
  split; [exact HT|]. split; [exact HY|]. split.
  - apply Forall_app. split; assumption.
  - rewrite List.filter_app. exact H.
Qed.

(** What comes back is sorted by timestamp text, most recent first, and
    every record of it has a timestamp. *)
Lemma load_recent_checks_sorted (hours : Z) (w w' : World) (L : list json) :
  load_recent_checks clk DATA_DIR hours w = (Ok L, w') ->
  StronglySorted stamp_desc L /\ Forall has_time L.
Proof.
  intros H. apply load_recent_checks_inv in H
    as (_ & today & yesterday & cutoff & T & Y & _ & _ & _ & _ & _ & Hall & Hs).
  pose proof (has_time_filter cutoff _ Hall) as Hkept.
  destruct (sorted_by_checked_at_desc_spec _ Hkept) as (L' & HL' & Hperm & Hsorted).
  rewrite Hs in HL'. injection HL' as <-.
  split; [exact Hsorted|].
  rewrite List.Forall_forall in *. intros c Hc.
  apply Hkept. now apply (Permutation_in _ Hperm).
Qed.

(** The read of a store whose two partitions are readable, with a
    timestamp in every record. *)
Lemma load_recent_checks_run (hours : Z) (w : World)
    (today yesterday cutoff : datetime) (T Y : list json) :
  days_before (utcnow_at clk (ticks w)) 0 = Ok today ->
  days_before (utcnow_at clk (ticks w)) 1 = Ok yesterday ->
  hours_before (utcnow_at clk (ticks w)) hours = Ok cutoff ->
  fst (load_checks_for_date DATA_DIR (date_isoformat (dt_date today)) w) = Ok T ->
  fst (load_checks_for_date DATA_DIR (date_isoformat (dt_date yesterday)) w) = Ok Y ->
  Forall has_time (T ++ Y) ->
  fst (load_recent_checks clk DATA_DIR hours w) =
  sorted_by_checked_at_desc (List.filter (recent cutoff) (T ++ Y)).
Proof.
  intros Htoday Hyesterday Hcutoff HT HY Hall.
  apply Forall_app in Hall as [HallT HallY].
  rewrite load_recent_checks_unfold. cbn [fst].
  rewrite (load_day_unfold DATA_DIR _ hours 0 [] w (ticked w) today cutoff T)
    by (assumption || reflexivity).
  cbn [fst].
  rewrite (load_day_unfold DATA_DIR _ hours 1 _ w (ticked w) yesterday cutoff Y)
    by (assumption || reflexivity).
  cbn [fst app]. now rewrite List.filter_app.
Qed.

Lemma load_recent_checks_world (hours : Z) (w : World) :
  snd (load_recent_checks clk DATA_DIR hours w) = ticked w.
Proof. rewrite load_recent_checks_unfold. apply snd_pair. Qed.

Lemma load_recent_checks_agree (hours : Z) (w w0 : World) :
  ticks w = ticks w0 ->
  (forall k d,
      k = 0 \/ k = 1 ->
      days_before (utcnow_at clk (ticks w)) k = Ok d ->
      files w !! checks_path DATA_DIR (date_isoformat (dt_date d)) =
      files w0 !! checks_path DATA_DIR (date_isoformat (dt_date d))) ->
  fst (load_recent_checks clk DATA_DIR hours w) =
  fst (load_recent_checks clk DATA_DIR hours w0).
Proof.
  intros Ht Hf.
  rewrite (load_recent_checks_unfold hours w), (load_recent_checks_unfold hours w0).
  rewrite !fst_pair. rewrite <- Ht.
  assert (H0 : forall checks k,
             k = 0 \/ k = 1 ->
             fst (load_day DATA_DIR (utcnow_at clk (ticks w)) hours k checks
                    (ticked w)) =
             fst (load_day DATA_DIR (utcnow_at clk (ticks w)) hours k checks
                    (ticked w0))).
  { intros checks k Hk.
    rewrite (load_day_pure _ hours k checks (ticked w) (ticked w0)).
    - apply fst_pair.
    - intros d Hd. exact (Hf k d Hk Hd). }
  rewrite (H0 [] 0) by now left.
  destruct (fst (load_day DATA_DIR _ hours 0 [] (ticked w0))) as [out0|e];
    [|reflexivity].
  rewrite (H0 out0 1) by now right.
  reflexivity.
Qed.

End ReadInversion.

(* ================================================================== *)
(** * Reading the check log: reach and failures *)
(* ================================================================== *)

Lemma parse_lines_error (ls : list string) (e : exn) :
  parse_lines ls = Raise e -> e = JSONDecodeError.
Proof.
  induction ls as [|l ls IH]; [discriminate|]. cbn [parse_lines].
  destruct (is_blank l); [exact IH|].
  unfold json_loads at 1.
  destruct (parse_value _ _) as [[v rest]|].
  - destruct (skip_ws rest).
    + destruct (parse_lines ls) as [cs|e']; [discriminate|].
      intros [= <-]. now apply IH.
    + now intros [= <-].
  - now intros [= <-].
Qed.

Lemma parse_lines_refused (ls : list string) (line : string) :
  In line ls -> is_blank line = false ->
  (forall c, json_loads line <> Ok c) ->
  parse_lines ls = Raise JSONDecodeError.
Proof.
  intros Hin Hnb Hbad.
  destruct (parse_lines ls) as [cs|e] eqn:Hp;
    [|now rewrite (parse_lines_error ls e Hp)].
  exfalso. revert cs Hp.
  induction ls as [|l ls IH]; intros cs Hp; [contradiction|].
  cbn [parse_lines] in Hp. destruct Hin as [->|Hin].
  - rewrite Hnb in Hp.
    destruct (json_loads line) as [c|e] eqn:Hl; [|discriminate].
    now apply (Hbad c).
  - destruct (is_blank l); [now apply (IH Hin cs)|].
    destruct (json_loads l) as [c|e]; [|discriminate].
    destruct (parse_lines ls) as [cs'|e]; [|discriminate].
    now apply (IH Hin cs').
Qed.

Section ReadReach.

Variable clk : Clock.
Variable DATA_DIR : string.

Lemma load_day_refused (now : datetime) (hours k : Z) (checks : list json)
    (w : World) (d : datetime) (text : string) :
  days_before now k = Ok d ->
  files w !! checks_path DATA_DIR (date_isoformat (dt_date d)) = Some text ->
  parse_lines (split_lines text) = Raise JSONDecodeError ->
  fst (load_day DATA_DIR now hours k checks w) = Raise JSONDecodeError.
Proof.
  intros Hd Hf Hp. unfold days_before in Hd.
  apply result_bind_Ok in Hd as (delta & Hdelta & Hd).
  unfold load_day, bind, lift. rewrite Hdelta, Hd.
  unfold load_checks_for_date, bind, read_file, lift. now rewrite Hf, Hp.
Qed.

Lemma window_refused (hours k : Z) (w : World) (d : datetime)
    (text line : string) :
  k = 0 \/ k = 1 ->
  days_before (utcnow_at clk (ticks w)) k = Ok d ->
  files w !! checks_path DATA_DIR (date_isoformat (dt_date d)) = Some text ->
  In line (split_lines text) ->
  is_blank line = false ->
  (forall c, json_loads line <> Ok c) ->
  exists e,
    fst (load_recent_checks clk DATA_DIR hours w) = Raise e /\
    (k = 0 -> e = JSONDecodeError).
Proof.
  intros Hk Hd Hf Hin Hnb Hbad.
  pose proof (parse_lines_refused _ line Hin Hnb Hbad) as Hp.
  rewrite load_recent_checks_unfold. cbn [fst].
  destruct Hk as [->| ->].
  - rewrite (load_day_refused _ hours 0 [] (ticked w) d text Hd Hf Hp).
    now exists JSONDecodeError.
  - destruct (fst (load_day DATA_DIR _ hours 0 [] (ticked w))) as [out0|e].
    + rewrite (load_day_refused _ hours 1 out0 (ticked w) d text Hd Hf Hp).
      exists JSONDecodeError. split; [reflexivity | lia].
    + exists e. split; [reflexivity | lia].
Qed.

(** X12.  [load_recent_checks] looks at the partitions of the UTC date and of
    the day before, and at nothing else: two stores that agree on these
    two partitions give the same answer, whatever the number of hours
    asked for, so a record in an older partition is never returned.  The
    read changes no file and no tracker entry; it looks at the clock
    once. *)
Theorem load_recent_checks_reads_two_partitions (hours : Z) (w w0 : World) :
  ticks w = ticks w0 ->
  (forall k d,
      k = 0 \/ k = 1 ->
      days_before (utcnow_at clk (ticks w)) k = Ok d ->
      files w !! checks_path DATA_DIR (date_isoformat (dt_date d)) =
      files w0 !! checks_path DATA_DIR (date_isoformat (dt_date d))) ->
  fst (load_recent_checks clk DATA_DIR hours w) =
    fst (load_recent_checks clk DATA_DIR hours w0) /\
  snd (load_recent_checks clk DATA_DIR hours w) =
    mkWorld (files w) (incident_state w) (S (ticks w)) (trace w).
Proof.
  intros Ht Hf. split.
  - now apply load_recent_checks_agree.
  - apply (load_recent_checks_world clk DATA_DIR hours w).
Qed.

(** X13.  A line of plain characters that the decoder refuses, in the partition
    of the UTC date or of the day before, fails every read of the window:
    the read raises.  The uptime report and the status summary, which
    start by reading the window, raise with it. *)
Theorem undecodable_line_fails_the_window (hours k : Z) (w : World)
    (d : datetime) (text line : string) :
  k = 0 \/ k = 1 ->
  days_before (utcnow_at clk (ticks w)) k = Ok d ->
  files w !! checks_path DATA_DIR (date_isoformat (dt_date d)) = Some text ->
  In line (split_lines text) ->
  plain_line line = true ->
  is_blank line = false ->
  (forall c, json_loads line <> Ok c) ->
  (exists e,
      fst (load_recent_checks clk DATA_DIR hours w) = Raise e /\
      (forall u, fst (calculate_uptime clk DATA_DIR u hours w) = Raise e)) /\
  (exists e, fst (get_status_summary clk DATA_DIR w) = Raise e).
Proof.
  intros Hk Hd Hf Hin _ Hnb Hbad. split.
  - destruct (window_refused hours k w d text line Hk Hd Hf Hin Hnb Hbad)
      as (e & He & Hk0).
    exists e. split; [exact He|].
    intros u. unfold calculate_uptime, bind.
    destruct (load_recent_checks clk DATA_DIR hours w) as [[L|e'] w1];
      cbn [fst] in He |- *; congruence.
  - destruct (window_refused 1 k w d text line Hk Hd Hf Hin Hnb Hbad)
      as (e & He & _).
    exists e. unfold get_status_summary, bind.
    destruct (load_recent_checks clk DATA_DIR 1 w) as [[L|e'] w1];
      cbn [fst] in He |- *; congruence.
Qed.

End ReadReach.

Lemma load_recent_checks_reads_two_partitions_witness :
  fst (load_recent_checks clk_utc data_dir 72 w_two_and_old) =
  fst (load_recent_checks clk_utc data_dir 72 w_two).
Proof.
  apply (load_recent_checks_reads_two_partitions clk_utc data_dir 72
           w_two_and_old w_two).
  - reflexivity.
  - intros k d [->| ->] Hd; vm_compute in Hd; injection Hd as <-;
      vm_compute; reflexivity.
Defined.

Lemma undecodable_line_fails_the_window_witness :
  exists e, fst (load_recent_checks clk_utc data_dir 24 w_torn) = Raise e.
Proof.
  destruct (undecodable_line_fails_the_window clk_utc data_dir 24 0 w_torn
              (mkdt 2024 3 1 12 5 0 0) "{" "{") as [(e & He & _) _].
  - now left.
  - vm_compute. reflexivity.
  - vm_compute. reflexivity.
  - now left.
  - reflexivity.
  - reflexivity.
  - intros c. vm_compute. discriminate.
  - now exists e.
Defined.

(* ================================================================== *)
(** * Writing and reading back whole batches *)
(* ================================================================== *)

(** The text of a record is one line that is not blank, whatever its
    fields hold. *)
Lemma check_record_one_line (r : CheckResult) :
  no_newline (json_dumps (check_record r)) = true.
Proof.
  unfold check_record. rewrite json_dumps_obj. cbn [dumps_members json_dumps].
  rewrite !no_newline_app, !no_newline_encode, no_newline_float_repr.
  assert (H1 : no_newline (json_dumps (json_opt JInt (status_code r))) = true).
  { destruct (status_code r); cbn; [apply no_newline_str_of_Z | reflexivity]. }
  assert (H2 : no_newline (json_dumps (json_opt JStr (error r))) = true).
  { destruct (error r); cbn [json_opt json_dumps];
      [apply no_newline_encode | reflexivity]. }
  rewrite H1, H2. reflexivity.
Qed.

Lemma lines_text_app (a b : list string) :
  lines_text (a ++ b) = lines_text a +:+ lines_text b.
Proof.
  unfold lines_text, join. induction a as [|l a IH]; [reflexivity|].
  cbn [app map foldr]. rewrite IH. now rewrite !string_app_assoc.
Qed.

Lemma join_check_lines (results : list CheckResult) :
  join (map check_line results) =
  lines_text (map (fun r => json_dumps (check_record r)) results).
Proof.
  unfold lines_text. now rewrite map_map.
Qed.

Lemma lines_text_empty (ls : list string) : lines_text ls = "" -> ls = [].
Proof.
  destruct ls as [|l ls]; [reflexivity|].
  unfold lines_text, join. cbn [map foldr]. intros H.
  destruct l; discriminate H.
Qed.

Lemma parse_record_lines (results : list CheckResult) :
  Forall (fun r => round2 (response_time_ms r) = response_time_ms r) results ->
  parse_lines (map (fun r => json_dumps (check_record r)) results) =
  Ok (map check_record results).
Proof.
  induction 1 as [|r results Hr _ IH]; [reflexivity|].
  cbn [map parse_lines].
  destruct (check_record_simple r Hr) as (ms & Hrec & Hsimple).
  rewrite Hrec, is_blank_object, json_loads_dumps_object by assumption.
  rewrite <- Hrec, IH. reflexivity.
Qed.

Lemma appended_to_check_events (clk : Clock) (dir : string) (d : date)
    (results : list CheckResult) :
  forall n,
    (forall i, (i < length results)%nat -> today_at clk (n + i) = d) ->
    appended_to (checks_path dir (date_isoformat d))
      (check_events clk dir n results) =
    map check_line results.
Proof.
  unfold check_events.
  induction results as [|r results IH]; intros n Hd; [reflexivity|].
  rewrite imap_cons. cbn [appended_to map].
  rewrite Nat.add_0_r, <- (Nat.add_0_r n) at 1.
  rewrite (Hd 0%nat) by (cbn; lia). rewrite String.eqb_refl. f_equal.
  rewrite <- (IH (S n)).
  - f_equal. apply imap_ext. intros i x _. cbn. now rewrite Nat.add_succ_r.
  - intros i Hi. replace (S n + i)%nat with (n + S i)%nat by lia.
    apply Hd. cbn. lia.
Qed.

Section BatchRoundTrip.

Variable clk : Clock.
Variable DATA_DIR : string.

(** The partition of the day after a batch was saved into it. *)
Lemma save_checks_load (results : list CheckResult) (w : World) (d : date)
    (lines : list string) (before : list json) :
  (forall i, (i < length results)%nat -> today_at clk (ticks w + i) = d) ->
  Forall (fun r => round2 (response_time_ms r) = response_time_ms r) results ->
  default "" (files w !! checks_path DATA_DIR (date_isoformat d)) =
    lines_text lines ->
  Forall (fun l => no_newline l = true) lines ->
  parse_lines lines = Ok before ->
  fst (load_checks_for_date DATA_DIR (date_isoformat d)
         (snd (save_checks clk DATA_DIR results w))) =
  Ok (before ++ map check_record results).
Proof.
  intros Hd Hq Hold Hlines Hbefore.
  rewrite save_checks_run. cbn [snd].
  unfold load_checks_for_date, bind, read_file, lift, ret. cbn [files fst].
  pose proof (replay_content (check_events clk DATA_DIR (ticks w) results)
                (files w) (checks_path DATA_DIR (date_isoformat d))) as Hc.
  rewrite (appended_to_check_events clk DATA_DIR d results (ticks w) Hd),
    Hold, join_check_lines, <- lines_text_app in Hc.
  destruct (replay _ _ !! _) as [text|]; cbn [default from_option id] in Hc.
  - subst text. cbn [fst]. rewrite split_lines_text.
    + rewrite parse_lines_app, parse_lines_app, Hbefore,
        (parse_record_lines results Hq).
      cbn. now rewrite app_nil_r.
    + apply Forall_app. split; [exact Hlines|].
      apply Forall_map. apply Forall_forall. intros r _.
      apply check_record_one_line.
  - symmetry in Hc. apply lines_text_empty in Hc.
    apply app_eq_nil in Hc as [-> Hmap]. apply map_eq_nil in Hmap. subst results.
    cbn in Hbefore. injection Hbefore as <-. reflexivity.
Qed.

(** X14.  A batch saved while the local date stays the same is read back from
    the partition of that date as the records of its results, in the
    order of the batch, after the records that were already there; and
    every line written is a single line, whatever the URL and the error
    text hold. *)
Theorem save_checks_then_load (results : list CheckResult) (w : World)
    (d : date) (lines : list string) (before : list json) :
  (forall i, (i < length results)%nat -> today_at clk (ticks w + i) = d) ->
  Forall (fun r => round2 (response_time_ms r) = response_time_ms r) results ->
  default "" (files w !! checks_path DATA_DIR (date_isoformat d)) =
    lines_text lines ->
  Forall (fun l => no_newline l = true) lines ->
  parse_lines lines = Ok before ->
  fst (load_checks_for_date DATA_DIR (date_isoformat d)
         (snd (save_checks clk DATA_DIR results w))) =
    Ok (before ++ map check_record results) /\
  Forall (fun r => no_newline (json_dumps (check_record r)) = true /\
                   is_blank (json_dumps (check_record r)) = false) results.
Proof.
  intros Hd Hq Hold Hlines Hbefore.
  split; [now apply (save_checks_load results w d lines before)|].
  apply Forall_forall. intros r _.
  split; [apply check_record_one_line | apply is_blank_object].
Qed.

(** X15.  A result that was just saved is found by the next read of the window,
    provided the local date at the write is the UTC date at the read, the
    result is stamped at or after the start of the window, and the two
    partitions are made of whole lines that decode to records with a
    timestamp. *)
Theorem saved_result_is_in_window (r : CheckResult) (hours : Z) (w : World)
    (today yesterday cutoff : datetime) (lines : list string)
    (before Y : list json) :
  days_before (utcnow_at clk (S (ticks w))) 0 = Ok today ->
  days_before (utcnow_at clk (S (ticks w))) 1 = Ok yesterday ->
  hours_before (utcnow_at clk (S (ticks w))) hours = Ok cutoff ->
  today_at clk (ticks w) = dt_date today ->
  round2 (response_time_ms r) = response_time_ms r ->
  dt_valid (checked_at r) = true ->
  dt_leb cutoff (checked_at r) = true ->
  default "" (files w !! checks_path DATA_DIR (date_isoformat (dt_date today))) =
    lines_text lines ->
  Forall (fun l => no_newline l = true) lines ->
  parse_lines lines = Ok before ->
  Forall has_time before ->
  fst (load_checks_for_date DATA_DIR (date_isoformat (dt_date yesterday))
         (snd (save_check clk DATA_DIR r w))) = Ok Y ->
  Forall has_time Y ->
  exists L,
    fst (load_recent_checks clk DATA_DIR hours (snd (save_check clk DATA_DIR r w)))
      = Ok L /\
    In (check_record r) L.
Proof.
  intros Htoday Hyesterday Hcutoff Hdate Hq Hvalid Hrecent Hold Hlines Hbefore
    Hbefore_time HY HY_time.
  assert (Hsave : save_check clk DATA_DIR r w =
                  (Ok tt, snd (save_checks clk DATA_DIR [r] w))).
  { unfold save_checks. cbn [for_each]. unfold bind.
    rewrite save_check_unfold. reflexivity. }
  assert (HT : fst (load_checks_for_date DATA_DIR (date_isoformat (dt_date today))
                      (snd (save_check clk DATA_DIR r w))) =
               Ok (before ++ [check_record r])).
  { rewrite Hsave. cbn [snd].
    apply (save_checks_load [r] w (dt_date today) lines before);
      try assumption.
    - intros i Hi. cbn in Hi. replace i with 0%nat by lia.
      now rewrite Nat.add_0_r.
    - now constructor. }
  assert (Hrec_time : check_time (check_record r) = Ok (checked_at r)).
  { unfold check_time. cbn [sort_key]. now apply fromisoformat_isoformat. }
  assert (Hall : Forall has_time ((before ++ [check_record r]) ++ Y)).
  { apply Forall_app. split; [|exact HY_time].
    apply Forall_app. split; [exact Hbefore_time|].
    constructor; [|constructor]. now exists (checked_at r). }
  assert (Hticks : ticks (snd (save_check clk DATA_DIR r w)) = S (ticks w))
    by now rewrite save_check_unfold.
  pose proof (load_recent_checks_run clk DATA_DIR hours
                (snd (save_check clk DATA_DIR r w)) today yesterday cutoff
                (before ++ [check_record r]) Y) as Hrun.
  rewrite Hticks in Hrun.
  specialize (Hrun Htoday Hyesterday Hcutoff HT HY Hall).
  pose proof (has_time_filter cutoff _ Hall) as Hkept.
  destruct (sorted_by_checked_at_desc_spec _ Hkept) as (L & HL & Hperm & _).
  exists L. split; [now rewrite Hrun|].
  apply (Permutation_in _ (Permutation_sym Hperm)).
  apply filter_In. split.
  - apply in_or_app. left. apply in_or_app. right. now left.
  - unfold recent. now rewrite Hrec_time.
Qed.

End BatchRoundTrip.

Lemma save_checks_then_load_witness :
  fst (load_checks_for_date data_dir "2024-03-01" w_two) =
  Ok [check_record r_C_down; check_record r_C_up].
Proof.
  apply (save_checks_then_load clk_utc data_dir [r_C_down; r_C_up] w_fresh
           (mkdate 2024 3 1) [] []).
  - intros i _. reflexivity.
  - repeat constructor.
  - reflexivity.
  - constructor.
  - reflexivity.
Defined.

Lemma saved_result_is_in_window_witness :
  exists L,
    fst (load_recent_checks clk_utc data_dir 1
           (snd (save_check clk_utc data_dir r_C_down w_fresh))) = Ok L /\
    In (check_record r_C_down) L.
Proof.
  assert (H1 : days_before (utcnow_at clk_utc (S (ticks w_fresh))) 0 =
               Ok (mkdt 2024 3 1 12 5 1 0)) by (vm_compute; reflexivity).
  assert (H2 : days_before (utcnow_at clk_utc (S (ticks w_fresh))) 1 =
               Ok (mkdt 2024 2 29 12 5 1 0)) by (vm_compute; reflexivity).
  assert (H3 : hours_before (utcnow_at clk_utc (S (ticks w_fresh))) 1 =
               Ok (mkdt 2024 3 1 11 5 1 0)) by (vm_compute; reflexivity).
  assert (H4 : today_at clk_utc (ticks w_fresh) =
               dt_date (mkdt 2024 3 1 12 5 1 0)) by reflexivity.
  assert (H5 : round2 (response_time_ms r_C_down) = response_time_ms r_C_down)
    by (vm_compute; reflexivity).
  assert (H6 : dt_valid (checked_at r_C_down) = true) by (vm_compute; reflexivity).
  assert (H7 : dt_leb (mkdt 2024 3 1 11 5 1 0) (checked_at r_C_down) = true)
    by (vm_compute; reflexivity).
  assert (H8 : default ""
                 (files w_fresh
                    !! checks_path data_dir
                         (date_isoformat (dt_date (mkdt 2024 3 1 12 5 1 0)))) =
               lines_text []) by (vm_compute; reflexivity).
  assert (H9 : fst (load_checks_for_date data_dir
                      (date_isoformat (dt_date (mkdt 2024 2 29 12 5 1 0)))
                      (snd (save_check clk_utc data_dir r_C_down w_fresh))) =
               Ok []) by (vm_compute; reflexivity).
  exact (saved_result_is_in_window clk_utc data_dir r_C_down 1 w_fresh
           (mkdt 2024 3 1 12 5 1 0) (mkdt 2024 2 29 12 5 1 0)
           (mkdt 2024 3 1 11 5 1 0) [] [] []
           H1 H2 H3 H4 H5 H6 H7 H8 ltac:(constructor) eq_refl ltac:(constructor)
           H9 ltac:(constructor)).
Defined.

(* ================================================================== *)
(** * A window that reaches before the calendar *)
(* ================================================================== *)

Lemma days_before_month_bound (y m : Z) :
  1 <= m <= 12 -> 0 <= days_before_month y m <= 335.
Proof.
  intros Hm. unfold days_before_month.
  assert (Hleap : 0 <= (if (2 <? m) && is_leap y then 1 else 0) <= 1)
    by (destruct ((2 <? m) && is_leap y); lia).
  assert (Hcases : m = 1 \/ m = 2 \/ m = 3 \/ m = 4 \/ m = 5 \/ m = 6 \/
                   m = 7 \/ m = 8 \/ m = 9 \/ m = 10 \/ m = 11 \/ m = 12) by lia.
  destruct Hcases as [->|[->|[->|[->|[->|[->|[->|[->|[->|[->|[->| ->]]]]]]]]]]];
    cbn [days_before_month_tbl] in *; lia.
Qed.

Lemma dt_to_us_bound (t : datetime) :
  dt_valid t = true -> dt_to_us t < 3652160 * US_PER_DAY.
Proof.
  intros Hv. apply dt_valid_bounds in Hv
    as (Hy & Hm & Hd & Hh & Hmi & Hs & Hus).
  unfold dt_to_us, ymd2ord, days_before_year, US_PER_DAY.
  pose proof (days_before_month_bound (year t) (month t) Hm) as Hbm.
  assert (H4 : (year t - 1) / 4 < 2500)
    by (apply Z.div_lt_upper_bound; lia).
  assert (H100 : 0 <= (year t - 1) / 100) by (apply Z.div_pos; lia).
  assert (H400 : (year t - 1) / 400 < 25)
    by (apply Z.div_lt_upper_bound; lia).
  cbv zeta. lia.
Qed.

Lemma hours_before_overflow (now : datetime) (hours : Z) :
  dt_valid now = true -> 87660000 <= hours ->
  hours_before now hours = Raise OverflowError.
Proof.
  intros Hv Hh. unfold hours_before, timedelta. cbv zeta.
  destruct (_ && _); [|reflexivity].
  cbn [mbind result_bind]. unfold dt_sub. cbv zeta.
  pose proof (dt_to_us_bound now Hv) as Hb. unfold US_PER_DAY in *.
  assert (Hneg : (dt_to_us now - (0 * 86400000000 + hours * 3600000000))
                   / 86400000000 <= 0).
  { apply Z.lt_succ_r. apply Z.div_lt_upper_bound; lia. }
  destruct (0 <? _) eqn:Hpos; [|reflexivity].
  apply Z.ltb_lt in Hpos. lia.
Qed.

Section WindowOverflow.

Variable clk : Clock.
Variable DATA_DIR : string.

Lemma load_day_cutoff_raises (now : datetime) (hours k : Z)
    (checks recs : list json) (w : World) (d : datetime) (e : exn) :
  days_before now k = Ok d ->
  fst (load_checks_for_date DATA_DIR (date_isoformat (dt_date d)) w) = Ok recs ->
  hours_before now hours = Raise e ->
  fst (load_day DATA_DIR now hours k checks w) = Raise e.
Proof.
  intros Hd Hrecs Hh. unfold days_before in Hd.
  apply result_bind_Ok in Hd as (delta & Hdelta & Hd).
  assert (Hload : load_checks_for_date DATA_DIR (date_isoformat (dt_date d)) w =
                  (Ok recs, w)).
  { rewrite (load_checks_for_date_reads DATA_DIR _ w w eq_refl), Hrecs.
    reflexivity. }
  unfold load_day.
  rewrite (bind_run _ _ w w delta (lift_run _ w delta Hdelta)).
  rewrite (bind_run _ _ w w d (lift_run _ w d Hd)).
  rewrite (bind_run _ _ w w recs Hload).
  unfold hours_before in Hh.
  destruct (timedelta 0 hours) as [hdelta|e'] eqn:Hhd.
  - rewrite result_bind_run in Hh.
    rewrite (bind_run _ _ w w hdelta (lift_run _ w hdelta eq_refl)).
    rewrite (bind_raise _ _ w w e (lift_raise _ w e Hh)).
    apply fst_pair.
  - rewrite result_bind_raise in Hh.
    rewrite (bind_raise _ _ w w e' (lift_raise _ w e' eq_refl)).
    rewrite fst_pair. now injection Hh as ->.
Qed.

(** X16.  The number of hours is the caller's.  With 87660000 hours or more,
    ten thousand years, the start of the window falls before the first
    day of the calendar: for a host whose clock reads a valid datetime and
    a partition of the day that can be read, the read of the window
    raises [OverflowError], and so do the two handlers that pass their
    [hours] parameter on. *)
Theorem window_before_the_calendar_overflows (hours : Z) (w : World)
    (today : datetime) (T : list json) :
  dt_valid (utcnow_at clk (ticks w)) = true ->
  87660000 <= hours ->
  days_before (utcnow_at clk (ticks w)) 0 = Ok today ->
  fst (load_checks_for_date DATA_DIR (date_isoformat (dt_date today)) w) = Ok T ->
  fst (load_recent_checks clk DATA_DIR hours w) = Raise OverflowError /\
  (forall limit, fst (get_checks clk DATA_DIR hours limit w) = Raise OverflowError) /\
  (forall u, fst (get_endpoint_uptime clk DATA_DIR u hours w) = Raise OverflowError).
Proof.
  intros Hv Hh Htoday HT.
  assert (Hload : fst (load_recent_checks clk DATA_DIR hours w) =
                  Raise OverflowError).
  { rewrite load_recent_checks_unfold. cbn [fst].
    rewrite (load_day_cutoff_raises _ hours 0 [] T (ticked w) today OverflowError);
      [reflexivity | exact Htoday | | now apply hours_before_overflow].
    now rewrite (load_checks_for_date_reads DATA_DIR _ w (ticked w) eq_refl). }
  split; [exact Hload|]. split.
  - intros limit. unfold get_checks, bind.
    destruct (load_recent_checks clk DATA_DIR hours w) as [[L|e] w1];
      cbn [fst] in Hload |- *; congruence.
  - intros u. unfold get_endpoint_uptime, calculate_uptime, bind.
    destruct (load_recent_checks clk DATA_DIR hours w) as [[L|e] w1];
      cbn [fst] in Hload |- *; congruence.
Qed.

End WindowOverflow.

Lemma window_before_the_calendar_overflows_witness :
  fst (load_recent_checks clk_utc data_dir 100000000 w_two) = Raise OverflowError.
Proof.
  apply (window_before_the_calendar_overflows clk_utc data_dir 100000000 w_two
           (mkdt 2024 3 1 12 5 2 0) [check_record r_C_down; check_record r_C_up]);
    [reflexivity | lia | vm_compute; reflexivity | vm_compute; reflexivity].
Defined.


(* ================================================================== *)
(** * Properties of the float rounding *)
(* ================================================================== *)












Lemma b64_zero : b64 0 = 0%Q.
Proof. reflexivity. Qed.









(* ================================================================== *)
(** * Further properties of the Aggregator *)
(* ================================================================== *)



(** The comprehension that picks the records of a URL, when it returns. *)
Lemma filter_url_Ok (u : string) (checks l : list json) :
  filter_url u checks = Ok l -> l = List.filter (rec_url_is u) checks.
Proof.
  revert l. induction checks as [|c checks IH]; intros l H.
  - cbn in H. now injection H as <-.
  - cbn [filter_url] in H. cbn [List.filter]. unfold rec_url_is at 1.
    destruct (getitem c "url") as [v|e]; [|discriminate].
    destruct (filter_url u checks) as [cs|e]; [|discriminate].
    injection H as <-. rewrite (IH cs eq_refl).
    now destruct (json_eq_str v u).
Qed.

Lemma rec_url_is_true (u : string) (c : json) :
  rec_url_is u c = true <-> getitem c "url" = Ok (JStr u).
Proof.
  unfold rec_url_is. destruct (getitem c "url") as [v|e].
  - destruct v; cbn; try (split; [discriminate | intros [=]]).
    split.
    + intros H. apply String.eqb_eq in H. now subst.
    + intros [= ->]. apply String.eqb_refl.
  - split; discriminate.
Qed.

Lemma filter_head_split {A} (f : A -> bool) (l : list A) (x : A) (rest : list A) :
  List.filter f l = x :: rest ->
  exists pre post,
    l = pre ++ x :: post /\ f x = true /\
    Forall (fun y => f y = false) pre.
Proof.
  induction l as [|y l IH]; [discriminate|]. cbn [List.filter].
  destruct (f y) eqn:Hy.
  - intros [= -> _]. exists [], l. now repeat split.
  - intros H. destruct (IH H) as (pre & post & -> & Hx & Hpre).
    exists (y :: pre), post. repeat split; [exact Hx|].
    now constructor.
Qed.

Lemma string_leb_refl (s : string) : String.leb s s = true.
Proof.
  unfold String.leb.
  induction s as [|c s IH]; [reflexivity|].
  now rewrite string_compare_cons.
Qed.

Lemma StronglySorted_app_inv_r {A} (R : A -> A -> Prop) (a b : list A) :
  StronglySorted R (a ++ b) -> StronglySorted R b.
Proof.
  induction a as [|x a IH]; [easy|].
  cbn [app]. intros H. apply StronglySorted_inv in H as [H _]. now apply IH.
Qed.

(** In a list sorted most recent first, the first element picked by a
    test is at least as recent as every element that passes the test. *)
Lemma first_match_most_recent (f : json -> bool) (L : list json) (c : json)
    (rest : list json) :
  StronglySorted stamp_desc L -> Forall has_time L ->
  List.filter f L = c :: rest ->
  In c L /\ f c = true /\
  forall c', In c' L -> f c' = true -> stamp_desc c c'.
Proof.
  intros Hsorted Htime Hf.
  destruct (filter_head_split f L c rest Hf) as (pre & post & -> & Hc & Hpre).
  split; [apply in_or_app; right; now left|]. split; [exact Hc|].
  intros c' Hin Hc'. apply in_app_or in Hin as [Hin|[<-|Hin]].
  - rewrite List.Forall_forall in Hpre. rewrite (Hpre c' Hin) in Hc'.
    discriminate.
  - rewrite List.Forall_forall in Htime.
    destruct (Htime c) as (t & Ht); [apply in_or_app; right; now left|].
    unfold check_time in Ht.
    destruct (sort_key c) as [k|e] eqn:Hk; [|discriminate].
    exists k, k. repeat split; try assumption. apply string_leb_refl.
  - apply StronglySorted_app_inv_r in Hsorted.
    apply StronglySorted_inv in Hsorted as [_ Hall].
    rewrite List.Forall_forall in Hall. now apply Hall.
Qed.

Section AggregatorMore.

Variable clk : Clock.
Variable DATA_DIR : string.


(** X18.  The last check of a report is a record of the URL that the window
    holds, and no record of the URL in the window has a later timestamp
    text. *)
Theorem last_check_is_most_recent (u : string) (hours : Z) (w w' : World)
    (rep : UptimeReport) (c : json) :
  calculate_uptime clk DATA_DIR u hours w = (Ok rep, w') ->
  last_check rep = Some c ->
  exists checks,
    load_recent_checks clk DATA_DIR hours w = (Ok checks, w') /\
    In c checks /\
    getitem c "url" = Ok (JStr u) /\
    forall c',
      In c' checks -> getitem c' "url" = Ok (JStr u) -> stamp_desc c c'.
Proof.
  unfold calculate_uptime, bind, lift. intros H Hlast.
  destruct (load_recent_checks clk DATA_DIR hours w) as [[checks|e] w1] eqn:Hload;
    [|discriminate].
  apply load_recent_checks_sorted in Hload as Hs. destruct Hs as [Hsorted Htime].
  destruct (filter_url u checks) as [url_checks|e] eqn:Hf; [|discriminate].
  apply filter_url_Ok in Hf.
  destruct url_checks as [|first rest].
  - injection H as <- _. discriminate.
  - destruct (count_up (first :: rest)) as [up_count|e]; [|discriminate].
    destruct (sum_response (first :: rest)) as [s|e]; [|discriminate].
    destruct (py_truediv s _) as [avg|e]; [|discriminate].
    destruct (py_truediv (PyInt up_count) _) as [ratio|e]; [|discriminate].
    injection H as <- <-. cbn in Hlast. injection Hlast as ->.
    symmetry in Hf.
    destruct (first_match_most_recent _ _ _ _ Hsorted Htime Hf)
      as (Hin & Hc & Hrecent).
    exists checks. split; [reflexivity|]. split; [exact Hin|].
    split; [now apply rec_url_is_true|].
    intros c' Hin' Hu. apply Hrecent; [exact Hin'|]. now apply rec_url_is_true.
Qed.

End AggregatorMore.


Lemma last_check_is_most_recent_witness :
  exists checks,
    load_recent_checks clk_utc data_dir 1 w_two =
      (Ok checks, snd (load_recent_checks clk_utc data_dir 1 w_two)) /\
    In (check_record r_C_up) checks.
Proof.
  assert (H : calculate_uptime clk_utc data_dir (ep_url ep_C) 1 w_two =
              (Ok (mkUptimeReport (ep_url ep_C) (Some (50 # 1)) 2
                     (Some (5050 # 1)) (Some (check_record r_C_up))),
               snd (load_recent_checks clk_utc data_dir 1 w_two)))
    by (vm_compute; reflexivity).
  destruct (last_check_is_most_recent clk_utc data_dir (ep_url ep_C) 1 w_two
              _ _ (check_record r_C_up) H eq_refl)
    as (checks & Hload & Hin & _).
  exists checks. now split.
Defined.

(* ================================================================== *)
(** * Properties of the status summary *)
(* ================================================================== *)

Lemma Qeq_bool_sym (x y : Q) : Qeq_bool x y = Qeq_bool y x.
Proof.
  destruct (Qeq_bool x y) eqn:H1, (Qeq_bool y x) eqn:H2; try reflexivity.
  - apply Qeq_bool_iff in H1. symmetry in H1. apply Qeq_bool_iff in H1. congruence.
  - apply Qeq_bool_iff in H2. symmetry in H2. apply Qeq_bool_iff in H2. congruence.
Qed.

Lemma Qeq_bool_trans' (x y z : Q) :
  Qeq_bool x y = true -> Qeq_bool y z = true -> Qeq_bool x z = true.
Proof.
  rewrite !Qeq_bool_iff. intros H1 H2. now rewrite H1.
Qed.

(** Equality of keys is symmetric and transitive. *)
Lemma key_eqb_sym (a b : json) : key_eqb a b = key_eqb b a.
Proof.
  destruct a, b; cbn; try reflexivity;
    try apply Qeq_bool_sym; try apply String.eqb_sym.
Qed.

Lemma key_eqb_trans (a b c : json) :
  key_eqb a b = true -> key_eqb b c = true -> key_eqb a c = true.
Proof.
  destruct a, b; cbn; try discriminate; destruct c; cbn; try discriminate;
    try apply Qeq_bool_trans'; try (intros _ H; exact H).
  intros H1 H2. apply String.eqb_eq in H1, H2. subst. apply String.eqb_refl.
Qed.

Lemma has_key_app (u : json) (a b : list (json * json)) :
  has_key u (a ++ b) = has_key u a || has_key u b.
Proof. unfold has_key. apply existsb_app. Qed.

Lemma has_key_true (u : json) (d : list (json * json)) :
  has_key u d = true <-> exists kv, In kv d /\ key_eqb (fst kv) u = true.
Proof. unfold has_key. apply existsb_exists. Qed.

Lemma has_key_false (u : json) (d : list (json * json)) :
  has_key u d = false <-> forall kv, In kv d -> key_eqb (fst kv) u = false.
Proof.
  unfold has_key. rewrite <- not_true_iff_false, existsb_exists. split.
  - intros H kv Hin. apply not_true_iff_false. intros Hk. apply H. now exists kv.
  - intros H (kv & Hin & Hk). rewrite (H kv Hin) in Hk. discriminate.
Qed.

Lemma latest_loop_spec (checks : list json) :
  forall acc out,
    latest_loop checks acc = Ok out ->
    exists added,
      out = acc ++ added /\
      fresh_keys acc added /\
      Forall (first_of_url checks) added /\
      (forall c u, In c checks -> getitem c "url" = Ok u -> has_key u out = true).
Proof.
  induction checks as [|c0 checks IH]; intros acc out H.
  - cbn in H. injection H as <-. exists []. rewrite app_nil_r.
    repeat split; [|constructor | intros c u []].
    intros a1 kv a2 Heq. now destruct a1.
  - cbn [latest_loop] in H.
    destruct (getitem c0 "url") as [u0|e] eqn:Hu0; [|discriminate].
    destruct (hashable u0) eqn:Hh; cbn [negb] in H; [|discriminate].
    destruct (has_key u0 acc) eqn:Hk.
    + destruct (IH acc out H) as (added & -> & Hfresh & Hfirst & Hcover).
      exists added. repeat split; try assumption.
      * apply List.Forall_forall. intros kv Hin.
        rewrite List.Forall_forall in Hfirst.
        destruct (Hfirst kv Hin) as (Hurl & pre & post & -> & Hpre).
        split; [exact Hurl|]. exists (c0 :: pre), post. split; [reflexivity|].
        intros c' u' [<-|Hin'] Hu'; [|now apply (Hpre c' u')].
        rewrite Hu0 in Hu'. injection Hu' as <-.
        apply not_true_iff_false. intros Heq.
        apply in_split in Hin as (a1 & a2 & ->).
        specialize (Hfresh a1 kv a2 eq_refl).
        rewrite has_key_app in Hfresh. apply orb_false_elim in Hfresh as [Hacc _].
        apply has_key_true in Hk as (k0 & Hk0in & Hk0).
        rewrite has_key_false in Hacc. specialize (Hacc k0 Hk0in).
        rewrite key_eqb_sym in Heq.
        now rewrite (key_eqb_trans _ _ _ Hk0 Heq) in Hacc.
      * intros c u [<-|Hin] Hu; [|now apply (Hcover c u)].
        rewrite Hu0 in Hu. injection Hu as <-.
        rewrite has_key_app, Hk. reflexivity.
    + destruct (IH (acc ++ [(u0, c0)]) out H)
        as (added & -> & Hfresh & Hfirst & Hcover).
      exists ((u0, c0) :: added). rewrite <- app_assoc. cbn [app].
      repeat split.
      * intros a1 kv a2 Heq. destruct a1 as [|x a1].
        -- cbn in Heq. injection Heq as <- _. now rewrite app_nil_r.
        -- cbn [app] in Heq. injection Heq as <- ->.
           specialize (Hfresh a1 kv a2 eq_refl).
           now rewrite <- app_assoc in Hfresh.
      * constructor.
        -- split; [exact Hu0|]. exists [], checks. split; [reflexivity|].
           intros c' u' [].
        -- apply List.Forall_forall. intros kv Hin.
           rewrite List.Forall_forall in Hfirst.
           destruct (Hfirst kv Hin) as (Hurl & pre & post & -> & Hpre).
           split; [exact Hurl|]. exists (c0 :: pre), post.
           split; [reflexivity|].
           intros c' u' [<-|Hin'] Hu'; [|now apply (Hpre c' u')].
           rewrite Hu0 in Hu'. injection Hu' as <-.
           apply in_split in Hin as (a1 & a2 & ->).
           specialize (Hfresh a1 kv a2 eq_refl).
           rewrite !has_key_app in Hfresh.
           apply orb_false_elim in Hfresh as [Hacc _].
           apply orb_false_elim in Hacc as [_ Hone].
           unfold has_key in Hone. cbn in Hone.
           rewrite orb_false_r in Hone. now rewrite key_eqb_sym.
      * intros c u [<-|Hin] Hu.
        -- rewrite Hu0 in Hu. injection Hu as <-.
           rewrite <- app_assoc in Hcover.
           assert (Hself : key_eqb u0 u0 = true).
           { destruct u0; cbn in Hh |- *; try discriminate; try reflexivity;
               try apply String.eqb_refl; apply Qeq_bool_iff; reflexivity. }
           apply has_key_true. exists (u0, c0). split; [|exact Hself].
           apply in_or_app. right. now left.
        -- rewrite <- app_assoc in Hcover. now apply (Hcover c u).
Qed.

Lemma summary_loop_spec (items : list (json * json)) :
  forall s0 s,
    summary_loop items s0 = Ok s ->
    exists entries,
      s_endpoints s = s_endpoints s0 ++ entries /\
      Forall2 entry_of items entries /\
      s_total s = s_total s0 /\
      s_up s = s_up s0 + Z.of_nat (length (List.filter counts_up entries)) /\
      s_down s = s_down s0 + Z.of_nat (length (List.filter counts_down entries)) /\
      s_degraded s =
        s_degraded s0 + Z.of_nat (length (List.filter counts_degraded entries)).
Proof.
  induction items as [|[u check] items IH]; intros s0 s H.
  - cbn in H. injection H as <-. exists []. rewrite app_nil_r.
    cbn. repeat split; try lia. constructor.
  - cbn [summary_loop] in H.
    destruct (getitem check "status") as [st|e] eqn:Hst; [|discriminate].
    destruct (getitem check "response_time_ms") as [rt|e] eqn:Hrt; [|discriminate].
    destruct (getitem check "checked_at") as [at_|e] eqn:Hat; [|discriminate].
    cbv zeta in H.
    apply IH in H as (entries & Hends & Hall & Htotal & Hup & Hdown & Hdeg).
    exists (mkEndpointStatus u st rt at_ :: entries).
    assert (Hentry : entry_of (u, check) (mkEndpointStatus u st rt at_))
      by (repeat split; assumption).
    unfold counts_up, counts_down, counts_degraded in *.
    cbn [List.filter es_status].
    destruct (json_eq_str st "up") eqn:Eup;
      [|destruct (json_eq_str st "down") eqn:Edown];
      cbn [negb andb length
           s_endpoints s_total s_up s_down s_degraded] in *;
      rewrite Hends, <- app_assoc; cbn [app];
      repeat split; try (constructor; assumption); lia.
Qed.

Lemma filter_partition3 (entries : list EndpointStatus) :
  (length (List.filter counts_up entries) +
   length (List.filter counts_down entries) +
   length (List.filter counts_degraded entries))%nat = length entries.
Proof.
  induction entries as [|e entries IH]; [reflexivity|].
  cbn [List.filter length]. unfold counts_up, counts_down, counts_degraded in *.
  destruct (json_eq_str (es_status e) "up"),
           (json_eq_str (es_status e) "down"); cbn [negb andb length]; lia.
Qed.

Lemma Forall2_in_l {A B} (R : A -> B -> Prop) (l : list A) (k : list B) (x : A) :
  Forall2 R l k -> In x l -> exists y, In y k /\ R x y.
Proof.
  induction 1 as [|a b l k Hab _ IH]; [intros []|].
  intros [<-|Hin].
  - exists b. split; [now left | exact Hab].
  - destruct (IH Hin) as (y & Hy & Hxy). exists y. split; [now right | exact Hxy].
Qed.

Lemma Forall2_in_r {A B} (R : A -> B -> Prop) (l : list A) (k : list B) (y : B) :
  Forall2 R l k -> In y k -> exists x, In x l /\ R x y.
Proof.
  induction 1 as [|a b l k Hab _ IH]; [intros []|].
  intros [<-|Hin].
  - exists a. split; [now left | exact Hab].
  - destruct (IH Hin) as (x & Hx & Hxy). exists x. split; [now right | exact Hxy].
Qed.

Lemma stamp_desc_refl (c : json) : has_time c -> stamp_desc c c.
Proof.
  intros (t & Ht). unfold check_time in Ht.
  destruct (sort_key c) as [k|e] eqn:Hk; [|discriminate].
  exists k, k. repeat split; try assumption. apply string_leb_refl.
Qed.

Section SummaryProperties.

Variable clk : Clock.
Variable DATA_DIR : string.

(** What a summary that is returned is made of. *)
Lemma get_status_summary_inv (w w' : World) (s : StatusSummary) :
  get_status_summary clk DATA_DIR w = (Ok s, w') ->
  exists checks items,
    load_recent_checks clk DATA_DIR 1 w = (Ok checks, w') /\
    latest_loop checks [] = Ok items /\
    Forall2 entry_of items (s_endpoints s) /\
    s_total s = Z.of_nat (length items) /\
    s_up s = Z.of_nat (length (List.filter counts_up (s_endpoints s))) /\
    s_down s = Z.of_nat (length (List.filter counts_down (s_endpoints s))) /\
    s_degraded s =
      Z.of_nat (length (List.filter counts_degraded (s_endpoints s))).
Proof.
  unfold get_status_summary, bind, lift. intros H.
  destruct (load_recent_checks clk DATA_DIR 1 w) as [[checks|e] w1];
    [|discriminate].
  destruct (latest_loop checks []) as [items|e] eqn:Hitems; [|discriminate].
  destruct (summary_loop items _) as [s1|e] eqn:Hsum; [|discriminate].
  injection H as -> ->.
  apply summary_loop_spec in Hsum
    as (entries & Hends & Hall & Htotal & Hup & Hdown & Hdeg).
  cbn [s_endpoints s_total s_up s_down s_degraded app] in *. subst entries.
  exists checks, items. repeat split; try assumption; lia.
Qed.

(** X19.  The counters of a summary that is returned: [total] is the number of
    entries, and every entry is counted once, as [up] when its status is
    the string up, as [down] when it is the string down, and as
    [degraded] for any other status, whatever it is. *)
Theorem status_summary_counts (w w' : World) (s : StatusSummary) :
  get_status_summary clk DATA_DIR w = (Ok s, w') ->
  s_total s = Z.of_nat (length (s_endpoints s)) /\
  s_up s = Z.of_nat (length (List.filter counts_up (s_endpoints s))) /\
  s_down s = Z.of_nat (length (List.filter counts_down (s_endpoints s))) /\
  s_degraded s = Z.of_nat (length (List.filter counts_degraded (s_endpoints s))) /\
  s_total s = s_up s + s_down s + s_degraded s.
Proof.
  intros H. apply get_status_summary_inv in H
    as (checks & items & _ & _ & Hall & Htotal & Hup & Hdown & Hdeg).
  apply Forall2_length in Hall.
  pose proof (filter_partition3 (s_endpoints s)) as Hp.
  repeat split; try assumption; lia.
Qed.

(** X20.  A summary that is returned has one entry for every URL of the last
    hour's window and no two entries for one URL; an entry shows the
    status, the latency and the timestamp of a record of its URL, and no
    record of that URL in the window has a later timestamp text. *)
Theorem status_summary_shows_latest_per_url (w w' : World) (s : StatusSummary) :
  get_status_summary clk DATA_DIR w = (Ok s, w') ->
  exists checks,
    load_recent_checks clk DATA_DIR 1 w = (Ok checks, w') /\
    (forall c u,
        In c checks -> getitem c "url" = Ok u ->
        exists e, In e (s_endpoints s) /\ key_eqb (es_url e) u = true) /\
    (forall i j e e',
        (i < j)%nat ->
        s_endpoints s !! i = Some e -> s_endpoints s !! j = Some e' ->
        key_eqb (es_url e) (es_url e') = false) /\
    (forall e,
        In e (s_endpoints s) ->
        exists c,
          In c checks /\
          getitem c "url" = Ok (es_url e) /\
          getitem c "status" = Ok (es_status e) /\
          getitem c "response_time_ms" = Ok (es_response_time_ms e) /\
          getitem c "checked_at" = Ok (es_last_check e) /\
          forall c' u',
            In c' checks -> getitem c' "url" = Ok u' ->
            key_eqb (es_url e) u' = true -> stamp_desc c c').
Proof.
  intros H. apply get_status_summary_inv in H
    as (checks & items & Hload & Hitems & Hall & _).
  apply load_recent_checks_sorted in Hload as Hs.
  destruct Hs as [Hsorted Htime].
  apply latest_loop_spec in Hitems as (added & Heq & Hfresh & Hfirst & Hcover).
  cbn [app] in Heq. subst added.
  exists checks. split; [exact Hload|]. repeat apply conj.
  - intros c u Hin Hu.
    pose proof (Hcover c u Hin Hu) as Hhas.
    apply has_key_true in Hhas as (kv & Hkv & Hk).
    destruct (Forall2_in_l _ _ _ kv Hall Hkv) as (e & He & (Hurl & _)).
    exists e. split; [exact He|]. now rewrite Hurl.
  - intros i j e e' Hij Hi Hj.
    destruct (Forall2_lookup_r _ _ _ i e Hall Hi) as (kv & Hkvi & (Hurl & _)).
    destruct (Forall2_lookup_r _ _ _ j e' Hall Hj) as (kv' & Hkvj & (Hurl' & _)).
    rewrite Hurl, Hurl'.
    pose proof (take_drop_middle items j kv' Hkvj) as Hsplit.
    symmetry in Hsplit. specialize (Hfresh _ _ _ Hsplit). cbn [app] in Hfresh.
    rewrite has_key_false in Hfresh. apply Hfresh.
    apply list_elem_of_In. apply elem_of_take. now exists i.
  - intros e He.
    destruct (Forall2_in_r _ _ _ e Hall He) as (kv & Hkv & (Hurl & Hst & Hrt & Hat)).
    rewrite List.Forall_forall in Hfirst.
    destruct (Hfirst kv Hkv) as (Hkurl & pre & post & Hchecks & Hpre).
    exists (snd kv). rewrite Hurl.
    assert (Hin : In (snd kv) checks)
      by (rewrite Hchecks; apply in_or_app; right; now left).
    repeat split; try assumption.
    intros c' u' Hin' Hu' Hk. rewrite Hchecks in Hin'.
    apply in_app_or in Hin' as [Hin'|[<-|Hin']].
    + rewrite (Hpre c' u' Hin' Hu') in Hk. discriminate.
    + apply stamp_desc_refl. rewrite List.Forall_forall in Htime. now apply Htime.
    + rewrite Hchecks in Hsorted. apply StronglySorted_app_inv_r in Hsorted.
      apply StronglySorted_inv in Hsorted as [_ Hpost].
      rewrite List.Forall_forall in Hpost. now apply Hpost.
Qed.

End SummaryProperties.

Lemma status_summary_counts_witness :
  s_total summary_two =
  s_up summary_two + s_down summary_two + s_degraded summary_two.
Proof.
  assert (H : get_status_summary clk_utc data_dir w_two =
              (Ok summary_two, snd (load_recent_checks clk_utc data_dir 1 w_two)))
    by (vm_compute; reflexivity).
  exact (proj2 (proj2 (proj2 (proj2
           (status_summary_counts clk_utc data_dir w_two _ summary_two H))))).
Defined.

Lemma status_summary_shows_latest_per_url_witness :
  exists checks,
    load_recent_checks clk_utc data_dir 1 w_two =
      (Ok checks, snd (load_recent_checks clk_utc data_dir 1 w_two)) /\
    forall c u,
      In c checks -> getitem c "url" = Ok u ->
      exists e, In e (s_endpoints summary_two) /\ key_eqb (es_url e) u = true.
Proof.
  assert (H : get_status_summary clk_utc data_dir w_two =
              (Ok summary_two, snd (load_recent_checks clk_utc data_dir 1 w_two)))
    by (vm_compute; reflexivity).
  destruct (status_summary_shows_latest_per_url clk_utc data_dir w_two _
              summary_two H) as (checks & Hload & Hcover & _).
  exists checks. split; [exact Hload | exact Hcover].
Defined.

(* ================================================================== *)
(** * Records that lack a field, and the reading handlers *)
(* ================================================================== *)

Lemma has_time_is_object (c : json) :
  has_time c -> exists ms, c = JObj ms.
Proof.
  intros (t & Ht). unfold check_time, sort_key, getitem in Ht.
  destruct c; try discriminate. now eexists.
Qed.

Lemma getitem_object_error (ms : list (string * json)) (k : string) (e : exn) :
  getitem (JObj ms) k = Raise e -> e = KeyError.
Proof.
  cbn. destruct (dict_get k ms); [discriminate|]. now intros [= <-].
Qed.

Lemma filter_url_no_url (u : string) (checks : list json) (c : json) :
  Forall has_time checks -> In c checks ->
  (forall v, getitem c "url" <> Ok v) ->
  filter_url u checks = Raise KeyError.
Proof.
  intros Htime Hin Hno.
  induction checks as [|c0 checks IH]; [contradiction|].
  apply Forall_cons in Htime as [Hc0 Htime].
  cbn [filter_url].
  destruct (has_time_is_object c0 Hc0) as (ms & ->).
  destruct (getitem (JObj ms) "url") as [v|e] eqn:Hu.
  - destruct Hin as [<-|Hin]; [now destruct (Hno v)|].
    now rewrite (IH Htime Hin).
  - now rewrite (getitem_object_error ms "url" e Hu).
Qed.

Lemma latest_loop_no_url (checks : list json) (c : json) :
  In c checks -> (forall v, getitem c "url" <> Ok v) ->
  forall acc, exists e, latest_loop checks acc = Raise e.
Proof.
  intros Hin Hno.
  induction checks as [|c0 checks IH]; intros acc; [contradiction|].
  cbn [latest_loop].
  destruct (getitem c0 "url") as [v|e] eqn:Hu; [|now exists e].
  destruct Hin as [<-|Hin]; [now destruct (Hno v)|].
  destruct (hashable v); cbn [negb]; [|now exists TypeError].
  destruct (has_key v acc); now apply IH.
Qed.

Section Handlers.

Variable clk : Clock.
Variable DATA_DIR : string.

(** X21.  One record without a URL in the window makes the uptime report fail
    with [KeyError] for every URL asked about, and not only for its own;
    the status summary raises as well when the record is of the last
    hour. *)
Theorem record_without_url_fails_the_reports (hours : Z) (w w' : World)
    (checks : list json) (c : json) :
  load_recent_checks clk DATA_DIR hours w = (Ok checks, w') ->
  In c checks ->
  (forall v, getitem c "url" <> Ok v) ->
  (forall u, calculate_uptime clk DATA_DIR u hours w = (Raise KeyError, w')) /\
  (hours = 1 -> exists e, get_status_summary clk DATA_DIR w = (Raise e, w')).
Proof.
  intros Hload Hin Hno.
  apply load_recent_checks_sorted in Hload as Hs. destruct Hs as [_ Htime].
  split.
  - intros u. unfold calculate_uptime, bind, lift. rewrite Hload.
    now rewrite (filter_url_no_url u checks c Htime Hin Hno).
  - intros ->. unfold get_status_summary, bind, lift. rewrite Hload.
    destruct (latest_loop_no_url checks c Hin Hno []) as (e & ->).
    now exists e.
Qed.

(** X22.  [get_checks] returns the most recent records of the window: with a
    limit that is not negative, the first [limit] of them, or all of them
    when there are fewer; with a negative limit, all of them but the last
    [-limit], the oldest, instead of none.  The count it reports is the
    number of records it returns. *)
Theorem get_checks_returns_a_prefix (hours limit : Z) (w w' : World)
    (page : ChecksPage) :
  get_checks clk DATA_DIR hours limit w = (Ok page, w') ->
  exists recent_checks,
    load_recent_checks clk DATA_DIR hours w = (Ok recent_checks, w') /\
    page_count page = Z.of_nat (length (page_checks page)) /\
    (0 <= limit ->
     page_checks page = take (Z.to_nat limit) recent_checks /\
     page_count page = Z.min limit (Z.of_nat (length recent_checks))) /\
    (limit < 0 ->
     page_checks page =
       take (length recent_checks - Z.to_nat (- limit)) recent_checks /\
     page_count page = Z.max 0 (Z.of_nat (length recent_checks) + limit)) /\
    StronglySorted stamp_desc (page_checks page).
Proof.
  unfold get_checks, bind, ret. intros H.
  destruct (load_recent_checks clk DATA_DIR hours w) as [[all|e] w1] eqn:Hload;
    [|discriminate].
  injection H as <- <-. cbn [page_checks page_count].
  exists all. split; [reflexivity|]. split; [reflexivity|].
  apply load_recent_checks_sorted in Hload as [Hsorted _].
  unfold slice_to. cbv zeta. repeat apply conj.
  - intros Hpos. destruct (limit <? 0) eqn:Hneg; [apply Z.ltb_lt in Hneg; lia|].
    assert (Htake : take (Z.to_nat (Z.min limit (Z.of_nat (length all)))) all =
                    take (Z.to_nat limit) all).
    { destruct (Z.le_gt_cases limit (Z.of_nat (length all))).
      - now rewrite Z.min_l.
      - rewrite Z.min_r, Nat2Z.id by lia.
        rewrite !take_ge by lia. reflexivity. }
    rewrite Htake. split; [reflexivity|]. rewrite length_take. lia.
  - intros Hneg. apply Z.ltb_lt in Hneg as Hneg'. rewrite Hneg'.
    assert (Hn : Z.to_nat (Z.max 0 (limit + Z.of_nat (length all))) =
                 (length all - Z.to_nat (- limit))%nat) by lia.
    rewrite Hn. split; [reflexivity|]. rewrite length_take. lia.
  - set (n := Z.to_nat _). clearbody n.
    rewrite <- (take_drop n all) in Hsorted.
    revert Hsorted. generalize (take n all) (drop n all).
    intros a b. induction a as [|x a IH]; [constructor|].
    cbn [app]. intros Hs. apply StronglySorted_inv in Hs as [Hs Hx].
    constructor; [now apply IH|].
    apply Forall_app in Hx. tauto.
Qed.

Lemma calculate_uptime_url (u : string) (hours : Z) (w w' : World)
    (rep : UptimeReport) :
  calculate_uptime clk DATA_DIR u hours w = (Ok rep, w') -> up_url rep = u.
Proof.
  unfold calculate_uptime, bind, lift, ret.
  destruct (load_recent_checks clk DATA_DIR hours w) as [[checks|e] w1];
    [|discriminate].
  destruct (filter_url u checks) as [[|first rest]|e]; [| |discriminate].
  - intros H. apply pair_equal_spec in H as [H _]. injection H as <-. reflexivity.
  - destruct (count_up _) as [n|e]; [|discriminate].
    destruct (sum_response _) as [q|e]; [|discriminate].
    destruct (py_truediv q _) as [avg|e]; [|discriminate].
    destruct (py_truediv (PyInt n) _) as [ratio|e]; [|discriminate].
    intros H. apply pair_equal_spec in H as [H _]. injection H as <-. reflexivity.
Qed.

Lemma get_endpoint_uptime_with_scheme (u : string) (hours : Z) (w : World) :
  String.prefix "http" u = true ->
  get_endpoint_uptime clk DATA_DIR u hours w = calculate_uptime clk DATA_DIR u hours w.
Proof. intros Hp. unfold get_endpoint_uptime. now rewrite Hp. Qed.

Lemma get_endpoint_uptime_without_scheme (u : string) (hours : Z) (w : World) :
  String.prefix "http" u = false ->
  get_endpoint_uptime clk DATA_DIR u hours w =
  calculate_uptime clk DATA_DIR ("https://" +:+ u) hours w.
Proof. intros Hp. unfold get_endpoint_uptime. now rewrite Hp. Qed.

(** X23.  The URL that [get_endpoint_uptime] looks up always starts with the
    four letters http: a URL that does so is taken as it is, with or
    without a scheme, and any other gets the scheme [https://] put in
    front; normalising twice is normalising once. *)
Theorem get_endpoint_uptime_normalises_url (u : string) (hours : Z) (w : World) :
  exists u',
    get_endpoint_uptime clk DATA_DIR u hours w =
      calculate_uptime clk DATA_DIR u' hours w /\
    String.prefix "http" u' = true /\
    (String.prefix "http" u = true -> u' = u) /\
    (String.prefix "http" u = false -> u' = "https://" +:+ u) /\
    get_endpoint_uptime clk DATA_DIR u' hours w =
      get_endpoint_uptime clk DATA_DIR u hours w /\
    (forall rep w',
        get_endpoint_uptime clk DATA_DIR u hours w = (Ok rep, w') ->
        up_url rep = u').
Proof.
  destruct (String.prefix "http" u) eqn:Hp.
  - exists u. rewrite (get_endpoint_uptime_with_scheme u hours w Hp).
    split; [reflexivity|]. split; [exact Hp|]. split; [reflexivity|].
    split; [discriminate|]. split; [reflexivity|].
    intros rep w'. apply calculate_uptime_url.
  - exists ("https://" +:+ u).
    rewrite (get_endpoint_uptime_without_scheme u hours w Hp).
    rewrite (get_endpoint_uptime_with_scheme ("https://" +:+ u) hours w eq_refl).
    split; [reflexivity|]. split; [reflexivity|]. split; [discriminate|].
    split; [reflexivity|]. split; [reflexivity|].
    intros rep w'. apply calculate_uptime_url.
Qed.

End Handlers.

Lemma record_without_url_fails_the_reports_witness :
  calculate_uptime clk_utc data_dir (ep_url ep_A) 1 w_no_url =
  (Raise KeyError, snd (load_recent_checks clk_utc data_dir 1 w_no_url)).
Proof.
  apply (proj1 (record_without_url_fails_the_reports clk_utc data_dir 1 w_no_url
                  (snd (load_recent_checks clk_utc data_dir 1 w_no_url))
                  [JObj [("checked_at", JStr "2024-03-01T12:00:00")]]
                  (JObj [("checked_at", JStr "2024-03-01T12:00:00")])
                  ltac:(vm_compute; reflexivity)
                  ltac:(now left)
                  ltac:(intros v; vm_compute; discriminate))).
Defined.

Lemma get_checks_returns_a_prefix_witness :
  exists recent_checks,
    load_recent_checks clk_utc data_dir 1 w_two =
      (Ok recent_checks, snd (load_recent_checks clk_utc data_dir 1 w_two)) /\
    page_count (mkChecksPage [check_record r_C_up] 1) = 1.
Proof.
  assert (H : get_checks clk_utc data_dir 1 (-1) w_two =
              (Ok (mkChecksPage [check_record r_C_up] 1),
               snd (load_recent_checks clk_utc data_dir 1 w_two)))
    by (vm_compute; reflexivity).
  destruct (get_checks_returns_a_prefix clk_utc data_dir 1 (-1) w_two _ _ H)
    as (all & Hload & Hcount & _).
  exists all. split; [exact Hload | exact Hcount].
Defined.

(* ================================================================== *)
(** * A check on demand, end to end *)
(* ================================================================== *)

Lemma replay_untouched (evs : list Event) (p : string) :
  forall fs : gmap string string,
    (forall path text, In (EvAppend path text) evs -> path <> p) ->
    replay evs fs !! p = fs !! p.
Proof.
  induction evs as [|ev evs IH]; intros fs Hne; [reflexivity|].
  unfold replay. cbn [foldl]. fold (replay evs (replay_event fs ev)).
  rewrite IH by (intros path text Hin; apply (Hne path text); now right).
  destruct ev as [path text|inc sent]; cbn [replay_event]; [|reflexivity].
  rewrite lookup_insert_ne; [reflexivity|].
  apply (Hne path text). now left.
Qed.

Lemma tracking_events_off_checks (dir : string) (telegram : Incident -> bool)
    (evs : list Event) (d : string) :
  Forall (tracking_event dir telegram) evs ->
  forall path text, In (EvAppend path text) evs -> path <> checks_path dir d.
Proof.
  intros Hall path text Hin. rewrite List.Forall_forall in Hall.
  destruct (Hall _ Hin) as (d' & inc & -> & _).
  intros H. symmetry in H. now apply checks_path_not_incidents in H.
Qed.

Lemma check_events_paths (clk : Clock) (dir : string) (d : date)
    (results : list CheckResult) :
  forall n,
    (forall i, (i < length results)%nat -> today_at clk (n + i) = d) ->
    forall path text,
      In (EvAppend path text) (check_events clk dir n results) ->
      path = checks_path dir (date_isoformat d).
Proof.
  unfold check_events.
  induction results as [|r results IH]; intros n Hd path text Hin; [destruct Hin|].
  rewrite imap_cons in Hin. destruct Hin as [Heq|Hin].
  - injection Heq as <- _. rewrite (Hd 0%nat) by (cbn; lia). reflexivity.
  - apply (IH (S n)) with (text := text).
    + intros i Hi. replace (S n + i)%nat with (n + S i)%nat by lia.
      apply Hd. cbn. lia.
    + erewrite imap_ext; [exact Hin|].
      intros i x _. cbn. now rewrite Nat.add_succ_r.
Qed.

Lemma filter_length_Permutation {A} (f : A -> bool) (l l' : list A) :
  Permutation l l' ->
  length (List.filter f l) = length (List.filter f l').
Proof.
  induction 1 as [|x l l' _ IH|x y l|l l' l'' _ IH1 _ IH2];
    cbn [List.filter]; try reflexivity.
  - destruct (f x); cbn [length]; now rewrite IH.
  - destruct (f x), (f y); reflexivity.
  - now rewrite IH1.
Qed.

(** The first loop of the summary over the records of results with
    distinct URLs: every record is the first of its URL. *)
Lemma latest_loop_distinct (rs : list CheckResult) :
  forall acc,
    NoDup (map url rs) ->
    (forall r, In r rs -> has_key (JStr (url r)) acc = false) ->
    latest_loop (map check_record rs) acc =
    Ok (acc ++ map (fun r => (JStr (url r), check_record r)) rs).
Proof.
  induction rs as [|r rs IH]; intros acc Hnd Hacc.
  - cbn. now rewrite app_nil_r.
  - cbn [map] in Hnd. apply NoDup_cons in Hnd as [Hnotin Hnd].
    cbn [map latest_loop].
    change (getitem (check_record r) "url") with (@Ok json (JStr (url r))).
    cbn [hashable negb]. rewrite (Hacc r) by now left.
    rewrite IH.
    + now rewrite <- app_assoc.
    + exact Hnd.
    + intros r' Hin. rewrite has_key_app, (Hacc r') by now right.
      unfold has_key. cbn. rewrite orb_false_r.
      apply String.eqb_neq. intros Heq. apply Hnotin.
      rewrite Heq. apply list_elem_of_In. now apply in_map.
Qed.

Lemma summary_loop_results (rs : list CheckResult) :
  forall s0,
    summary_loop (map (fun r => (JStr (url r), check_record r)) rs) s0 =
    Ok (mkStatusSummary
          (s_endpoints s0 ++ map entry_for rs)
          (s_total s0)
          (s_up s0 + Z.of_nat (length (List.filter is_healthy rs)))
          (s_down s0 +
           Z.of_nat (length (List.filter (fun r => Status_eqb (status r) DOWN) rs)))
          (s_degraded s0 +
           Z.of_nat (length (List.filter
                               (fun r => Status_eqb (status r) DEGRADED) rs)))).
Proof.
  unfold entry_for.
  induction rs as [|r rs IH]; intros s0.
  - cbn. rewrite app_nil_r, !Z.add_0_r. now destruct s0.
  - cbn [map summary_loop].
    change (getitem (check_record r) "status")
      with (@Ok json (JStr (status_value (status r)))).
    change (getitem (check_record r) "response_time_ms")
      with (@Ok json (JFloat (response_time_ms r))).
    change (getitem (check_record r) "checked_at")
      with (@Ok json (JStr (isoformat (checked_at r)))).
    cbv beta iota zeta. rewrite IH. cbn [List.filter]. unfold is_healthy at 2.
    destruct (status r);
      cbn [status_value json_eq_str String.eqb Ascii.eqb Bool.eqb Status_eqb
           s_endpoints s_total s_up s_down s_degraded length];
      rewrite <- app_assoc; cbn [app]; do 2 f_equal; lia.
Qed.

Lemma filter_all {A} (f : A -> bool) (l : list A) :
  Forall (fun x => f x = true) l -> List.filter f l = l.
Proof.
  induction 1 as [|x l Hx _ IH]; [reflexivity|].
  cbn [List.filter]. now rewrite Hx, IH.
Qed.

Lemma check_endpoint_url (ep : Endpoint) (o : Observation) :
  url (check_endpoint ep o) = ep_url ep.
Proof. unfold check_endpoint. now destruct (outcome o). Qed.

Lemma check_endpoint_checked_at (ep : Endpoint) (o : Observation) :
  checked_at (check_endpoint ep o) = finished_at o.
Proof. unfold check_endpoint. now destruct (outcome o). Qed.

Lemma string_app_inv_head (a b c : string) : a +:+ b = a +:+ c -> b = c.
Proof.
  induction a as [|x a IH]; cbn; [easy|]. intros [= H]. now apply IH.
Qed.

Lemma string_app_inv_tail (a b c : string) : a +:+ c = b +:+ c -> a = b.
Proof.
  revert b. induction a as [|x a IH]; intros [|y b] H.
  - reflexivity.
  - apply (f_equal String.length) in H.
    rewrite (string_length_app (String y b) c) in H. cbn in H. lia.
  - apply (f_equal String.length) in H.
    rewrite (string_length_app (String x a) c) in H. cbn in H. lia.
  - cbn in H. injection H as -> H. f_equal. now apply IH.
Qed.

Lemma checks_path_inj (dir d1 d2 : string) :
  checks_path dir d1 = checks_path dir d2 -> d1 = d2.
Proof.
  unfold checks_path. intros H.
  apply string_app_inv_head in H. apply string_app_inv_head in H.
  now apply string_app_inv_tail in H.
Qed.

Section OnDemand.

Variable clk : Clock.
Variable DATA_DIR : string.

Lemma load_checks_for_date_at (d : string) (w w1 : World) :
  files w1 !! checks_path DATA_DIR d = files w !! checks_path DATA_DIR d ->
  fst (load_checks_for_date DATA_DIR d w1) =
  fst (load_checks_for_date DATA_DIR d w).
Proof.
  unfold load_checks_for_date, bind, read_file, lift, ret. intros ->.
  now destruct (files w !! checks_path DATA_DIR d).
Qed.

(** The world a cycle leaves behind. *)
Lemma run_checks_world (endpoints : list Endpoint) (obs : nat -> Observation)
    (schedule : list nat) (telegram : Incident -> bool) (w w1 : World)
    (out : result unit) :
  run_checks clk DATA_DIR endpoints obs schedule telegram w = Some (out, w1) ->
  exists evs,
    out = Ok tt /\
    files w1 =
      replay (check_events clk DATA_DIR (ticks w)
                (imap (fun i ep => check_endpoint ep (obs i)) endpoints) ++ evs)
             (files w) /\
    Forall (tracking_event DATA_DIR telegram) evs.
Proof.
  intros Hrun. unfold run_checks in Hrun.
  destruct endpoints as [|ep0 eps] eqn:Heps.
  - injection Hrun as <- <-. exists []. repeat split. constructor.
  - rewrite <- Heps in *. clear Heps ep0 eps.
    destruct (check_all endpoints obs schedule) as [results|] eqn:Hall;
      [|discriminate].
    unfold check_all in Hall. apply gather_in_order in Hall. subst results.
    destruct (run_cycle_run clk DATA_DIR telegram
                (imap (fun i ep => check_endpoint ep (obs i)) endpoints) w)
      as (evs & Hcyc & Hev & _).
    rewrite Hcyc in Hrun. injection Hrun as <- <-.
    exists evs. now repeat split.
Qed.

(** X24.  A check on demand, on a host whose local date is the UTC date, into
    partitions of the day and of the day before that did not exist yet,
    for endpoints with distinct URLs and results stamped within the last
    hour: the summary that comes back has one entry per endpoint, showing
    the status, the latency and the timestamp of the result just
    obtained, and its counters count these results. *)
Theorem check_on_demand_shows_fresh_results
    (endpoints : list Endpoint) (obs : nat -> Observation) (schedule : list nat)
    (telegram : Incident -> bool) (w w1 : World) (d : date)
    (today yesterday cutoff : datetime) :
  NoDup (map ep_url endpoints) ->
  run_checks clk DATA_DIR endpoints obs schedule telegram w = Some (Ok tt, w1) ->
  (forall i, (i < length endpoints)%nat -> today_at clk (ticks w + i) = d) ->
  files w !! checks_path DATA_DIR (date_isoformat d) = None ->
  days_before (utcnow_at clk (ticks w1)) 0 = Ok today ->
  dt_date today = d ->
  days_before (utcnow_at clk (ticks w1)) 1 = Ok yesterday ->
  files w !! checks_path DATA_DIR (date_isoformat (dt_date yesterday)) = None ->
  date_isoformat (dt_date yesterday) <> date_isoformat d ->
  hours_before (utcnow_at clk (ticks w1)) 1 = Ok cutoff ->
  (forall i,
      (i < length endpoints)%nat ->
      dt_valid (finished_at (obs i)) = true /\
      dt_leb cutoff (finished_at (obs i)) = true) ->
  exists s,
    trigger_check clk DATA_DIR endpoints obs schedule telegram w =
      Some (Ok s, ticked w1) /\
    s_total s = Z.of_nat (length endpoints) /\
    Permutation (s_endpoints s)
      (map entry_for (imap (fun i ep => check_endpoint ep (obs i)) endpoints)) /\
    s_up s =
      Z.of_nat (length (List.filter is_healthy
                          (imap (fun i ep => check_endpoint ep (obs i)) endpoints))) /\
    s_down s =
      Z.of_nat (length (List.filter (fun r => Status_eqb (status r) DOWN)
                          (imap (fun i ep => check_endpoint ep (obs i)) endpoints))) /\
    s_degraded s =
      Z.of_nat (length (List.filter (fun r => Status_eqb (status r) DEGRADED)
                          (imap (fun i ep => check_endpoint ep (obs i)) endpoints))).
Proof.
  intros Hnd Hrun Hdate Hfresh Htoday Htd Hyesterday Hfresh_y Hne Hcutoff Hobs.
  set (results := imap (fun i ep => check_endpoint ep (obs i)) endpoints) in *.
  assert (Hlen : length results = length endpoints) by apply length_imap.
  assert (Hlookup : forall r, In r results ->
            exists i ep, endpoints !! i = Some ep /\ r = check_endpoint ep (obs i)).
  { intros r Hin. apply list_elem_of_In, list_elem_of_lookup in Hin as (i & Hi).
    subst results. rewrite list_lookup_imap in Hi.
    destruct (endpoints !! i) as [ep|] eqn:Hep; [|discriminate].
    injection Hi as <-. now exists i, ep. }
  assert (Hurls : map url results = map ep_url endpoints).
  { subst results. apply list_eq. intros i.
    rewrite !list_lookup_fmap, list_lookup_imap.
    destruct (endpoints !! i) as [ep|]; [|reflexivity]. cbn.
    now rewrite check_endpoint_url. }
  (* the two partitions after the cycle *)
  destruct (run_checks_world _ _ _ _ _ _ _ Hrun) as (evs & _ & Hfiles & Hev).
  fold results in Hfiles.
  assert (Hdate' : forall i, (i < length results)%nat ->
                             today_at clk (ticks w + i) = d)
    by (intros i Hi; apply Hdate; lia).
  assert (Hpd : files w1 !! checks_path DATA_DIR (date_isoformat d) =
                files (snd (save_checks clk DATA_DIR results w))
                  !! checks_path DATA_DIR (date_isoformat d)).
  { rewrite Hfiles, replay_app, save_checks_run. cbn [snd files].
    apply replay_untouched.
    now apply (tracking_events_off_checks DATA_DIR telegram). }
  assert (Hpy : files w1 !! checks_path DATA_DIR (date_isoformat (dt_date yesterday))
                = None).
  { rewrite Hfiles, replay_untouched; [exact Hfresh_y|].
    intros path text Hin. apply in_app_or in Hin as [Hin|Hin].
    - rewrite (check_events_paths clk DATA_DIR d results (ticks w) Hdate'
                 path text Hin).
      intros Heq. apply Hne. now apply checks_path_inj in Heq.
    - now apply (tracking_events_off_checks DATA_DIR telegram evs _ Hev path text). }
  (* what the two partitions hold *)
  assert (Hq : Forall (fun r => round2 (response_time_ms r) = response_time_ms r)
                 results).
  { apply List.Forall_forall. intros r Hin.
    destruct (Hlookup r Hin) as (i & ep & _ & ->).
    apply check_endpoint_two_decimals. }
  assert (HT : fst (load_checks_for_date DATA_DIR
                      (date_isoformat (dt_date today)) w1) =
               Ok (map check_record results)).
  { rewrite Htd, (load_checks_for_date_at _ _ _ Hpd).
    apply (save_checks_load clk DATA_DIR results w d [] []);
      try assumption; try reflexivity; [|constructor].
    now rewrite Hfresh. }
  assert (HY : fst (load_checks_for_date DATA_DIR
                      (date_isoformat (dt_date yesterday)) w1) = Ok [])
    by now apply load_checks_for_date_missing.
  assert (Htimes : forall r, In r results ->
            check_time (check_record r) = Ok (checked_at r) /\
            dt_leb cutoff (checked_at r) = true).
  { intros r Hin. destruct (Hlookup r Hin) as (i & ep & Hep & ->).
    rewrite check_endpoint_checked_at.
    destruct (Hobs i) as [Hv Hle]; [now apply lookup_lt_Some in Hep|].
    split; [|exact Hle].
    unfold check_time.
    change (sort_key (check_record (check_endpoint ep (obs i))))
      with (@Ok string (isoformat (checked_at (check_endpoint ep (obs i))))).
    rewrite check_endpoint_checked_at. now apply fromisoformat_isoformat. }
  assert (Hall : Forall has_time (map check_record results ++ [])).
  { rewrite app_nil_r. apply List.Forall_forall. intros c Hin.
    apply in_map_iff in Hin as (r & <- & Hin).
    exists (checked_at r). now apply Htimes. }
  assert (Hkeep : List.filter (recent cutoff) (map check_record results ++ []) =
                  map check_record results).
  { rewrite app_nil_r. apply filter_all. apply List.Forall_forall.
    intros c Hin. apply in_map_iff in Hin as (r & <- & Hin).
    destruct (Htimes r Hin) as [Ht Hle]. unfold recent. now rewrite Ht. }
  pose proof (load_recent_checks_run clk DATA_DIR 1 w1 today yesterday cutoff
                (map check_record results) [] Htoday Hyesterday Hcutoff HT HY Hall)
    as Hload.
  rewrite Hkeep in Hload.
  rewrite app_nil_r in Hall.
  destruct (sorted_by_checked_at_desc_spec _ Hall) as (L & HL & Hperm & _).
  rewrite HL in Hload.
  apply Permutation_map_inv in Hperm as (rs' & -> & Hperm).
  assert (Hpair : load_recent_checks clk DATA_DIR 1 w1 =
                  (Ok (map check_record rs'), ticked w1)).
  { rewrite (surjective_pairing (load_recent_checks clk DATA_DIR 1 w1)).
    now rewrite Hload, load_recent_checks_world. }
  assert (Hnd' : NoDup (map url rs')).
  { pose proof (Permutation_map url Hperm) as Hp.
    rewrite <- Hp, Hurls. exact Hnd. }
  (* the summary *)
  eexists. split.
  - unfold trigger_check. rewrite Hrun. unfold get_status_summary.
    rewrite (bind_run _ _ w1 (ticked w1) _ Hpair).
    rewrite (bind_run _ _ (ticked w1) (ticked w1)
               (map (fun r => (JStr (url r), check_record r)) rs')).
    + unfold lift. rewrite summary_loop_results. reflexivity.
    + apply lift_run.
      now rewrite (latest_loop_distinct rs' [] Hnd') by reflexivity.
  - cbn [s_endpoints s_total s_up s_down s_degraded app].
    rewrite length_map, <- (Permutation_length Hperm), Hlen.
    rewrite !(filter_length_Permutation _ _ _ Hperm).
    repeat split; try lia.
    apply Permutation_map. now apply Permutation_sym.
Qed.

End OnDemand.

Lemma check_on_demand_shows_fresh_results_witness :
  exists s,
    trigger_check clk_utc data_dir eps_ABC obs_ABC [2; 0; 1]%nat (fun _ => true)
      w_fresh = Some (Ok s, ticked w_first_cycle) /\
    s_total s = 3 /\ s_up s = 1 /\ s_down s = 1 /\ s_degraded s = 1.
Proof.
  assert (Hnd : NoDup (map ep_url eps_ABC)).
  { apply (bool_decide_unpack _). vm_compute. exact I. }
  assert (Hrun : run_checks clk_utc data_dir eps_ABC obs_ABC [2; 0; 1]%nat
                   (fun _ => true) w_fresh = Some (Ok tt, w_first_cycle))
    by (vm_compute; reflexivity).
  assert (Hdate : forall i, (i < length eps_ABC)%nat ->
                    today_at clk_utc (ticks w_fresh + i) = mkdate 2024 3 1)
    by (intros i _; reflexivity).
  assert (Hfresh : files w_fresh
                     !! checks_path data_dir (date_isoformat (mkdate 2024 3 1)) =
                   None) by (vm_compute; reflexivity).
  assert (Htoday : days_before (utcnow_at clk_utc (ticks w_first_cycle)) 0 =
                   Ok (mkdt 2024 3 1 12 5 3 0)) by (vm_compute; reflexivity).
  assert (Hyesterday : days_before (utcnow_at clk_utc (ticks w_first_cycle)) 1 =
                       Ok (mkdt 2024 2 29 12 5 3 0)) by (vm_compute; reflexivity).
  assert (Hfresh_y : files w_fresh
                       !! checks_path data_dir
                            (date_isoformat (dt_date (mkdt 2024 2 29 12 5 3 0))) =
                     None) by (vm_compute; reflexivity).
  assert (Hne : date_isoformat (dt_date (mkdt 2024 2 29 12 5 3 0)) <>
                date_isoformat (mkdate 2024 3 1)) by (vm_compute; discriminate).
  assert (Hcutoff : hours_before (utcnow_at clk_utc (ticks w_first_cycle)) 1 =
                    Ok (mkdt 2024 3 1 11 5 3 0)) by (vm_compute; reflexivity).
  assert (Hobs : forall i, (i < length eps_ABC)%nat ->
                   dt_valid (finished_at (obs_ABC i)) = true /\
                   dt_leb (mkdt 2024 3 1 11 5 3 0) (finished_at (obs_ABC i)) = true).
  { intros i Hi. destruct i as [|[|[|i]]];
      [split; vm_compute; reflexivity..|cbn in Hi; lia]. }
  destruct (check_on_demand_shows_fresh_results clk_utc data_dir eps_ABC obs_ABC
              [2; 0; 1]%nat (fun _ => true) w_fresh w_first_cycle
              (mkdate 2024 3 1) (mkdt 2024 3 1 12 5 3 0)
              (mkdt 2024 2 29 12 5 3 0) (mkdt 2024 3 1 11 5 3 0)
              Hnd Hrun Hdate Hfresh Htoday eq_refl Hyesterday Hfresh_y Hne
              Hcutoff Hobs)
    as (s & Htrig & Htotal & _ & Hup & Hdown & Hdeg).
  exists s. split; [exact Htrig|].
  split; [exact Htotal|]. split; [exact Hup|]. split; [exact Hdown | exact Hdeg].
Defined.


(* ================================================================== *)
(** * The report of the Aggregator *)
(* ================================================================== *)

(** Two values that exact arithmetic would round the other way:
    [round(23 / 160 * 100, 2)] and the rounded mean of 100.0 and 100.05. *)
Example percentage_23_of_160 : percentage 23 160 = (1437 # 100)%Q.
Proof. vm_compute. reflexivity. Qed.

Example rounded_mean_100_100_05 :
  rounded_mean [b64 100; b64 (10005 # 100)] = (10003 # 100)%Q.
Proof. vm_compute. reflexivity. Qed.




Section Aggregator.

Variable clk : Clock.
Variable DATA_DIR : string.


End Aggregator.



(* ================================================================== *)
(** * Persistence before notification *)
(* ================================================================== *)

Section PersistThenNotify.

Variable clk : Clock.
Variable DATA_DIR : string.






End PersistThenNotify.


(* ================================================================== *)
(** * The round trip through the window *)
(* ================================================================== *)

Section WindowRoundTrip.

Variable clk : Clock.
Variable DATA_DIR : string.


End WindowRoundTrip.

